(** * meet-display: the ingestion and scoring pipeline of [server.js]

    A shallow embedding of the server's document projection, attempt
    linking, scoring, referee-light aggregation and snapshot distribution,
    followed by the properties the specification states about them.

    The server is JavaScript working on parsed JSON, so the embedding starts
    with a small model of the values and built-ins the code relies on
    (module [JS]), then follows [server.js] function by function. *)

From Stdlib Require Import QArith Qabs Lqa ZArith Lia List String Ascii Bool.
From Stdlib Require Import DecimalString Permutation Sorted.
Import ListNotations.

Local Open Scope string_scope.
Local Open Scope list_scope.

(* ================================================================== *)
(** ** The JavaScript values and built-ins used by the server *)
(* ================================================================== *)

Module JS.

(** A JavaScript number is a rational or [NaN].  Infinities, the sign of
    zero and binary rounding are outside the model: every number the server
    handles comes from a decimal literal of the feed or the federation
    table, and is only compared, negated, added or subtracted. *)
Inductive num : Type :=
| NaN
| Num (q : Q).

Set Warnings "-register-all".

(** A parsed JSON document, plus [undefined] for what a missing property
    reads as.  An object keeps its keys in insertion order. *)
Inductive value : Type :=
| VUndef
| VNull
| VBool (b : bool)
| VNum (q : Q)
| VStr (s : string)
| VArr (items : list value)
| VObj (fields : list (string * value)).

Inductive exn : Type := TypeError.

(** The result of code that may throw. *)
Inductive res (A : Type) : Type :=
| Ok (a : A)
| Throw (e : exn).
Arguments Ok {A} a.
Arguments Throw {A} e.

Definition bind {A B : Type} (m : res A) (k : A -> res B) : res B :=
  match m with
  | Ok a => k a
  | Throw e => Throw e
  end.

Notation "x <- m ;; k" := (bind m (fun x => k))
  (at level 61, m at next level, right associativity).

(** *** Numbers *)

Definition Qltb (x y : Q) : bool :=
  match (x ?= y)%Q with Lt => true | _ => false end.

(** [a < b], [a <= b], [a > b], [a >= b]: false as soon as one side is NaN. *)
Definition num_lt (a b : num) : bool :=
  match a, b with Num x, Num y => Qltb x y | _, _ => false end.
Definition num_le (a b : num) : bool :=
  match a, b with Num x, Num y => Qle_bool x y | _, _ => false end.
Definition num_gt (a b : num) : bool := num_lt b a.
Definition num_ge (a b : num) : bool := num_le b a.

(** [a === b] on numbers. *)
Definition num_eq (a b : num) : bool :=
  match a, b with Num x, Num y => Qeq_bool x y | _, _ => false end.

Definition num_add (a b : num) : num :=
  match a, b with Num x, Num y => Num (x + y) | _, _ => NaN end.
Definition num_sub (a b : num) : num :=
  match a, b with Num x, Num y => Num (x - y) | _, _ => NaN end.
Definition num_div (a b : num) : num :=
  match a, b with
  | Num x, Num y => if Qeq_bool y 0 then NaN else Num (x / y)
  | _, _ => NaN
  end.
Definition num_neg (a : num) : num :=
  match a with Num x => Num (- x) | NaN => NaN end.
Definition num_abs (a : num) : num :=
  match a with Num x => Num (Qabs x) | NaN => NaN end.

Definition zero : num := Num 0.

(** Truthiness of a number: neither [0] nor [NaN]. *)
Definition num_truthy (a : num) : bool :=
  match a with Num x => negb (Qeq_bool x 0) | NaN => false end.

(** [a || 0] on a number. *)
Definition num_or0 (a : num) : num := if num_truthy a then a else zero.

Definition isNaN (a : num) : bool :=
  match a with NaN => true | Num _ => false end.

(** *** Strings *)

Definition code (c : ascii) : nat := nat_of_ascii c.

Definition is_digit (c : ascii) : bool :=
  (48 <=? code c)%nat && (code c <=? 57)%nat.

Definition digit_val (c : ascii) : Z := Z.of_nat (code c - 48).

(** Space, tab, line feed, vertical tab, form feed and carriage return (the
    ASCII part of the white space JavaScript trims). *)
Definition is_space (c : ascii) : bool :=
  (code c =? 32)%nat || ((9 <=? code c)%nat && (code c <=? 13)%nat).

Definition lower_char (c : ascii) : ascii :=
  if (65 <=? code c)%nat && (code c <=? 90)%nat
  then ascii_of_nat (code c + 32) else c.

Definition upper_char (c : ascii) : ascii :=
  if (97 <=? code c)%nat && (code c <=? 122)%nat
  then ascii_of_nat (code c - 32) else c.

Fixpoint map_string (f : ascii -> ascii) (s : string) : string :=
  match s with
  | EmptyString => EmptyString
  | String c s' => String (f c) (map_string f s')
  end.

(** [s.toLowerCase()] and [s.toUpperCase()]; strings are byte strings, and
    only the ASCII letters change case. *)
Definition toLowerCase (s : string) : string := map_string lower_char s.
Definition toUpperCase (s : string) : string := map_string upper_char s.

(** [s.startsWith(p)]. *)
Definition startsWith (s p : string) : bool := String.prefix p s.

Fixpoint skip_spaces (s : string) : string :=
  match s with
  | String c s' => if is_space c then skip_spaces s' else s
  | EmptyString => s
  end.

(** [s.replace("+", "")]: the first ["+"] is removed. *)
Fixpoint remove_first_plus (s : string) : string :=
  match s with
  | EmptyString => EmptyString
  | String c s' =>
      if Ascii.eqb c "+"%char then s' else String c (remove_first_plus s')
  end.

(** *** Reading numbers from strings *)

Fixpoint read_digits (s : string) (acc : Z) (cnt : nat) : Z * nat * string :=
  match s with
  | String c s' =>
      if is_digit c then read_digits s' (10 * acc + digit_val c)%Z (S cnt)
      else (acc, cnt, s)
  | EmptyString => (acc, cnt, s)
  end.

Definition read_sign (s : string) : bool * string :=
  match s with
  | String c s' =>
      if Ascii.eqb c "-"%char then (true, s')
      else if Ascii.eqb c "+"%char then (false, s')
      else (false, s)
  | EmptyString => (false, s)
  end.

Definition pow10 (n : Z) : positive := Z.to_pos (10 ^ n).

(** The exponent part [e+ddd] or [e-ddd], read only when a digit follows. *)
Definition read_exponent (s : string) : Z * string :=
  match s with
  | String c s' =>
      if Ascii.eqb c "e"%char || Ascii.eqb c "E"%char then
        let '(neg, s1) := read_sign s' in
        let '(e, n, s2) := read_digits s1 0%Z 0%nat in
        match n with
        | O => (0%Z, s)
        | S _ => ((if neg then - e else e)%Z, s2)
        end
      else (0%Z, s)
  | EmptyString => (0%Z, s)
  end.

(** The longest decimal literal at the start of [s] and what follows it:
    sign, digits, an optional fraction, an optional exponent; at least one
    digit is required.  (The literal [Infinity] has no value in the model
    and is read as no number.) *)
Definition read_decimal (s : string) : option (Q * string) :=
  let '(neg, s1) := read_sign s in
  let '(ip, ni, s2) := read_digits s1 0%Z 0%nat in
  let '(fp, nf, s3) :=
    match s2 with
    | String c s2' =>
        if Ascii.eqb c "."%char
        then
          let '(fp, nf, s3) := read_digits s2' 0%Z 0%nat in
          match ni, nf with
          | O, O => (0%Z, 0%nat, s2)
          | _, _ => (fp, nf, s3)
          end
        else (0%Z, 0%nat, s2)
    | EmptyString => (0%Z, 0%nat, s2)
    end in
  match ni, nf with
  | O, O => None
  | _, _ =>
      let '(e, s4) := read_exponent s3 in
      let m := (ip * Zpos (pow10 (Z.of_nat nf)) + fp)%Z in
      let m := if neg then (- m)%Z else m in
      let e' := (e - Z.of_nat nf)%Z in
      let q := if (0 <=? e')%Z then Qmake (m * Zpos (pow10 e')) 1
               else Qmake m (pow10 (- e')) in
      Some (Qred q, s4)
  end.

(** [parseFloat(s)] on a string. *)
Definition parseFloat_string (s : string) : num :=
  match read_decimal (skip_spaces s) with
  | Some (q, _) => Num q
  | None => NaN
  end.

(** [Number(s)] on a string: the whole string, white space trimmed, must be
    a decimal literal; the empty string is [0].  (Hexadecimal, octal and
    binary literals are read as NaN.) *)
Definition toNumber_string (s : string) : num :=
  match skip_spaces s with
  | EmptyString => zero
  | s' =>
      match read_decimal s' with
      | Some (q, rest) =>
          match skip_spaces rest with
          | EmptyString => Num q
          | _ => NaN
          end
      | None => NaN
      end
  end.

(** *** Printing numbers *)

Definition Z_to_string (z : Z) : string :=
  NilZero.string_of_int (Z.to_int z).

Fixpoint frac_digits (fuel : nat) (r d : Z) : string :=
  match fuel with
  | O => EmptyString
  | S fuel' =>
      if (r =? 0)%Z then EmptyString
      else String (ascii_of_nat (48 + Z.to_nat (10 * r / d)))
                  (frac_digits fuel' ((10 * r) mod d)%Z d)
  end.

(** [q.toString()]: the decimal expansion of [q] (at most 20 fractional
    digits; exponent notation, which JavaScript switches to from [1e21] and
    below [1e-6], is not produced). *)
Definition Q_to_string (q : Q) : string :=
  let q' := Qred q in
  let n := Z.abs (Qnum q') in
  let d := Zpos (Qden q') in
  let sign := if (Qnum q' <? 0)%Z then "-" else "" in
  let ip := Z_to_string (n / d) in
  let fr := frac_digits 20 (n mod d) d in
  match fr with
  | EmptyString => sign ++ ip
  | _ => sign ++ ip ++ "." ++ fr
  end.

Definition num_to_string (a : num) : string :=
  match a with NaN => "NaN" | Num q => Q_to_string q end.

(** *** Values *)

Definition truthy (v : value) : bool :=
  match v with
  | VUndef | VNull => false
  | VBool b => b
  | VNum q => negb (Qeq_bool q 0)
  | VStr s => negb (s =? "")
  | VArr _ | VObj _ => true
  end.

Definition nullish (v : value) : bool :=
  match v with VUndef | VNull => true | _ => false end.

(** [a || b]. *)
Definition js_or (a b : value) : value := if truthy a then a else b.

(** [typeof v === "object"] (which [null] satisfies). *)
Definition is_object (v : value) : bool :=
  match v with VNull | VArr _ | VObj _ => true | _ => false end.

(** [v === s] for a string [s]. *)
Definition is_string (v : value) (s : string) : bool :=
  match v with VStr t => (t =? s) | _ => false end.

Fixpoint lookup {A : Type} (k : string) (o : list (string * A)) : option A :=
  match o with
  | [] => None
  | (k', x) :: o' => if k' =? k then Some x else lookup k o'
  end.

Definition of_nat (n : nat) : value := VNum (inject_Z (Z.of_nat n)).

(** The property [k] of a value that is not [null] or [undefined]: a field
    of an object, the [length] of an array or string, [undefined] otherwise
    (inherited properties are not modelled). *)
Definition getv (v : value) (k : string) : value :=
  match v with
  | VObj fs => match lookup k fs with Some x => x | None => VUndef end
  | VArr l => if k =? "length" then of_nat (List.length l) else VUndef
  | VStr s => if k =? "length" then of_nat (String.length s) else VUndef
  | _ => VUndef
  end.

(** [v.k]: a TypeError on [null] and [undefined]. *)
Definition prop (v : value) (k : string) : res value :=
  if nullish v then Throw TypeError else Ok (getv v k).

(** [v?.k]. *)
Definition oprop (v : value) (k : string) : value :=
  if nullish v then VUndef else getv v k.

(** [v[0]]. *)
Definition first_item (v : value) : value :=
  match v with
  | VArr (x :: _) => x
  | VStr (String c _) => VStr (String c EmptyString)
  | VObj fs => match lookup "0" fs with Some x => x | None => VUndef end
  | _ => VUndef
  end.

(** [v.startsWith(p)] on a value that is not [null] or [undefined]: only a
    string has the method. *)
Definition call_startsWith (v : value) (p : string) : res value :=
  match v with
  | VStr s => Ok (VBool (startsWith s p))
  | _ => Throw TypeError
  end.

(** [v?.startsWith(p)]. *)
Definition opt_startsWith (v : value) (p : string) : res value :=
  if nullish v then Ok VUndef else call_startsWith v p.

(** [v.toLowerCase()] and [v.toUpperCase()]. *)
Definition call_toLowerCase (v : value) : res string :=
  match v with
  | VStr s => Ok (toLowerCase s)
  | _ => Throw TypeError
  end.

Definition call_toUpperCase (v : value) : res string :=
  match v with
  | VStr s => Ok (toUpperCase s)
  | _ => Throw TypeError
  end.

(** [String(v)], as in a template literal or a property key. *)
Fixpoint to_string (v : value) : string :=
  match v with
  | VUndef => "undefined"
  | VNull => "null"
  | VBool b => if b then "true" else "false"
  | VNum q => Q_to_string q
  | VStr s => s
  | VArr l =>
      (fix join (l : list value) : string :=
         match l with
         | [] => ""
         | x :: l' =>
             let sx := match x with
                       | VUndef | VNull => ""
                       | _ => to_string x
                       end in
             match l' with
             | [] => sx
             | _ :: _ => (sx ++ "," ++ join l')%string
             end
         end) l
  | VObj _ => "[object Object]"
  end.

(** [parseFloat(v)]. *)
Definition parseFloat (v : value) : num :=
  match v with
  | VNum q => Num q
  | _ => parseFloat_string (to_string v)
  end.

(** [Number(v)], the conversion behind [v > 0]. *)
Definition toNumber (v : value) : num :=
  match v with
  | VUndef => NaN
  | VNull => zero
  | VBool b => if b then Num 1 else zero
  | VNum q => Num q
  | VStr s => toNumber_string s
  | VArr _ => toNumber_string (to_string v)
  | VObj _ => NaN
  end.

Definition is_hex (c : ascii) : bool :=
  is_digit c || ((65 <=? code c)%nat && (code c <=? 70)%nat)
             || ((97 <=? code c)%nat && (code c <=? 102)%nat).

Definition hex_val (c : ascii) : Z :=
  if is_digit c then digit_val c
  else if (97 <=? code c)%nat then Z.of_nat (code c - 87)
  else Z.of_nat (code c - 55).

Fixpoint read_hex (s : string) (acc : Z) (cnt : nat) : Z * nat :=
  match s with
  | String c s' =>
      if is_hex c then read_hex s' (16 * acc + hex_val c)%Z (S cnt)
      else (acc, cnt)
  | EmptyString => (acc, cnt)
  end.

(** [parseInt(v)]: the integer at the start of [String(v)], in base 16
    after a [0x] prefix and in base 10 otherwise. *)
Definition parseInt (v : value) : num :=
  let '(neg, s) := read_sign (skip_spaces (to_string v)) in
  let '(n, cnt) :=
    match s with
    | String "0" (String c s') =>
        if Ascii.eqb c "x"%char || Ascii.eqb c "X"%char
        then read_hex s' 0%Z 0%nat
        else let '(n, cnt, _) := read_digits s 0%Z 0%nat in (n, cnt)
    | _ => let '(n, cnt, _) := read_digits s 0%Z 0%nat in (n, cnt)
    end in
  match cnt with
  | O => NaN
  | S _ => Num (inject_Z (if neg then - n else n))
  end.

(** *** Objects used as maps

    A JavaScript object enumerates its string keys in insertion order;
    assigning to an existing key keeps the key's position.  (Keys that look
    like array indices would come first: the keys used here are document
    identifiers that passed a letter-prefix test, or contain ["_"].) *)
Definition obj (A : Type) : Type := list (string * A).

Fixpoint obj_set {A : Type} (k : string) (x : A) (o : obj A) : obj A :=
  match o with
  | [] => [(k, x)]
  | (k', y) :: o' =>
      if k' =? k then (k, x) :: o' else (k', y) :: obj_set k x o'
  end.

Definition obj_get {A : Type} (k : string) (o : obj A) : option A :=
  lookup k o.

Definition obj_keys {A : Type} (o : obj A) : list string := map fst o.
Definition obj_values {A : Type} (o : obj A) : list A := map snd o.

(** [rows.forEach(f)] where [f] updates the accumulator [acc] and may
    throw. *)
Fixpoint forEach {A S : Type} (f : S -> A -> res S) (l : list A) (acc : S)
  : res S :=
  match l with
  | [] => Ok acc
  | x :: l' => acc' <- f acc x ;; forEach f l' acc'
  end.

(** [arr.sort(cmp)]: a stable sort; [lt a b] says that [cmp(a, b)] is
    negative.  Insertion from the right keeps equal elements in their
    original order. *)
Section Sort.
Context {A : Type} (lt : A -> A -> bool).

Fixpoint insert (x : A) (l : list A) : list A :=
  match l with
  | [] => [x]
  | y :: l' => if lt y x then y :: insert x l' else x :: l
  end.

Fixpoint sort (l : list A) : list A :=
  match l with
  | [] => []
  | x :: l' => insert x (sort l')
  end.
End Sort.

End JS.

Import JS.

(* ================================================================== *)
(** ** The data model of [server.js] *)
(* ================================================================== *)

(** One discipline of a lifter: [{ 1: 0, 2: 0, 3: 0, best: 0 }]. *)
Module Lift.
Record t : Type := mk {
  slot1 : num;
  slot2 : num;
  slot3 : num;
  best : num
}.

Definition empty : t := mk zero zero zero zero.

Definition slots (l : t) : list num := [slot1 l; slot2 l; slot3 l].

(** [lift[n]] for [n] in 1..3. *)
Definition slot (n : nat) (l : t) : num :=
  match n with
  | 1 => slot1 l
  | 2 => slot2 l
  | _ => slot3 l
  end%nat.

(** [lift[n] = w] for [n] in 1..3. *)
Definition set_slot (n : nat) (w : num) (l : t) : t :=
  match n with
  | 1 => mk w (slot2 l) (slot3 l) (best l)
  | 2 => mk (slot1 l) w (slot3 l) (best l)
  | _ => mk (slot1 l) (slot2 l) w (best l)
  end%nat.

Definition set_best (b : num) (l : t) : t :=
  mk (slot1 l) (slot2 l) (slot3 l) b.
End Lift.

Inductive discipline : Type := Squat | Bench | Deadlift.

(** The lifter object built by [processLifters].  [place] is [null] or a
    rank; [records] is always the empty object and carries no data. *)
Module Lifter.
Record t : Type := mk {
  id : string;
  name : value;
  sex : value;
  weightClass : string;
  bodyweight : num;
  division : value;
  divisionId : value;
  squat : Lift.t;
  bench : Lift.t;
  deadlift : Lift.t;
  total : num;
  place : option nat;
  squatRackHeight : value;
  benchRackHeight : value;
  team : value;
  lot : value;
  platformId : value;
  session : value;
  flight : value
}.

Definition lift (d : discipline) (l : t) : Lift.t :=
  match d with
  | Squat => squat l
  | Bench => bench l
  | Deadlift => deadlift l
  end.

Definition set_lift (d : discipline) (x : Lift.t) (l : t) : t :=
  mk (id l) (name l) (sex l) (weightClass l) (bodyweight l) (division l)
     (divisionId l)
     (match d with Squat => x | _ => squat l end)
     (match d with Bench => x | _ => bench l end)
     (match d with Deadlift => x | _ => deadlift l end)
     (total l) (place l) (squatRackHeight l) (benchRackHeight l) (team l)
     (lot l) (platformId l) (session l) (flight l).

Definition set_total (x : num) (l : t) : t :=
  mk (id l) (name l) (sex l) (weightClass l) (bodyweight l) (division l)
     (divisionId l) (squat l) (bench l) (deadlift l)
     x (place l) (squatRackHeight l) (benchRackHeight l) (team l)
     (lot l) (platformId l) (session l) (flight l).

Definition set_place (p : option nat) (l : t) : t :=
  mk (id l) (name l) (sex l) (weightClass l) (bodyweight l) (division l)
     (divisionId l) (squat l) (bench l) (deadlift l)
     (total l) p (squatRackHeight l) (benchRackHeight l) (team l)
     (lot l) (platformId l) (session l) (flight l).

(** [lifter[k]] for a key [k] that names none of the three disciplines:
    the own property of that name, as a JavaScript value ([records] is an
    object; NaN is given as [undefined], which is as falsy; a key that is
    not a property reads as [undefined]). *)
Definition other_property (k : string) (l : t) : value :=
  if k =? "id" then VStr (id l)
  else if k =? "name" then name l
  else if k =? "sex" then sex l
  else if k =? "bodyweight" then
    match bodyweight l with Num q => VNum q | NaN => VUndef end
  else if k =? "division" then division l
  else if k =? "total" then
    match total l with Num q => VNum q | NaN => VUndef end
  else if k =? "place" then
    match place l with Some n => of_nat n | None => VNull end
  else if k =? "records" then VObj []
  else if k =? "team" then team l
  else if k =? "lot" then lot l
  else if k =? "session" then session l
  else if k =? "flight" then flight l
  else VUndef.
End Lifter.

(** The attempt object built by [processAttempts]. *)
Module Attempt.
Record t : Type := mk {
  id : value;
  lifterId : value;
  liftName : value;
  attemptNumber : value;
  weight : value;
  result : value;
  decisions : value;
  createDate : value
}.
End Attempt.

(** The platform object built by [processPlatforms]. *)
Module Platform.
Record t : Type := mk {
  id : string;
  name : value;
  timerRemaining : num;
  clockTimerLength : value;
  barAndCollarsWeight : value;
  currentAttemptId : value;
  lights : list bool
}.

Definition set_lights (ls : list bool) (p : t) : t :=
  mk (id p) (name p) (timerRemaining p) (clockTimerLength p)
     (barAndCollarsWeight p) (currentAttemptId p) ls.
End Platform.

(** The referee object built by [processReferees]. *)
Module Referee.
Record t : Type := mk {
  id : string;
  platformId : value;
  position : value;
  decision : value;
  cards : value
}.
End Referee.

(** The server's state, [meetData]. *)
Module MeetData.
Record t : Type := mk {
  lifters : obj Lifter.t;
  attempts : obj Attempt.t;
  divisions : obj value;
  platforms : obj Platform.t;
  referees : obj Referee.t;
  meetInfo : value;
  federation : value;
  meetId : value;
  lastUpdate : value
}.

(** The state the server starts in. *)
Definition initial : t := mk [] [] [] [] [] VNull VNull VNull VNull.
End MeetData.

(** One federation of [federations.json], as far as the server reads it:
    the weight-class table, per sex a map from a class identifier to the
    class's upper bound written as a string (["59"], ["120+"]).  The file
    is not among the sources; its shape is the one the README gives. *)
Module FedConfig.
Record t : Type := mk {
  weightClasses : obj (obj string)
}.
End FedConfig.

(** What the HTTP request of one update cycle comes back with. *)
Inductive response : Type :=
| NetworkError
    (* [fetch] rejects *)
| Response (ok : bool) (body : option value).
    (* [response.ok], and the parsed body; [None] when it is not JSON *)

(** A field of an outgoing message, before [JSON.stringify]. *)
Inductive field : Type :=
| FLifters (x : obj Lifter.t)
| FAttempts (x : obj Attempt.t)
| FDivisions (x : obj value)
| FPlatforms (x : obj Platform.t)
| FReferees (x : obj Referee.t)
| FValue (x : value)
| FKeys (x : list string).

(** An outgoing message [{ type, data }]; [data] keeps its keys in order. *)
Module Message.
Record t : Type := mk {
  type : string;
  data : list (string * field)
}.
End Message.

(** How an update cycle ends: it returns, having broadcast [sent] (if
    anything), or it is cut short by an exception, in the state reached. *)
Inductive outcome : Type :=
| Returned (st : MeetData.t) (sent : option Message.t)
| Aborted (st : MeetData.t) (e : exn).

(* ================================================================== *)
(** ** The functions of [server.js] *)
(* ================================================================== *)

(** [arr.sort(cmp)] with a comparison that may throw.  Which pairs an
    engine compares is its own choice; the model makes the comparisons of
    the insertion sort above. *)
Fixpoint insertM {A : Type} (lt : A -> A -> res bool) (x : A) (l : list A)
  : res (list A) :=
  match l with
  | [] => Ok [x]
  | y :: l' =>
      b <- lt y x ;;
      if b then (r <- insertM lt x l' ;; Ok (y :: r)) else Ok (x :: l)
  end.

Fixpoint sortM {A : Type} (lt : A -> A -> res bool) (l : list A)
  : res (list A) :=
  match l with
  | [] => Ok []
  | x :: l' => s <- sortM lt l' ;; insertM lt x s
  end.

(** [rows.find(p)] and [rows.filter(p)] with a predicate that may throw. *)
Fixpoint findM {A : Type} (p : A -> res bool) (l : list A) : res (option A) :=
  match l with
  | [] => Ok None
  | x :: l' => b <- p x ;; if b then Ok (Some x) else findM p l'
  end.

Fixpoint filterM {A : Type} (p : A -> res bool) (l : list A) : res (list A) :=
  match l with
  | [] => Ok []
  | x :: l' =>
      b <- p x ;;
      r <- filterM p l' ;;
      Ok (if b then x :: r else r)
  end.

(** [rows.forEach(...)], [rows.find(...)], [rows.filter(...)]: only an
    array has these methods. *)
Definition items (rows : value) : res (list value) :=
  match rows with
  | VArr l => Ok l
  | _ => Throw TypeError
  end.

(** [arr[i] = x] for [i] within the array. *)
Fixpoint set_nth {A : Type} (i : nat) (x : A) (l : list A) : list A :=
  match l, i with
  | [], _ => []
  | _ :: l', O => x :: l'
  | y :: l', S i' => y :: set_nth i' x l'
  end.

(** [arr.forEach((x, index) => ...)]: the elements with their indices. *)
Definition indexed {A : Type} (l : list A) : list (nat * A) :=
  combine (seq 0 (List.length l)) l.

(** *** fetchData *)

(** The lifter test of [fetchData]'s log line:
    [row.doc?._id?.startsWith("l") && row.doc?.name && row.doc?.gender]. *)
Definition isLifterRow (row : value) : res bool :=
  doc <- prop row "doc" ;;
  b <- opt_startsWith (oprop doc "_id") "l" ;;
  Ok (truthy b && truthy (oprop doc "name") && truthy (oprop doc "gender")).

(** The attempt test of [fetchData]'s log line. *)
Definition isAttemptRow (row : value) : res bool :=
  doc <- prop row "doc" ;;
  b <- opt_startsWith (oprop doc "_id") "a" ;;
  Ok (truthy b && truthy (oprop doc "liftName")
      && truthy (oprop doc "attemptNumber") && truthy (oprop doc "lifterId")).

(** [data.rows?.filter(p).length]. *)
Definition countRows (rows : value) (p : value -> res bool) : res value :=
  if nullish rows then Ok VUndef
  else l <- items rows ;; r <- filterM p l ;; Ok (of_nat (List.length r)).

(** The [try] block of [fetchData], from the parsed body on. *)
Definition inspectData (data : value) : res value :=
  rows <- prop data "rows" ;;
  _ <- countRows rows isLifterRow ;;
  _ <- countRows rows isAttemptRow ;;
  Ok data.

(** [fetchData(meetId)]: the parsed body, or [null] when anything in the
    [try] block threw. *)
Definition fetchData (r : response) : value :=
  match r with
  | NetworkError => VNull
  | Response ok body =>
      if negb ok then VNull
      else match body with
           | None => VNull
           | Some data =>
               match inspectData data with
               | Ok d => d
               | Throw _ => VNull
               end
           end
  end.

(** *** processMeetInfo, processPlatforms, processReferees, processDivisions *)

Definition not_undefined (v : value) : bool :=
  match v with VUndef => false | _ => true end.

(** [{ id: doc._id, ...doc }]. *)
Definition withId (doc : value) : value :=
  match doc with
  | VObj fs =>
      VObj (fold_left (fun o kv => obj_set (fst kv) (snd kv) o) fs
                      [("id", getv doc "_id")])
  | _ => VObj [("id", getv doc "_id")]
  end.

Definition processMeetInfo (rows : list value) : res value :=
  found <- findM (fun row =>
                    doc <- prop row "doc" ;;
                    b <- opt_startsWith (oprop doc "_id") "m" ;;
                    Ok (truthy b)) rows ;;
  let meetInfoDoc :=
    match found with Some row => getv row "doc" | None => VUndef end in
  let meetInfo :=
    if truthy meetInfoDoc then
      [("name", getv meetInfoDoc "name");
       ("date", getv meetInfoDoc "date");
       ("federation", getv meetInfoDoc "federation");
       ("units", js_or (getv meetInfoDoc "units") (VStr "KG"));
       ("plates", getv meetInfoDoc "plates");
       ("dateFormat", getv meetInfoDoc "dateFormat");
       ("type", getv meetInfoDoc "type")]
    else [] in
  extraRows <- filterM (fun row =>
                          doc <- prop row "doc" ;;
                          if truthy doc
                          then b <- opt_startsWith (getv doc "_id") "e" ;;
                               Ok (truthy b)
                          else Ok false) rows ;;
  let extraDocs := map (fun row => withId (getv row "doc")) extraRows in
  Ok (VObj (match extraDocs with
            | [] => meetInfo
            | _ :: _ => obj_set "extraStuff" (VArr extraDocs) meetInfo
            end)).

Definition timerRemaining (doc : value) : num :=
  let clockState := getv doc "clockState" in
  if is_object clockState && truthy (oprop clockState "remaining")
  then num_div (toNumber (getv clockState "remaining")) (Num 1000)
  else if truthy (getv doc "clockTimerLength")
       then num_div (toNumber (getv doc "clockTimerLength")) (Num 1000)
       else Num 60.

Definition processPlatforms (rows : list value) : res (obj Platform.t) :=
  forEach (fun platforms row =>
    doc <- prop row "doc" ;;
    b <- opt_startsWith (oprop doc "_id") "p" ;;
    if truthy b && truthy (getv doc "name")
       && not_undefined (getv doc "clockState")
    then
      let _id := to_string (getv doc "_id") in
      Ok (obj_set _id
            (Platform.mk _id (getv doc "name") (timerRemaining doc)
               (getv doc "clockTimerLength") (getv doc "barAndCollarsWeight")
               (getv doc "currentAttemptId") [])
            platforms)
    else Ok platforms) rows [].

Definition processReferees (rows : list value) : res (obj Referee.t) :=
  forEach (fun referees row =>
    doc <- prop row "doc" ;;
    b <- opt_startsWith (oprop doc "_id") "r" ;;
    if truthy b && truthy (getv doc "platformId")
       && truthy (getv doc "position")
    then
      let _id := to_string (getv doc "_id") in
      Ok (obj_set _id
            (Referee.mk _id (getv doc "platformId") (getv doc "position")
               (getv doc "decision") (getv doc "cards"))
            referees)
    else Ok referees) rows [].

Definition processDivisions (rows : list value) : res (obj value) :=
  forEach (fun divisions row =>
    doc <- prop row "doc" ;;
    b <- opt_startsWith (oprop doc "_id") "d" ;;
    if truthy b && truthy (getv doc "name")
    then Ok (obj_set (to_string (getv doc "_id")) doc divisions)
    else Ok divisions) rows [].

(** *** processRefereeLights *)

Section RefereeLights.

(** The sign of [a.localeCompare(b)], which depends on the runtime's
    locale: [Lt] when negative, [Eq] when zero, [Gt] when positive. *)
Variable localeCompare : string -> string -> comparison.

(** Whether [a.position.localeCompare(b.position)] is negative.  Only a
    string has the method; the argument is converted to a string. *)
Definition positionBefore (a b : Referee.t) : res bool :=
  match Referee.position a with
  | VStr s =>
      Ok (match localeCompare s (to_string (Referee.position b)) with
          | Lt => true
          | _ => false
          end)
  | _ => Throw TypeError
  end.

(** The referees of one platform: [r.platformId === platform.id]. *)
Definition refereesOf (referees : obj Referee.t) (platform : Platform.t)
  : list Referee.t :=
  filter (fun r => is_string (Referee.platformId r) (Platform.id platform))
         (obj_values referees).

(** The lights of one platform: the body of the [forEach]. *)
Definition platformLights (referees : obj Referee.t) (platform : Platform.t)
  : res (list bool) :=
  platformReferees <- sortM positionBefore (refereesOf referees platform) ;;
  Ok (map (fun r => is_string (Referee.decision r) "good") platformReferees).

(** [platform.lights] is assigned platform by platform: an exception
    leaves the platforms before it with their new lights. *)
Fixpoint processRefereeLights (platforms : obj Platform.t)
         (referees : obj Referee.t) : obj Platform.t * res unit :=
  match platforms with
  | [] => ([], Ok tt)
  | (k, platform) :: rest =>
      match platformLights referees platform with
      | Ok lights =>
          let '(rest', r) := processRefereeLights rest referees in
          ((k, Platform.set_lights lights platform) :: rest', r)
      | Throw e => (platforms, Throw e)
      end
  end.

End RefereeLights.

(** *** mapWeightClasses and getWeightClass *)

(** The comparison [(a, b) => a - b] of the threshold sort. *)
Definition ascending (a b : num) : bool := num_lt (num_sub a b) zero.

(** The numeric thresholds of one sex's classes. *)
Definition parseClasses (classes : obj string) : list num :=
  sort ascending
       (filter (fun v => negb (isNaN v))
               (map parseFloat_string
                    (map remove_first_plus (obj_values classes)))).

(** [upper[upper.length - 1]], read where [upper] is not empty. *)
Fixpoint lastThreshold (upper : list num) : num :=
  match upper with
  | [] => NaN
  | [w] => w
  | _ :: rest => lastThreshold rest
  end.

(** The function [mapWeightClasses] returns, over the thresholds it has
    built. *)
Definition getWeightClass (thresholds : obj (list num))
           (sex : value) (bodyweight : num) : res string :=
  if negb (num_truthy bodyweight) || negb (truthy sex) then Ok "0"
  else
    s <- call_toUpperCase sex ;;
    upper <- match obj_get s thresholds with
             | Some u => Ok u
             | None =>
                 match obj_get "MALE" thresholds with
                 | Some u => Ok u
                 | None => Throw TypeError
                 end
             end ;;
    match upper with
    | [] => Ok "0"
    | _ :: _ =>
        match find (fun w => num_le bodyweight w) upper with
        | Some w => Ok (num_to_string w)
        | None => Ok (num_to_string (lastThreshold upper) ++ "+")%string
        end
    end.

Section Federations.

(** Modelled from the spec: [federations.json], which the server loads
    into [federationConfigs], is not among the sources.  It maps a
    federation code to that federation's configuration. *)
Variable federationConfigs : obj FedConfig.t.

(** The thresholds [mapWeightClasses] builds for a federation. *)
Definition buildThresholds (federation : value) : res (obj (list num)) :=
  match
    match obj_get (to_string federation) federationConfigs with
    | Some c => Some c
    | None => obj_get "IPF" federationConfigs
    end
  with
  | None => Throw TypeError
  | Some config =>
      let classConfig := FedConfig.weightClasses config in
      Ok (fold_left
            (fun thresholds sex =>
               let classes :=
                 match obj_get sex classConfig with
                 | Some c => c
                 | None => []
                 end in
               obj_set sex (parseClasses classes) thresholds)
            ["MALE"; "FEMALE"] [])
  end.

Definition mapWeightClasses (federation : value)
  : res (value -> num -> res string) :=
  thresholds <- buildThresholds federation ;;
  Ok (getWeightClass thresholds).

(** *** processLifters *)

(** The lifter object built from a lifter document. *)
Definition lifterOf (getWeightClass : value -> num -> res string)
           (divisions : obj value) (doc : value) : res Lifter.t :=
  let divs := getv doc "divisions" in
  let divisionInfo :=
    if num_gt (toNumber (oprop divs "length")) zero
    then first_item divs else VNull in
  let divisionId := js_or (oprop divisionInfo "divisionId") VNull in
  let divisionName :=
    if truthy divisionId then
      match obj_get (to_string divisionId) divisions with
      | Some d => getv d "name"
      | None => VStr ""
      end
    else VStr "" in
  let sex := getv doc "gender" in
  let bodyweight :=
    if num_gt (toNumber (getv doc "bodyWeight")) zero
    then parseFloat (getv doc "bodyWeight") else zero in
  weightClass <- getWeightClass sex bodyweight ;;
  Ok (Lifter.mk (to_string (getv doc "_id")) (getv doc "name") sex
        weightClass bodyweight divisionName divisionId
        Lift.empty Lift.empty Lift.empty zero None
        (js_or (getv doc "squatRackHeight") (VStr ""))
        (js_or (getv doc "benchRackHeight") (VStr ""))
        (js_or (getv doc "team") (VStr ""))
        (js_or (getv doc "lot") VNull)
        (js_or (getv doc "platformId") VNull)
        (js_or (getv doc "session") VNull)
        (js_or (getv doc "flight") (VStr ""))).

Definition processLifters (rows : list value) (federation : value)
           (divisions : obj value) : res (obj Lifter.t) :=
  getWeightClass <- mapWeightClasses federation ;;
  forEach (fun lifters row =>
    doc <- prop row "doc" ;;
    b <- opt_startsWith (oprop doc "_id") "l" ;;
    if truthy b && truthy (getv doc "name") && truthy (getv doc "birthDate")
       && truthy (getv doc "gender")
    then
      lifter <- lifterOf getWeightClass divisions doc ;;
      Ok (obj_set (Lifter.id lifter) lifter lifters)
    else Ok lifters) rows [].

End Federations.

(** *** processAttempts *)

Definition disciplineOf (liftType : string) : option discipline :=
  if liftType =? "squat" then Some Squat
  else if liftType =? "bench" then Some Bench
  else if liftType =? "deadlift" then Some Deadlift
  else None.

(** The attempt number as a slot index, for a number within 1..3. *)
Definition slotIndex (attemptNum : num) : nat :=
  match attemptNum with
  | Num q => Z.to_nat (Qnum q / Zpos (Qden q))
  | NaN => 0
  end.

(** The value an attempt is encoded as: the declared weight when the
    result is good, [0] while there is no result, the negated magnitude
    otherwise. *)
Definition encodeAttempt (doc : value) : res num :=
  let weight := num_or0 (parseFloat (getv doc "weight")) in
  let result := getv doc "result" in
  lowered <- (if nullish result then Ok VUndef
              else s <- call_toLowerCase result ;; Ok (VStr s)) ;;
  let isSuccess := is_string lowered "good" in
  Ok (if isSuccess then weight
      else if nullish result then zero
      else num_neg (num_abs weight)).

(** The [if (lifter)] block: the lifter after the attempt is written.  A
    lift name that names another property of the lifter object makes the
    write land on that property's value: a TypeError on a string, number or
    boolean (the module is strict code), a stray property on an object,
    which the model does not record.  No discipline slot changes then. *)
Definition linkAttempt (doc : value) (lifter : Lifter.t) : res Lifter.t :=
  let attemptNum := parseInt (getv doc "attemptNumber") in
  s <- call_toLowerCase (getv doc "liftName") ;;
  let liftType := if s =? "dead" then "deadlift" else s in
  let inRange := num_ge attemptNum (Num 1) && num_le attemptNum (Num 3) in
  match disciplineOf liftType with
  | Some d =>
      if inRange then
        w <- encodeAttempt doc ;;
        Ok (Lifter.set_lift d
              (Lift.set_slot (slotIndex attemptNum) w (Lifter.lift d lifter))
              lifter)
      else Ok lifter
  | None =>
      let target := Lifter.other_property liftType lifter in
      if truthy target && inRange then
        _ <- encodeAttempt doc ;;
        match target with
        | VObj _ | VArr _ => Ok lifter
        | _ => Throw TypeError
        end
      else Ok lifter
  end.

(** The body of the [forEach] of [processAttempts]. *)
Definition attemptRow (acc : obj Attempt.t * obj Lifter.t) (row : value)
  : res (obj Attempt.t * obj Lifter.t) :=
  let '(attempts, lifters) := acc in
  doc <- prop row "doc" ;;
  _id <- prop doc "_id" ;;
  b <- (if truthy _id then call_startsWith _id "a" else Ok _id) ;;
  if truthy b && truthy (getv doc "lifterId") && truthy (getv doc "liftName")
     && truthy (getv doc "attemptNumber")
  then
    let attempts' :=
      obj_set (to_string _id)
        (Attempt.mk _id (getv doc "lifterId") (getv doc "liftName")
           (getv doc "attemptNumber") (getv doc "weight") (getv doc "result")
           (getv doc "decisions") (getv doc "createDate"))
        attempts in
    let lifterKey := to_string (getv doc "lifterId") in
    match obj_get lifterKey lifters with
    | Some lifter =>
        lifter' <- linkAttempt doc lifter ;;
        Ok (attempts', obj_set lifterKey lifter' lifters)
    | None => Ok (attempts', lifters)
    end
  else Ok acc.

(** [processAttempts(rows, lifters)]: the lifters as the writes into their
    slots leave them, and the attempts it returns.  The lifter objects are
    written to in place: when a row throws, the writes of the rows before
    it remain. *)
Fixpoint linkRows (rows : list value) (attempts : obj Attempt.t)
         (lifters : obj Lifter.t) : obj Lifter.t * res (obj Attempt.t) :=
  match rows with
  | [] => (lifters, Ok attempts)
  | row :: rows' =>
      match attemptRow (attempts, lifters) row with
      | Ok (attempts', lifters') => linkRows rows' attempts' lifters'
      | Throw e => (lifters, Throw e)
      end
  end.

Definition processAttempts (rows : list value) (lifters : obj Lifter.t)
  : obj Lifter.t * res (obj Attempt.t) :=
  linkRows rows [] lifters.

(** *** calculateBestLifts *)

(** [Math.max(a, b)]. *)
Definition num_max (a b : num) : num :=
  match a, b with
  | Num x, Num y => if Qltb x y then b else a
  | _, _ => NaN
  end.

(** The best lift of one discipline: the largest of the slots that are
    positive, [0] when none is. *)
Definition bestLift (l : Lift.t) : num :=
  match filter (fun w => num_gt w zero) (Lift.slots l) with
  | [] => zero
  | w :: ws => fold_left num_max ws w
  end.

(** The body of the outer [forEach]: the three bests, then the total. *)
Definition scoreLifter (lifter : Lifter.t) : Lifter.t :=
  let lifter :=
    fold_left
      (fun l d =>
         Lifter.set_lift d
           (Lift.set_best (bestLift (Lifter.lift d l)) (Lifter.lift d l)) l)
      [Squat; Bench; Deadlift] lifter in
  Lifter.set_total
    (num_add (num_add (num_or0 (Lift.best (Lifter.squat lifter)))
                      (num_or0 (Lift.best (Lifter.bench lifter))))
             (num_or0 (Lift.best (Lifter.deadlift lifter))))
    lifter.

Definition calculateBestLifts (lifters : obj Lifter.t) : obj Lifter.t :=
  map (fun kl => (fst kl, scoreLifter (snd kl))) lifters.

(** *** calculatePlacings

    The lifter objects are shared between [lifters], [lifterArray] and the
    groups, and [place] is assigned through the groups.  The model keeps
    the objects in [lifterArray] and refers to one by its index there; a
    group holds each index with the object as it was when grouped, which
    differs from the live object in [place] at most. *)

Definition lifterRef : Type := (nat * Lifter.t)%type.

Definition groupKey (lifter : Lifter.t) : string :=
  to_string (Lifter.divisionId lifter) ++ "_"
  ++ to_string (Lifter.sex lifter) ++ "_"
  ++ Lifter.weightClass lifter.

(** The body of the grouping [forEach]. *)
Definition addToGroup (groups : obj (list lifterRef)) (r : lifterRef)
  : obj (list lifterRef) :=
  let key := groupKey (snd r) in
  let group := match obj_get key groups with Some g => g | None => [] end in
  obj_set key (group ++ [r])%list groups.

(** The comparison function of the group sort. *)
Definition compareLifters (a b : Lifter.t) : num :=
  if negb (num_eq (Lifter.total b) (Lifter.total a))
  then num_sub (Lifter.total b) (Lifter.total a)
  else num_sub (Lifter.bodyweight a) (Lifter.bodyweight b).

Definition rankedBefore (a b : lifterRef) : bool :=
  num_lt (compareLifters (snd a) (snd b)) zero.

(** [lifter.place = lifter.total > 0 ? index + 1 : null]. *)
Definition assignPlace (heap : list Lifter.t) (entry : nat * lifterRef)
  : list Lifter.t :=
  let '(index, (i, lifter)) := entry in
  set_nth i
    (Lifter.set_place
       (if num_gt (Lifter.total lifter) zero then Some (index + 1)%nat
        else None)
       lifter)
    heap.

(** The body of the [forEach] over the groups: sort, then assign. *)
Definition placeGroup (heap : list Lifter.t) (group : list lifterRef)
  : list Lifter.t :=
  let sortedGroup := sort rankedBefore group in
  fold_left assignPlace (indexed sortedGroup) heap.

Definition calculatePlacings (lifters : obj Lifter.t) : obj Lifter.t :=
  let lifterArray := obj_values lifters in
  let groups := fold_left addToGroup (indexed lifterArray) [] in
  combine (obj_keys lifters)
          (fold_left placeGroup (obj_values groups) lifterArray).

(** One scoring pass. *)
Definition score (lifters : obj Lifter.t) : obj Lifter.t :=
  calculatePlacings (calculateBestLifts lifters).

(** *** broadcastUpdate and the [open] handler *)

(** The message [broadcastUpdate] sends to every connected client. *)
Definition updateMessage (meetData : MeetData.t) : Message.t :=
  Message.mk "update"
    [("lifters", FLifters (MeetData.lifters meetData));
     ("attempts", FAttempts (MeetData.attempts meetData));
     ("divisions", FDivisions (MeetData.divisions meetData));
     ("platforms", FPlatforms (MeetData.platforms meetData));
     ("referees", FReferees (MeetData.referees meetData));
     ("meetInfo", FValue (MeetData.meetInfo meetData));
     ("federation", FValue (MeetData.federation meetData));
     ("lastUpdate", FValue (MeetData.lastUpdate meetData))].

Section Server.

Variable federationConfigs : obj FedConfig.t.
Variable localeCompare : string -> string -> comparison.

(** The message the [open] handler sends to the client that joined. *)
Definition initialMessage (meetData : MeetData.t) : Message.t :=
  Message.mk "initial"
    [("lifters", FLifters (MeetData.lifters meetData));
     ("lastUpdate", FValue (MeetData.lastUpdate meetData));
     ("federation", FValue (MeetData.federation meetData));
     ("federations", FKeys (obj_keys federationConfigs))].

(** *** updateMeetData

    [meetData] is assigned field by field, so an exception leaves the
    fields assigned before it in place. *)

Definition orAbort {A : Type} (st : MeetData.t) (m : res A)
           (k : A -> outcome) : outcome :=
  match m with
  | Ok a => k a
  | Throw e => Aborted st e
  end.

Definition setDivisions (x : obj value) (st : MeetData.t) : MeetData.t :=
  MeetData.mk (MeetData.lifters st) (MeetData.attempts st) x
    (MeetData.platforms st) (MeetData.referees st) (MeetData.meetInfo st)
    (MeetData.federation st) (MeetData.meetId st) (MeetData.lastUpdate st).

Definition setMeetInfo (x : value) (st : MeetData.t) : MeetData.t :=
  MeetData.mk (MeetData.lifters st) (MeetData.attempts st)
    (MeetData.divisions st) (MeetData.platforms st) (MeetData.referees st)
    x (MeetData.federation st) (MeetData.meetId st) (MeetData.lastUpdate st).

Definition setPlatforms (x : obj Platform.t) (st : MeetData.t)
  : MeetData.t :=
  MeetData.mk (MeetData.lifters st) (MeetData.attempts st)
    (MeetData.divisions st) x (MeetData.referees st) (MeetData.meetInfo st)
    (MeetData.federation st) (MeetData.meetId st) (MeetData.lastUpdate st).

Definition setReferees (x : obj Referee.t) (st : MeetData.t) : MeetData.t :=
  MeetData.mk (MeetData.lifters st) (MeetData.attempts st)
    (MeetData.divisions st) (MeetData.platforms st) x (MeetData.meetInfo st)
    (MeetData.federation st) (MeetData.meetId st) (MeetData.lastUpdate st).

Definition setLifters (x : obj Lifter.t) (st : MeetData.t) : MeetData.t :=
  MeetData.mk x (MeetData.attempts st)
    (MeetData.divisions st) (MeetData.platforms st) (MeetData.referees st)
    (MeetData.meetInfo st) (MeetData.federation st) (MeetData.meetId st)
    (MeetData.lastUpdate st).

Definition setAttempts (x : obj Attempt.t) (st : MeetData.t) : MeetData.t :=
  MeetData.mk (MeetData.lifters st) x
    (MeetData.divisions st) (MeetData.platforms st) (MeetData.referees st)
    (MeetData.meetInfo st) (MeetData.federation st) (MeetData.meetId st)
    (MeetData.lastUpdate st).

Definition setLastUpdate (x : value) (st : MeetData.t) : MeetData.t :=
  MeetData.mk (MeetData.lifters st) (MeetData.attempts st)
    (MeetData.divisions st) (MeetData.platforms st) (MeetData.referees st)
    (MeetData.meetInfo st) (MeetData.federation st) (MeetData.meetId st) x.

(** The cycle from the rows on. *)
Definition processRows (st : MeetData.t) (rows : value) (now : string)
  : outcome :=
  orAbort st (items rows) (fun rows =>
  orAbort st (processDivisions rows) (fun divisions =>
  let st := setDivisions divisions st in
  orAbort st (processMeetInfo rows) (fun meetInfo =>
  let st := setMeetInfo meetInfo st in
  orAbort st (processPlatforms rows) (fun platforms =>
  let st := setPlatforms platforms st in
  orAbort st (processReferees rows) (fun referees =>
  let st := setReferees referees st in
  orAbort st (processLifters federationConfigs rows
                (MeetData.federation st) (MeetData.divisions st))
    (fun lifters =>
  let st := setLifters lifters st in
  let linked := processAttempts rows (MeetData.lifters st) in
  let st := setLifters (fst linked) st in
  orAbort st (snd linked) (fun attempts =>
  let st := setAttempts attempts st in
  let st := setLifters (calculateBestLifts (MeetData.lifters st)) st in
  let st := setLifters (calculatePlacings (MeetData.lifters st)) st in
  let lit := processRefereeLights localeCompare (MeetData.platforms st)
               (MeetData.referees st) in
  let st := setPlatforms (fst lit) st in
  orAbort st (snd lit) (fun _ =>
  let st := setLastUpdate (VStr now) st in
  Returned st (Some (updateMessage st)))))))))).

(** [updateMeetData()], given what the request comes back with and the
    time at which the cycle completes.  The function waits for the request
    and reads [meetData] again afterwards; the model runs a cycle with no
    other handler in between, from the state [st]. *)
Definition updateMeetData (st : MeetData.t) (r : response) (now : string)
  : outcome :=
  if negb (truthy (MeetData.meetId st)) then Returned st None
  else
    let data := fetchData r in
    if negb (truthy data) || negb (truthy (getv data "rows"))
    then Returned st None
    else processRows st (getv data "rows") now.

End Server.

(** *** The WebSocket handlers, the broadcast and the timer *)

(** The server: [meetData] and [connectedClients].  A client connection
    is known by a number. *)
Module Server.
Record t : Type := mk {
  meetData : MeetData.t;
  connectedClients : list nat
}.
End Server.

Definition setIdentity (meetId federation : value) (st : MeetData.t)
  : MeetData.t :=
  MeetData.mk (MeetData.lifters st) (MeetData.attempts st)
    (MeetData.divisions st) (MeetData.platforms st) (MeetData.referees st)
    (MeetData.meetInfo st) federation meetId (MeetData.lastUpdate st).

Section Handlers.

Variable federationConfigs : obj FedConfig.t.
Variable localeCompare : string -> string -> comparison.

(** Whether [ws.send] goes through for a client; it throws otherwise. *)
Variable canSend : nat -> bool.

(** [connectedClients.forEach(ws => { try { ws.send(message) } catch ... })]:
    the messages that were sent, in order. *)
Definition sendAll (message : Message.t) (clients : list nat)
  : list (nat * Message.t) :=
  fold_left (fun sent ws => if canSend ws then sent ++ [(ws, message)]
                            else sent)
            clients [].

(** [broadcastUpdate()]. *)
Definition broadcastUpdate (srv : Server.t) : list (nat * Message.t) :=
  sendAll (updateMessage (Server.meetData srv)) (Server.connectedClients srv).

(** The [open] handler: the client is registered, then sent the initial
    message. *)
Definition wsOpen (srv : Server.t) (ws : nat)
  : Server.t * list (nat * Message.t) :=
  (Server.mk (Server.meetData srv) (Server.connectedClients srv ++ [ws]),
   if canSend ws
   then [(ws, initialMessage federationConfigs (Server.meetData srv))]
   else []).

(** The [close] handler. *)
Definition wsClose (srv : Server.t) (ws : nat) : Server.t :=
  Server.mk (Server.meetData srv)
            (filter (fun client => negb (client =? ws)%nat)
                    (Server.connectedClients srv)).

(** The [message] handler, given what [JSON.parse] makes of the message
    ([None] when it throws): the server after it, and whether it has called
    [updateMeetData()].  Every exception is caught. *)
Definition wsMessage (srv : Server.t) (parsed : option value)
  : Server.t * bool :=
  match parsed with
  | None => (srv, false)
  | Some msg =>
      match prop msg "type" with
      | Throw _ => (srv, false)
      | Ok type =>
          if is_string type "configure" then
            (Server.mk
               (setIdentity (getv msg "meetId")
                            (js_or (getv msg "federation") (VStr "IPF"))
                            (Server.meetData srv))
               (Server.connectedClients srv),
             true)
          else (srv, false)
      end
  end.

(** A call of [updateMeetData()] on the server: the server after it, what
    was sent, and the exception that cut it short, if any. *)
Definition runUpdate (srv : Server.t) (r : response) (now : string)
  : Server.t * list (nat * Message.t) * option exn :=
  match updateMeetData federationConfigs localeCompare
                       (Server.meetData srv) r now with
  | Returned st (Some _) =>
      let srv' := Server.mk st (Server.connectedClients srv) in
      (srv', broadcastUpdate srv', None)
  | Returned st None =>
      (Server.mk st (Server.connectedClients srv), [], None)
  | Aborted st e =>
      (Server.mk st (Server.connectedClients srv), [], Some e)
  end.


End Handlers.

(** *** The client's reading of a slot ([public/app.js]) *)

(** [getAttemptClass(weight)]. *)
Definition getAttemptClass (weight : num) : string :=
  if num_eq weight zero then "attempt-pending"
  else if num_gt weight zero then "attempt-good"
  else "attempt-bad".

(* ================================================================== *)
(** ** The properties, in the specification's words *)
(* ================================================================== *)

(** [b] is the maximum of the values of [ws] that are strictly positive,
    and [0] when none is. *)
Definition maxPositive (ws : list num) (b : num) : Prop :=
  (Forall (fun w => num_gt w zero = false) ws /\ b = zero)
  \/ (In b ws /\ num_gt b zero = true
      /\ Forall (fun w => num_gt w zero = true -> num_le w b = true) ws).


(** The placed lifter: [lifter.place = lifter.total > 0 ? index + 1 : null]. *)
Definition placed (index : nat) (lifter : Lifter.t) : Lifter.t :=
  Lifter.set_place
    (if num_gt (Lifter.total lifter) zero then Some (index + 1)%nat else None)
    lifter.

(** The groups [calculatePlacings] builds over [lifterArray]. *)
Definition groupsOf (lifterArray : list Lifter.t) : obj (list lifterRef) :=
  fold_left addToGroup (indexed lifterArray) [].

(** Every assignment of a place that the loop over the groups makes, in
    order: the index within the sorted group and the lifter it goes to. *)
Definition placements (groups : list (list lifterRef))
  : list (nat * lifterRef) :=
  flat_map (fun g => indexed (sort rankedBefore g)) groups.

(** The objects the assignments write to. *)
Definition touched (acts : list (nat * lifterRef)) : list nat :=
  map (fun e => fst (snd e)) acts.

(** What grouping maintains: distinct keys, every group under the key of
    its members, and each lifter reference in exactly one group. *)
Definition grouped (groups : obj (list lifterRef)) (refs : list lifterRef)
  : Prop :=
  NoDup (obj_keys groups)
  /\ (forall k g, In (k, g) groups ->
                 Forall (fun r => groupKey (snd r) = k) g)
  /\ Permutation (List.concat (obj_values groups)) refs.

(** A lifter with its place cleared. *)
Definition unplaced (l : Lifter.t) : Lifter.t := Lifter.set_place None l.

(** A lifter as [processLifters] creates it, for the examples: an
    identifier, a bodyweight and the slots of the three disciplines. *)
Definition lifterWith (id : string) (bodyweight : Q) (squat bench deadlift : Lift.t)
  : Lifter.t :=
  Lifter.mk id (VStr id) (VStr "MALE") "83" (Num bodyweight) (VStr "") VNull
    squat bench deadlift zero None
    (VStr "") (VStr "") (VStr "") VNull VNull VNull (VStr "").

Definition slotsOf (a b c : Q) : Lift.t :=
  Lift.mk (Num a) (Num b) (Num c) zero.

(** The specification's example: squat 100, -105, 105; bench pending;
    deadlift 150. *)
Definition exampleLifter : Lifter.t :=
  lifterWith "l1" 80 (slotsOf 100 (-105) 105) (slotsOf 0 0 0)
             (slotsOf 150 0 0).

(** Orders and invariants used to describe the group sort. *)
Definition hasTotal (r : lifterRef) : Prop :=
  exists t, Lifter.total (snd r) = Num t.

Definition hasWeights (r : lifterRef) : Prop :=
  (exists t, Lifter.total (snd r) = Num t)
  /\ (exists w, Lifter.bodyweight (snd r) = Num w).

Definition totalNotBelow (a b : lifterRef) : Prop :=
  num_ge (Lifter.total (snd a)) (Lifter.total (snd b)) = true.

Definition notAfter (a b : lifterRef) : Prop := rankedBefore b a = false.

Definition unplacedRef (r : lifterRef) : lifterRef :=
  (fst r, unplaced (snd r)).

Definition unplacedAll (lifters : obj Lifter.t) : obj Lifter.t :=
  map (fun kl => (fst kl, unplaced (snd kl))) lifters.

Definition unplacedGroups (groups : obj (list lifterRef))
  : obj (list lifterRef) :=
  map (fun kg => (fst kg, map unplacedRef (snd kg))) groups.

(** The three lifters of one group used as an example below. *)
Definition exampleGroup : obj Lifter.t :=
  [("l1", lifterWith "l1" 80 (slotsOf 100 (-105) 105) (slotsOf 0 0 0)
                     (slotsOf 150 0 0));
   ("l2", lifterWith "l2" 75 (slotsOf 105 0 0) (slotsOf 0 0 0)
                     (slotsOf 150 0 0));
   ("l3", lifterWith "l3" 90 (slotsOf 120 0 0) (slotsOf 60 0 0)
                     (slotsOf 120 0 0))].

(** The weight an attempt declares, as [processAttempts] reads it:
    [parseFloat(doc.weight) || 0]. *)
Definition declaredWeight (doc : value) : num :=
  num_or0 (parseFloat (getv doc "weight")).

(** [row] carries the attempt document [doc], which is linked to [lifter]
    of [lifters], in discipline [d] and with attempt number [n] in 1..3. *)
Definition linkedAttempt (lifters : obj Lifter.t) (row doc : value)
           (lifter : Lifter.t) (d : discipline) (n : nat) : Prop :=
  prop row "doc" = Ok doc
  /\ (exists id, getv doc "_id" = VStr id /\ startsWith id "a" = true)
  /\ truthy (getv doc "lifterId") = true
  /\ obj_get (to_string (getv doc "lifterId")) lifters = Some lifter
  /\ (exists liftName,
        getv doc "liftName" = VStr liftName
        /\ disciplineOf (if toLowerCase liftName =? "dead" then "deadlift"
                         else toLowerCase liftName) = Some d)
  /\ truthy (getv doc "attemptNumber") = true
  /\ parseInt (getv doc "attemptNumber") = Num (inject_Z (Z.of_nat n))
  /\ (1 <= n <= 3)%nat.

(** The value in slot [n] of discipline [d] of the lifter that [doc] names,
    once [row] has been processed; [None] if the row throws. *)
Definition writtenSlot (attempts : obj Attempt.t) (lifters : obj Lifter.t)
           (row doc : value) (d : discipline) (n : nat) : option num :=
  match attemptRow (attempts, lifters) row with
  | Ok (_, lifters') =>
      option_map (fun l => Lift.slot n (Lifter.lift d l))
                 (obj_get (to_string (getv doc "lifterId")) lifters')
  | Throw _ => None
  end.

(** A row of the feed carrying an attempt document, for the examples. *)
Definition attemptDoc (id lifterId liftName attemptNumber : string)
           (weight : Q) (result : value) : value :=
  VObj [("_id", VStr id); ("lifterId", VStr lifterId);
        ("liftName", VStr liftName); ("attemptNumber", VStr attemptNumber);
        ("weight", VNum weight); ("result", result)].

Definition rowOf (doc : value) : value := VObj [("id", getv doc "_id"); ("doc", doc)].

(** The boundaries configured for the male and the female classes. *)
Definition maleTable (thresholds : obj (list num)) : list num :=
  match obj_get "MALE" thresholds with Some u => u | None => [] end.

Definition femaleTable (thresholds : obj (list num)) : list num :=
  match obj_get "FEMALE" thresholds with Some u => u | None => [] end.

(** The boundaries a sex is resolved against: its own table for the two
    configured sexes, the male table for any other. *)
Definition tableOf (thresholds : obj (list num)) (sex : string) : list num :=
  if toUpperCase sex =? "FEMALE" then femaleTable thresholds
  else maleTable thresholds.

(** A federation table with male classes only. *)
Definition maleOnly : obj FedConfig.t :=
  [("IPF", FedConfig.mk [("MALE", [("w-0", "59"); ("w-1", "66");
                                   ("w-2", "74"); ("w-3", "74+")])])].

(** A federation table with classes for both sexes. *)
Definition bothSexes : obj FedConfig.t :=
  [("IPF", FedConfig.mk [("FEMALE", [("w-0", "47"); ("w-1", "52");
                                     ("w-2", "84"); ("w-3", "84+")]);
                         ("MALE", [("w-0", "59"); ("w-1", "66");
                                   ("w-2", "120"); ("w-3", "120+")])])].

(** The seating-position label of a referee. *)
Definition positionLabel (r : Referee.t) : string :=
  to_string (Referee.position r).

(** The referee in entry [i] of the referee table is seated at
    [platform]: its platform reference is the platform's identifier. *)
Definition seatedAt (referees : obj Referee.t) (platform : Platform.t)
           (i : nat) (r : Referee.t) : Prop :=
  (exists k, nth_error referees i = Some (k, r))
  /\ Referee.platformId r = VStr (Platform.id platform).

(** [lights] is the light vector of [platform].  [seats] lists the
    entries of the referee table that are seated at the platform, every
    one of them and each once, in the order of their position labels; the
    vector has one light for each, [true] exactly when the decision of that
    referee is ["good"]. *)
Definition lightsOf (localeCompare : string -> string -> comparison)
           (referees : obj Referee.t) (platform : Platform.t)
           (lights : list bool) : Prop :=
  exists seats : list (nat * Referee.t),
    NoDup (map fst seats)
    /\ (forall i r, In (i, r) seats <-> seatedAt referees platform i r)
    /\ StronglySorted
         (fun a b => localeCompare (positionLabel (snd a))
                                   (positionLabel (snd b)) <> Gt)
         seats
    /\ Forall2 (fun seat light =>
                  light = true <-> Referee.decision (snd seat) = VStr "good")
               seats lights
    /\ List.length lights = List.length seats.

(** The specification's example: two referees of one platform, seated at
    ["R"] and ["L"], and a third referee of another platform. *)
Definition examplePlatforms : obj Platform.t :=
  [("p1", Platform.mk "p1" (VStr "Platform 1") (Num 60) VUndef VUndef VUndef [])].

Definition exampleReferees : obj Referee.t :=
  [("r1", Referee.mk "r1" (VStr "p1") (VStr "R") (VStr "bad") VUndef);
   ("r2", Referee.mk "r2" (VStr "p2") (VStr "H") VNull VUndef);
   ("r3", Referee.mk "r3" (VStr "p1") (VStr "L") (VStr "good") VUndef)].

(** The ways the fetch of a cycle fails: the request fails, the status is
    not a success, the body is not JSON, or the payload has no rows. *)
Definition fetchFailed (r : response) : Prop :=
  r = NetworkError
  \/ (exists body, r = Response false body)
  \/ r = Response true None
  \/ (exists data, r = Response true (Some data)
                   /\ truthy (oprop data "rows") = false).

(** A small feed: a division, a lifter with two attempts, a platform and
    its two referees. *)
Definition lifterDoc (id name gender : string) (bodyWeight : Q) : value :=
  VObj [("_id", VStr id); ("name", VStr name); ("birthDate", VStr "1990-01-01");
        ("gender", VStr gender); ("bodyWeight", VNum bodyWeight);
        ("divisions", VArr [VObj [("divisionId", VStr "d1")]])].

Definition exampleRows : list value :=
  [rowOf (VObj [("_id", VStr "d1"); ("name", VStr "Open")]);
   rowOf (lifterDoc "l1" "Ann" "FEMALE" 50);
   rowOf (attemptDoc "a1" "l1" "squat" "1" 100 (VStr "good"));
   rowOf (attemptDoc "a2" "l1" "squat" "2" 105 VNull);
   rowOf (VObj [("_id", VStr "p1"); ("name", VStr "Platform 1");
                ("clockState", VNull)]);
   rowOf (VObj [("_id", VStr "r1"); ("platformId", VStr "p1");
                ("position", VStr "R"); ("decision", VStr "bad")]);
   rowOf (VObj [("_id", VStr "r3"); ("platformId", VStr "p1");
                ("position", VStr "L"); ("decision", VStr "good")])].

Definition payloadOf (rows : list value) : response :=
  Response true (Some (VObj [("total_rows", of_nat (List.length rows));
                             ("rows", VArr rows)])).

(** The state once a viewer has configured a meet. *)
Definition configuredState : MeetData.t :=
  MeetData.mk [] [] [] [] [] VNull (VStr "IPF") (VStr "m1a2j7aepd02") VNull.

Definition stateAfter (o : outcome) : MeetData.t :=
  match o with Returned st _ => st | Aborted st _ => st end.

(** The state after one successful cycle over the small feed. *)
Definition exampleState : MeetData.t :=
  stateAfter (updateMeetData bothSexes String.compare configuredState
                (payloadOf exampleRows) "2025-10-05T12:00:00.000Z").

(** A row whose document is absent. *)
Definition emptyRow : value := VObj [("id", VStr "l9"); ("doc", VNull)].

(** Ascending thresholds that are numbers. *)
Definition numLe (a b : num) : Prop := num_le a b = true.
Definition isNumber (a : num) : Prop := isNaN a = false.

(** A referee whose position is a string, and the comparison of the
    light sort on such referees. *)
Definition hasLabel (r : Referee.t) : Prop :=
  exists s, Referee.position r = VStr s.

Definition labelBefore (localeCompare : string -> string -> comparison)
           (a b : Referee.t) : bool :=
  match localeCompare (positionLabel a) (positionLabel b) with
  | Lt => true
  | _ => false
  end.

(** A row that [fetchData] lets through: not [null], and with a document
    identifier, if any, that is a string. *)
Definition wellFormedRow (row : value) : Prop :=
  nullish row = false
  /\ (nullish (oprop (getv row "doc") "_id") = true
      \/ exists s, oprop (getv row "doc") "_id" = VStr s).

(** A lifter as [processLifters] leaves it under the key [k]: made from a
    lifter document of [rows] with that identifier, with empty slots, no
    total and no place. *)
Definition freshLifter (rows : list value) (k : string) (l : Lifter.t)
  : Prop :=
  k = Lifter.id l
  /\ startsWith k "l" = true
  /\ Lifter.squat l = Lift.empty
  /\ Lifter.bench l = Lift.empty
  /\ Lifter.deadlift l = Lift.empty
  /\ Lifter.total l = zero
  /\ Lifter.place l = None
  /\ exists row doc,
       In row rows /\ prop row "doc" = Ok doc
       /\ getv doc "_id" = VStr k
       /\ Lifter.name l = getv doc "name"
       /\ Lifter.sex l = getv doc "gender".

(** The document of a lifter row, as the test of [processLifters] accepts
    it. *)
Definition lifterDocument (doc : value) : Prop :=
  (exists id, getv doc "_id" = VStr id /\ startsWith id "l" = true)
  /\ truthy (getv doc "name") = true
  /\ truthy (getv doc "birthDate") = true
  /\ truthy (getv doc "gender") = true.


(** A lifter document with a gender that is a number. *)
Definition numericGenderDoc (bodyWeight : value) : value :=
  VObj [("_id", VStr "l7"); ("name", VStr "Cy"); ("birthDate", VStr "1990-01-01");
        ("gender", VNum 1); ("bodyWeight", bodyWeight)].




(** The lift type [processAttempts] derives from a lift name. *)
Definition liftTypeOf (liftName : string) : string :=
  if toLowerCase liftName =? "dead" then "deadlift" else toLowerCase liftName.

(** A row whose document has the types the feed gives it: an identifier
    that is a string, a lift name that names a discipline, a result that
    is a string or absent. *)
Definition typedAttemptRow (row : value) : Prop :=
  exists doc,
    prop row "doc" = Ok doc /\ nullish doc = false
    /\ (truthy (getv doc "_id") = false \/ exists s, getv doc "_id" = VStr s)
    /\ (truthy (getv doc "liftName") = false
        \/ exists liftName d,
             getv doc "liftName" = VStr liftName
             /\ disciplineOf (liftTypeOf liftName) = Some d)
    /\ (nullish (getv doc "result") = true
        \/ exists r, getv doc "result" = VStr r).



(** The result of a document is a string that reads ["good"] in some
    letter case. *)
Definition goodResult (doc : value) : Prop :=
  exists r, getv doc "result" = VStr r /\ toLowerCase r = "good".

(** The class the client shows an attempt in, from the document to the
    table cell; [None] if the encoding throws. *)
Definition shownClass (doc : value) : option string :=
  match encodeAttempt doc with
  | Ok w => Some (getAttemptClass w)
  | Throw _ => None
  end.

(** The value of a slot after [processAttempts] over [rows]. *)
Definition slotAfter (rows : list value) (lifters : obj Lifter.t)
           (key : string) (d : discipline) (n : nat) : option num :=
  option_map (fun l => Lift.slot n (Lifter.lift d l))
             (obj_get key (fst (processAttempts rows lifters))).

(** A lifter with the bests and the total cleared: what
    [calculateBestLifts] does not write. *)
Definition withoutBests (l : Lifter.t) : Lifter.t :=
  Lifter.set_total zero
    (fold_left
       (fun l d => Lifter.set_lift d (Lift.set_best zero (Lifter.lift d l)) l)
       [Squat; Bench; Deadlift] l).

Definition withoutBestsAll (lifters : obj Lifter.t) : obj Lifter.t :=
  map (fun kl => (fst kl, withoutBests (snd kl))) lifters.

(** The order of a sorted group when the comparison is an order: no lifter
    after one the comparison ranks it before, and lifters the comparison
    does not tell apart in the order of the feed. *)
Definition feedOrder (a b : lifterRef) : Prop :=
  rankedBefore b a = false
  /\ (rankedBefore a b = false -> (fst a < fst b)%nat).

Definition earlier (a b : lifterRef) : Prop := (fst a < fst b)%nat.

(** The lights of referees in the order they are seated:
    [r.decision === "good"] for each. *)
Definition seatedLights (seated : list Referee.t) : list bool :=
  map (fun r => is_string (Referee.decision r) "good") seated.



(** A feed with one platform and two referees seated at it, whose
    positions are given as the numbers 1 and 2. *)
Definition numberedRows : list value :=
  [rowOf (VObj [("_id", VStr "p1"); ("name", VStr "Platform 1");
                ("clockState", VNull)]);
   rowOf (VObj [("_id", VStr "r1"); ("platformId", VStr "p1");
                ("position", VNum 1); ("decision", VStr "good")]);
   rowOf (VObj [("_id", VStr "r2"); ("platformId", VStr "p1");
                ("position", VNum 2); ("decision", VStr "bad")])].

(** The comparison of the light sort on seats. *)
Definition seatBefore (localeCompare : string -> string -> comparison)
           (a b : nat * Referee.t) : bool :=
  labelBefore localeCompare (snd a) (snd b).


(* ================================================================== *)
(** ** Numbers *)
(* ================================================================== *)

Lemma Qltb_lt (x y : Q) : Qltb x y = true <-> (x < y)%Q.
Proof.
  unfold Qltb. rewrite Qlt_alt.
  destruct (x ?= y)%Q; split; congruence.
Qed.

Lemma Qltb_ge (x y : Q) : Qltb x y = false <-> (y <= x)%Q.
Proof.
  split; intro H.
  - destruct (Qlt_le_dec x y) as [Hlt | Hle]; [|exact Hle].
    apply Qltb_lt in Hlt. congruence.
  - destruct (Qltb x y) eqn:E; [|reflexivity].
    apply Qltb_lt in E. lra.
Qed.

Lemma num_gt_zero (w : num) :
  num_gt w zero = true <-> exists q, w = Num q /\ (0 < q)%Q.
Proof.
  unfold num_gt, num_lt, zero. split.
  - destruct w as [|q]; [discriminate|]. intro H. apply Qltb_lt in H. eauto.
  - intros [q [-> H]]. now apply Qltb_lt.
Qed.

(** A positive number is truthy: [w || 0] is [w]. *)
Lemma num_or0_positive (w : num) : num_gt w zero = true -> num_or0 w = w.
Proof.
  intro H. apply num_gt_zero in H. destruct H as [q [-> Hq]].
  unfold num_or0, num_truthy.
  destruct (Qeq_bool q 0) eqn:E; [|reflexivity].
  apply Qeq_bool_eq in E. lra.
Qed.

Lemma num_le_refl_pos (w : num) : num_gt w zero = true -> num_le w w = true.
Proof.
  intro H. apply num_gt_zero in H. destruct H as [q [-> _]].
  apply Qle_bool_iff. lra.
Qed.

(* ================================================================== *)
(** ** Best lifts and totals *)
(* ================================================================== *)

(** [Math.max] over positive numbers returns one of them, the largest. *)
Lemma fold_max_positive (ws : list num) : forall w,
  num_gt w zero = true ->
  Forall (fun x => num_gt x zero = true) ws ->
  In (fold_left num_max ws w) (w :: ws)
  /\ Forall (fun x => num_le x (fold_left num_max ws w) = true) (w :: ws).
Proof.
  induction ws as [|a ws IH]; intros w Hw Hws.
  - simpl. split; [now left|]. constructor; [now apply num_le_refl_pos|constructor].
  - inversion Hws as [|? ? Ha Hws']; subst.
    pose proof Hw as Hw'. pose proof Ha as Ha'.
    apply num_gt_zero in Hw'. destruct Hw' as [x [-> Hx]].
    apply num_gt_zero in Ha'. destruct Ha' as [y [-> Hy]].
    cbn [fold_left num_max].
    destruct (Qltb x y) eqn:E.
    + destruct (IH (Num y) Ha Hws') as [Hin Hall].
      split.
      * right. exact Hin.
      * inversion Hall as [|? ? Hy_le Hrest]; subst.
        constructor; [|constructor; assumption].
        apply Qltb_lt in E.
        destruct (fold_left num_max ws (Num y)) as [|m]; [discriminate|].
        cbn in *. apply Qle_bool_iff in Hy_le. apply Qle_bool_iff. lra.
    + destruct (IH (Num x) Hw Hws') as [Hin Hall].
      split.
      * destruct Hin as [Hin | Hin]; [now left | right; now right].
      * inversion Hall as [|? ? Hx_le Hrest]; subst.
        constructor; [assumption|]. constructor; [|assumption].
        apply Qltb_ge in E.
        destruct (fold_left num_max ws (Num x)) as [|m]; [discriminate|].
        cbn in *. apply Qle_bool_iff in Hx_le. apply Qle_bool_iff. lra.
Qed.

(** What [bestLift] computes, for any list of slots. *)
Lemma best_of_slots (ws : list num) :
  maxPositive ws
    (match filter (fun w => num_gt w zero) ws with
     | [] => zero
     | w :: r => fold_left num_max r w
     end).
Proof.
  destruct (filter (fun w => num_gt w zero) ws) as [|w r] eqn:F.
  - left. split; [|reflexivity].
    apply Forall_forall. intros x Hx.
    destruct (num_gt x zero) eqn:E; [|reflexivity].
    assert (In x (filter (fun w => num_gt w zero) ws))
      by (apply filter_In; auto).
    rewrite F in H. contradiction.
  - right.
    assert (Hall : Forall (fun x => num_gt x zero = true) (w :: r)).
    { rewrite <- F. apply Forall_forall. intros x Hx.
      apply filter_In in Hx. tauto. }
    inversion Hall as [|? ? Hw Hr]; subst.
    destruct (fold_max_positive r w Hw Hr) as [Hin Hle].
    assert (Hsub : forall x, In x (w :: r) -> In x ws).
    { intros x Hx. rewrite <- F in Hx. apply filter_In in Hx. tauto. }
    split; [auto|]. split.
    + rewrite Forall_forall in Hall. auto.
    + apply Forall_forall. intros x Hx Hpos.
      rewrite Forall_forall in Hle. apply Hle.
      rewrite <- F. apply filter_In. auto.
Qed.

Lemma bestLift_spec (l : Lift.t) : maxPositive (Lift.slots l) (bestLift l).
Proof. apply best_of_slots. Qed.

(** A best lift is [0] or positive, so [best || 0] is [best]. *)
Lemma bestLift_or0 (l : Lift.t) : num_or0 (bestLift l) = bestLift l.
Proof.
  destruct (bestLift_spec l) as [[_ ->] | [_ [Hpos _]]].
  - reflexivity.
  - now apply num_or0_positive.
Qed.

Lemma bestLift_cases (l : Lift.t) :
  bestLift l = zero \/ exists q, bestLift l = Num q /\ (0 < q)%Q.
Proof.
  destruct (bestLift_spec l) as [[_ ->] | [_ [Hpos _]]].
  - now left.
  - right. now apply num_gt_zero.
Qed.


Lemma scoreLifter_total (l : Lifter.t) :
  Lifter.total (scoreLifter l)
  = num_add (num_add (bestLift (Lifter.squat l)) (bestLift (Lifter.bench l)))
            (bestLift (Lifter.deadlift l)).
Proof.
  unfold scoreLifter. cbn. now rewrite !bestLift_or0.
Qed.

Lemma scoreLifter_total_num (l : Lifter.t) :
  exists q, Lifter.total (scoreLifter l) = Num q /\ (0 <= q)%Q.
Proof.
  rewrite scoreLifter_total.
  destruct (bestLift_cases (Lifter.squat l)) as [-> | [a [-> Ha]]];
  destruct (bestLift_cases (Lifter.bench l)) as [-> | [b [-> Hb]]];
  destruct (bestLift_cases (Lifter.deadlift l)) as [-> | [c [-> Hc]]];
  cbn [num_add zero]; eexists; (split; [reflexivity | lra]).
Qed.

(* ================================================================== *)
(** ** Objects, arrays and sorting *)
(* ================================================================== *)

Lemma lookup_In {A : Type} (k : string) (o : obj A) (x : A) :
  lookup k o = Some x -> In (k, x) o.
Proof.
  induction o as [|[k' y] o IH]; cbn; [discriminate|].
  destruct (k' =? k)%string eqn:E.
  - apply String.eqb_eq in E. intro H. inversion H. subst. now left.
  - intro H. right. auto.
Qed.

Lemma obj_set_In {A : Type} (k : string) (x : A) (o : obj A) k' x' :
  In (k', x') (obj_set k x o) -> (k' = k /\ x' = x) \/ In (k', x') o.
Proof.
  induction o as [|[k0 y] o IH]; cbn.
  - intros [H | []]. inversion H. now left.
  - destruct (k0 =? k)%string.
    + intros [H | H]; [inversion H; now left | right; now right].
    + intros [H | H]; [right; now left|].
      destruct (IH H) as [? | ?]; [now left | right; now right].
Qed.

Lemma obj_set_key_In {A : Type} (k : string) (x : A) (o : obj A) k' :
  In k' (obj_keys (obj_set k x o)) -> k' = k \/ In k' (obj_keys o).
Proof.
  unfold obj_keys. intro H. apply in_map_iff in H.
  destruct H as [[k0 x0] [<- H]]. apply obj_set_In in H.
  destruct H as [[-> _] | H]; [now left|].
  right. apply in_map_iff. exists (k0, x0). auto.
Qed.

Lemma obj_set_keys_NoDup {A : Type} (k : string) (x : A) (o : obj A) :
  NoDup (obj_keys o) -> NoDup (obj_keys (obj_set k x o)).
Proof.
  unfold obj_keys. induction o as [|[k0 y] o IH]; cbn; intro H.
  - constructor; [intros []|constructor].
  - inversion H as [|? ? Hnin Hnd]; subst.
    destruct (k0 =? k)%string eqn:E; cbn.
    + apply String.eqb_eq in E. subst. now constructor.
    + constructor; [|auto].
      intro Hin. apply (obj_set_key_In k x o k0) in Hin.
      destruct Hin as [-> | Hin]; [|contradiction].
      rewrite String.eqb_refl in E. discriminate.
Qed.

Lemma NoDup_keys_functional {A : Type} (o : obj A) k x y :
  NoDup (obj_keys o) -> In (k, x) o -> In (k, y) o -> x = y.
Proof.
  unfold obj_keys. induction o as [|[k0 z] o IH]; cbn; [intros _ []|].
  intros H Hx Hy. inversion H as [|? ? Hnin Hnd]; subst.
  destruct Hx as [Hx | Hx], Hy as [Hy | Hy].
  - congruence.
  - inversion Hx; subst. exfalso. apply Hnin.
    apply in_map_iff. exists (k, y). auto.
  - inversion Hy; subst. exfalso. apply Hnin.
    apply in_map_iff. exists (k, x). auto.
  - eauto.
Qed.

Lemma set_nth_length {A : Type} (i : nat) (x : A) (l : list A) :
  List.length (set_nth i x l) = List.length l.
Proof.
  revert i. induction l as [|y l IH]; intros [|i]; cbn; auto.
Qed.

Lemma nth_error_set_nth_same {A : Type} (i : nat) (x : A) (l : list A) :
  (i < List.length l)%nat -> nth_error (set_nth i x l) i = Some x.
Proof.
  revert i. induction l as [|y l IH]; intros [|i] H; cbn in *; try lia.
  - reflexivity.
  - apply IH. lia.
Qed.

Lemma nth_error_set_nth_other {A : Type} (i j : nat) (x : A) (l : list A) :
  i <> j -> nth_error (set_nth i x l) j = nth_error l j.
Proof.
  revert i j. induction l as [|y l IH]; intros [|i] [|j] H; cbn; auto;
    congruence.
Qed.

Lemma In_indexed {A : Type} (l : list A) (i : nat) (x : A) :
  In (i, x) (indexed l) <-> nth_error l i = Some x.
Proof.
  unfold indexed.
  assert (G : forall (l : list A) s,
             In (i, x) (combine (seq s (List.length l)) l)
             <-> (s <= i)%nat /\ nth_error l (i - s) = Some x).
  { clear. induction l as [|y l IH]; intro s; cbn.
    - split; [intros [] | intros [_ H]]. destruct (i - s)%nat; discriminate.
    - rewrite IH. split.
      + intros [H | [H1 H2]].
        * inversion H; subst. rewrite Nat.sub_diag. split; [lia|reflexivity].
        * split; [lia|]. replace (i - s)%nat with (S (i - S s)) by lia.
          exact H2.
      + intros [H1 H2]. destruct (i - s)%nat as [|n] eqn:E.
        * left. cbn in H2. inversion H2. f_equal. lia.
        * right. split; [lia|]. replace (i - S s)%nat with n by lia.
          exact H2. }
  rewrite G. rewrite Nat.sub_0_r. split; [tauto | split; [lia | assumption]].
Qed.

Lemma indexed_refs {A : Type} (l : list A) :
  map fst (indexed l) = seq 0 (List.length l).
Proof.
  unfold indexed. generalize 0%nat.
  induction l as [|y l IH]; intro s; cbn; [reflexivity|].
  now rewrite IH.
Qed.

Section SortFacts.
Context {A : Type} (lt : A -> A -> bool).

Lemma insert_perm (x : A) (l : list A) : Permutation (x :: l) (insert lt x l).
Proof.
  induction l as [|y l IH]; cbn; [reflexivity|].
  destruct (lt y x); [|reflexivity].
  rewrite perm_swap. now constructor.
Qed.

Lemma sort_perm (l : list A) : Permutation l (sort lt l).
Proof.
  induction l as [|x l IH]; cbn; [reflexivity|].
  rewrite <- insert_perm. now constructor.
Qed.

(** The sort orders by any relation [le] that the comparison respects on
    the elements at hand. *)
Variable P : A -> Prop.
Variable le : A -> A -> Prop.
Hypothesis lt_le : forall x y, P x -> P y -> lt y x = true -> le y x.
Hypothesis nlt_le : forall x y, P x -> P y -> lt y x = false -> le x y.
Hypothesis le_trans :
  forall x y z, P x -> P y -> P z -> le x y -> le y z -> le x z.

Lemma insert_sorted (x : A) (l : list A) :
  P x -> Forall P l -> StronglySorted le l ->
  StronglySorted le (insert lt x l).
Proof.
  intros Hx. induction l as [|y l IH]; intros HP Hs; cbn.
  - constructor; constructor.
  - inversion HP as [|? ? Hy HPl]; subst.
    inversion Hs as [|? ? Hsl Hyl]; subst.
    destruct (lt y x) eqn:E.
    + constructor; [auto|].
      apply Forall_forall. intros z Hz.
      apply (Permutation_in _ (Permutation_sym (insert_perm x l))) in Hz.
      destruct Hz as [<- | Hz]; [now apply lt_le|].
      rewrite Forall_forall in Hyl. auto.
    + constructor; [assumption|].
      constructor; [now apply nlt_le|].
      apply Forall_forall. intros z Hz.
      rewrite Forall_forall in Hyl, HPl.
      apply le_trans with y; auto.
Qed.

Lemma sort_sorted (l : list A) :
  Forall P l -> StronglySorted le (sort lt l).
Proof.
  induction l as [|x l IH]; intro HP; cbn; [constructor|].
  inversion HP; subst.
  apply insert_sorted; auto.
  apply Forall_forall. intros z Hz.
  apply (Permutation_in _ (Permutation_sym (sort_perm l))) in Hz.
  rewrite Forall_forall in H2. auto.
Qed.
End SortFacts.

Lemma StronglySorted_nth {A : Type} (le : A -> A -> Prop) (l : list A) :
  StronglySorted le l ->
  forall p q a b, (p < q)%nat ->
    nth_error l p = Some a -> nth_error l q = Some b -> le a b.
Proof.
  induction 1 as [|x l Hs IH Hx]; intros p q a b Hpq Ha Hb.
  - destruct p; discriminate.
  - destruct q as [|q]; [lia|]. cbn in Hb.
    destruct p as [|p]; cbn in Ha.
    + inversion Ha; subst. apply nth_error_In in Hb.
      rewrite Forall_forall in Hx. auto.
    + apply (IH p q); auto. lia.
Qed.

(* ================================================================== *)
(** ** Grouping and placing *)
(* ================================================================== *)

Lemma nth_error_combine {A B : Type} (l1 : list A) (l2 : list B) (i : nat) :
  nth_error (combine l1 l2) i
  = match nth_error l1 i, nth_error l2 i with
    | Some a, Some b => Some (a, b)
    | _, _ => None
    end.
Proof.
  revert l2 i. induction l1 as [|a l1 IH]; intros [|b l2] [|i]; cbn; auto.
  - destruct (nth_error l1 i); reflexivity.
Qed.

Lemma map_snd_indexed {A : Type} (l : list A) : map snd (indexed l) = l.
Proof.
  unfold indexed. generalize 0%nat.
  induction l as [|y l IH]; intro s; cbn; [reflexivity|].
  now rewrite IH.
Qed.

Lemma addToGroup_perm (groups : obj (list lifterRef)) (r : lifterRef) :
  Permutation (List.concat (obj_values (addToGroup groups r)))
              (r :: List.concat (obj_values groups)).
Proof.
  unfold addToGroup, obj_get, obj_values.
  generalize (groupKey (snd r)) as k. intro k.
  induction groups as [|[k0 g0] groups IH]; cbn.
  - reflexivity.
  - destruct (k0 =? k)%string; cbn.
    + rewrite <- app_assoc. cbn.
      symmetry. apply Permutation_middle.
    + rewrite IH. symmetry. apply Permutation_middle.
Qed.

Lemma addToGroup_grouped groups refs r :
  grouped groups refs -> grouped (addToGroup groups r) (r :: refs).
Proof.
  intros [Hnd [Hkey Hperm]]. split; [|split].
  - now apply obj_set_keys_NoDup.
  - intros k g Hin. unfold addToGroup in Hin.
    apply obj_set_In in Hin. destruct Hin as [[-> ->] | Hin]; [|eauto].
    apply Forall_app. split; [|now repeat constructor].
    unfold obj_get. destruct (lookup (groupKey (snd r)) groups) as [g|] eqn:E.
    + apply lookup_In in E. eauto.
    + constructor.
  - rewrite addToGroup_perm. now constructor.
Qed.

Lemma fold_addToGroup_grouped (l : list lifterRef) : forall groups refs,
  grouped groups refs ->
  grouped (fold_left addToGroup l groups) (l ++ refs).
Proof.
  induction l as [|r l IH]; intros groups refs H; cbn; [exact H|].
  destruct (IH _ _ (addToGroup_grouped _ _ r H)) as [H1 [H2 H3]].
  split; [|split]; auto.
  rewrite H3. symmetry. apply Permutation_middle.
Qed.

Lemma groupsOf_grouped (arr : list Lifter.t) :
  grouped (groupsOf arr) (indexed arr).
Proof.
  unfold groupsOf.
  rewrite <- (app_nil_r (indexed arr)) at 2.
  apply fold_addToGroup_grouped.
  split; [constructor | split; [intros ? ? [] | reflexivity]].
Qed.

(** The nested loops make the assignments of [placements], in order. *)
Lemma placeGroups_flat (gs : list (list lifterRef)) : forall heap,
  fold_left placeGroup gs heap = fold_left assignPlace (placements gs) heap.
Proof.
  induction gs as [|g gs IH]; intro heap; cbn; [reflexivity|].
  rewrite fold_left_app. apply IH.
Qed.

Lemma placements_refs (gs : list (list lifterRef)) :
  Permutation (map snd (placements gs)) (List.concat gs).
Proof.
  unfold placements. induction gs as [|g gs IH]; cbn; [reflexivity|].
  rewrite map_app, map_snd_indexed, IH.
  apply Permutation_app_tail. symmetry. apply sort_perm.
Qed.

Lemma touched_groupsOf (arr : list Lifter.t) :
  Permutation (touched (placements (obj_values (groupsOf arr))))
              (seq 0 (List.length arr)).
Proof.
  unfold touched. rewrite <- (map_map snd fst).
  rewrite placements_refs.
  destruct (groupsOf_grouped arr) as [_ [_ H]]. rewrite H.
  now rewrite indexed_refs.
Qed.

Lemma assignPlace_eq heap index i l :
  assignPlace heap (index, (i, l)) = set_nth i (placed index l) heap.
Proof. reflexivity. Qed.

Lemma assign_length (acts : list (nat * lifterRef)) : forall heap,
  List.length (fold_left assignPlace acts heap) = List.length heap.
Proof.
  induction acts as [|[index [i l]] acts IH]; intro heap; cbn - [assignPlace];
    [reflexivity|].
  rewrite IH, assignPlace_eq. apply set_nth_length.
Qed.

Lemma assign_untouched (acts : list (nat * lifterRef)) : forall heap i,
  ~ In i (touched acts) ->
  nth_error (fold_left assignPlace acts heap) i = nth_error heap i.
Proof.
  induction acts as [|[index [j l]] acts IH]; intros heap i Hi;
    cbn - [assignPlace]; [reflexivity|].
  cbn in Hi. rewrite IH by tauto.
  rewrite assignPlace_eq. apply nth_error_set_nth_other. tauto.
Qed.

Lemma assign_touched (acts : list (nat * lifterRef)) : forall heap index i l,
  NoDup (touched acts) -> In (index, (i, l)) acts ->
  (i < List.length heap)%nat ->
  nth_error (fold_left assignPlace acts heap) i = Some (placed index l).
Proof.
  induction acts as [|[index0 [j l0]] acts IH]; intros heap index i l Hnd Hin Hi;
    [contradiction|].
  cbn - [assignPlace]. cbn in Hnd. inversion Hnd as [|? ? Hnin Hnd']; subst.
  destruct Hin as [Heq | Hin].
  - inversion Heq; subst.
    rewrite assign_untouched by assumption.
    rewrite assignPlace_eq. now apply nth_error_set_nth_same.
  - apply IH; auto. rewrite assignPlace_eq, set_nth_length. exact Hi.
Qed.

(** What [calculatePlacings] leaves at each position: the lifter that was
    there, placed by its index in its sorted group. *)
Lemma calculatePlacings_nth (lifters : obj Lifter.t) i k l' :
  nth_error (calculatePlacings lifters) i = Some (k, l') ->
  exists l g index,
    nth_error lifters i = Some (k, l)
    /\ In (groupKey l, g) (groupsOf (obj_values lifters))
    /\ nth_error (sort rankedBefore g) index = Some (i, l)
    /\ l' = placed index l.
Proof.
  unfold calculatePlacings. fold (groupsOf (obj_values lifters)).
  rewrite nth_error_combine, placeGroups_flat.
  unfold obj_keys at 1. rewrite nth_error_map.
  destruct (nth_error lifters i) as [[k0 l]|] eqn:E; cbn; [|discriminate].
  assert (Hl : nth_error (obj_values lifters) i = Some l).
  { unfold obj_values. rewrite nth_error_map, E. reflexivity. }
  assert (Hi : (i < List.length (obj_values lifters))%nat).
  { apply nth_error_Some. congruence. }
  destruct (groupsOf_grouped (obj_values lifters)) as [Hnd [Hkey Hperm]].
  assert (Hin : In (i, l) (List.concat (obj_values (groupsOf (obj_values lifters))))).
  { apply (Permutation_in _ (Permutation_sym Hperm)). now apply In_indexed. }
  apply in_concat in Hin. destruct Hin as [g [Hg Hin]].
  unfold obj_values in Hg at 1. apply in_map_iff in Hg.
  destruct Hg as [[kg g'] [Hgeq Hg]]. cbn in Hgeq. subst g'.
  pose proof (Hkey _ _ Hg) as Hk. rewrite Forall_forall in Hk.
  pose proof (Hk _ Hin) as Hkl. cbn in Hkl. subst kg.
  assert (Hs : In (i, l) (sort rankedBefore g))
    by (apply (Permutation_in _ (sort_perm rankedBefore g)); exact Hin).
  apply In_nth_error in Hs. destruct Hs as [index Hindex].
  rewrite (assign_touched _ _ index i l).
  - intro H. inversion H; subst. exists l, g, index. auto.
  - apply (Permutation_NoDup (Permutation_sym (touched_groupsOf _))).
    apply seq_NoDup.
  - unfold placements. apply in_flat_map. exists g. split.
    + unfold obj_values. apply in_map_iff. exists (groupKey l, g). auto.
    + now apply In_indexed.
  - exact Hi.
Qed.

Lemma calculatePlacings_length (lifters : obj Lifter.t) :
  List.length (calculatePlacings lifters) = List.length lifters.
Proof.
  unfold calculatePlacings. rewrite length_combine, placeGroups_flat.
  rewrite assign_length. unfold obj_keys, obj_values.
  rewrite !length_map. apply Nat.min_id.
Qed.



(** Every lifter of a scoring pass is a lifter of the input, scored and
    placed. *)
Lemma score_nth (lifters : obj Lifter.t) i k l :
  nth_error (score lifters) i = Some (k, l) ->
  exists l0 g index,
    nth_error lifters i = Some (k, l0)
    /\ In (groupKey (scoreLifter l0), g)
          (groupsOf (obj_values (calculateBestLifts lifters)))
    /\ nth_error (sort rankedBefore g) index = Some (i, scoreLifter l0)
    /\ l = placed index (scoreLifter l0).
Proof.
  intro H. apply calculatePlacings_nth in H.
  destruct H as [l1 [g [index [H1 [H2 [H3 H4]]]]]].
  unfold calculateBestLifts in H1. rewrite nth_error_map in H1.
  destruct (nth_error lifters i) as [[k0 l0]|] eqn:E; [|discriminate].
  cbn in H1. inversion H1; subst.
  exists l0, g, index. auto.
Qed.






(* ================================================================== *)
(** ** The order of the group sort *)
(* ================================================================== *)

(** With totals that are numbers, the comparison puts no lifter before one
    with a larger total. *)
Lemma rankedBefore_total (a b : lifterRef) ta tb :
  Lifter.total (snd a) = Num ta -> Lifter.total (snd b) = Num tb ->
  (rankedBefore a b = true -> (tb <= ta)%Q)
  /\ (rankedBefore a b = false -> (ta <= tb)%Q).
Proof.
  intros Ha Hb. unfold rankedBefore, compareLifters. rewrite Ha, Hb.
  cbn [num_eq]. destruct (Qeq_bool tb ta) eqn:E; cbn [negb].
  - apply Qeq_bool_eq in E. split; intros _; lra.
  - apply Qeq_bool_neq in E. cbn [num_sub num_lt zero]. split; intro H.
    + apply Qltb_lt in H. lra.
    + apply Qltb_ge in H. lra.
Qed.

(** With bodyweights that are numbers too, the comparison is the order by
    total, descending, then bodyweight, ascending. *)
Lemma rankedBefore_spec (a b : lifterRef) ta tb wa wb :
  Lifter.total (snd a) = Num ta -> Lifter.total (snd b) = Num tb ->
  Lifter.bodyweight (snd a) = Num wa -> Lifter.bodyweight (snd b) = Num wb ->
  (rankedBefore a b = true <-> (tb < ta \/ (ta == tb /\ wa < wb))%Q).
Proof.
  intros Ha Hb Hwa Hwb. unfold rankedBefore, compareLifters.
  rewrite Ha, Hb, Hwa, Hwb.
  cbn [num_eq]. destruct (Qeq_bool tb ta) eqn:E; cbn [negb num_sub num_lt zero].
  - apply Qeq_bool_eq in E. rewrite Qltb_lt. split; intro H; [right|]; lra.
  - apply Qeq_bool_neq in E. rewrite Qltb_lt. split; intro H; [left|]; lra.
Qed.

(** A sorted group lists its lifters by total, descending. *)
Lemma sorted_by_total (g : list lifterRef) :
  Forall hasTotal g -> StronglySorted totalNotBelow (sort rankedBefore g).
Proof.
  apply sort_sorted; unfold totalNotBelow, num_ge.
  - intros x y [tx Hx] [ty Hy] H.
    apply (rankedBefore_total y x ty tx Hy Hx) in H.
    rewrite Hx, Hy. now apply Qle_bool_iff.
  - intros x y [tx Hx] [ty Hy] H.
    apply (rankedBefore_total y x ty tx Hy Hx) in H.
    rewrite Hx, Hy. now apply Qle_bool_iff.
  - intros x y z [tx Hx] [ty Hy] [tz Hz]. rewrite Hx, Hy, Hz. cbn.
    rewrite !Qle_bool_iff. lra.
Qed.


(** The members of the groups built over scored lifters are scored
    lifters. *)
Lemma groupsOf_members (arr : list Lifter.t) k g r :
  In (k, g) (groupsOf arr) -> In r g -> nth_error arr (fst r) = Some (snd r).
Proof.
  intros Hg Hr.
  destruct (groupsOf_grouped arr) as [_ [_ Hperm]].
  assert (In r (indexed arr)).
  { apply (Permutation_in _ Hperm). apply in_concat. exists g. split; [|exact Hr].
    unfold obj_values. apply in_map_iff. exists (k, g). auto. }
  destruct r as [i l]. now apply In_indexed.
Qed.

Lemma scored_members (lifters : obj Lifter.t) k g r :
  In (k, g) (groupsOf (obj_values (calculateBestLifts lifters))) ->
  In r g ->
  exists k0 l0, In (k0, l0) lifters /\ snd r = scoreLifter l0.
Proof.
  intros Hg Hr. pose proof (groupsOf_members _ _ _ _ Hg Hr) as H.
  apply nth_error_In in H. unfold obj_values, calculateBestLifts in H.
  rewrite map_map in H. apply in_map_iff in H.
  destruct H as [[k0 l0] [Heq Hin]]. cbn in Heq. eauto.
Qed.


Lemma placed_place index l p :
  Lifter.place (placed index l) = Some p ->
  p = (index + 1)%nat /\ num_gt (Lifter.total l) zero = true.
Proof.
  unfold placed. destruct (num_gt (Lifter.total l) zero); cbn; intro H;
    inversion H; auto.
Qed.




(* ================================================================== *)
(** ** Scoring again *)
(* ================================================================== *)

Lemma indexed_map {A B : Type} (f : A -> B) (l : list A) :
  indexed (map f l) = map (fun r => (fst r, f (snd r))) (indexed l).
Proof.
  unfold indexed. rewrite length_map. generalize 0%nat.
  induction l as [|x l IH]; intro s; cbn; [reflexivity|].
  now rewrite IH.
Qed.

Lemma sort_map {A B : Type} (ltA : A -> A -> bool) (ltB : B -> B -> bool)
      (f : A -> B) :
  (forall x y, ltB (f x) (f y) = ltA x y) ->
  forall l, sort ltB (map f l) = map f (sort ltA l).
Proof.
  intros H l. induction l as [|x l IH]; cbn; [reflexivity|].
  rewrite IH. generalize (sort ltA l) as s. clear IH.
  induction s as [|y s IHs]; cbn; [reflexivity|].
  rewrite H. destruct (ltA y x); cbn; [now rewrite IHs | reflexivity].
Qed.

Lemma lookup_unplacedGroups k groups :
  lookup k (unplacedGroups groups)
  = option_map (map unplacedRef) (lookup k groups).
Proof.
  induction groups as [|[k0 g] groups IH]; cbn; [reflexivity|].
  destruct (k0 =? k)%string; [reflexivity | exact IH].
Qed.

Lemma obj_set_unplacedGroups k g groups :
  obj_set k (map unplacedRef g) (unplacedGroups groups)
  = unplacedGroups (obj_set k g groups).
Proof.
  induction groups as [|[k0 g0] groups IH]; cbn; [reflexivity|].
  destruct (k0 =? k)%string; cbn; [reflexivity | f_equal; exact IH].
Qed.

Lemma addToGroup_unplaced groups r :
  addToGroup (unplacedGroups groups) (unplacedRef r)
  = unplacedGroups (addToGroup groups r).
Proof.
  unfold addToGroup, obj_get.
  change (groupKey (snd (unplacedRef r))) with (groupKey (snd r)).
  rewrite lookup_unplacedGroups, <- obj_set_unplacedGroups.
  f_equal. rewrite map_app.
  destruct (lookup (groupKey (snd r)) groups); reflexivity.
Qed.

Lemma groupsOf_unplaced (arr : list Lifter.t) :
  groupsOf (map unplaced arr) = unplacedGroups (groupsOf arr).
Proof.
  unfold groupsOf. rewrite indexed_map.
  change (@nil (string * list lifterRef)) with (unplacedGroups []) at 1.
  generalize (@nil (string * list lifterRef)) as groups.
  induction (indexed arr) as [|r l IH]; intro groups; cbn; [reflexivity|].
  change (fst r, unplaced (snd r)) with (unplacedRef r).
  rewrite addToGroup_unplaced. apply IH.
Qed.

Lemma placements_unplaced (gs : list (list lifterRef)) :
  placements (map (map unplacedRef) gs)
  = map (fun e => (fst e, unplacedRef (snd e))) (placements gs).
Proof.
  unfold placements. induction gs as [|g gs IH]; cbn; [reflexivity|].
  rewrite map_app, IH. f_equal.
  rewrite (sort_map rankedBefore rankedBefore unplacedRef) by reflexivity.
  apply indexed_map.
Qed.

(** An assignment overwrites the place: it does not matter whether the
    lifter had one. *)
Lemma assign_unplaced (acts : list (nat * lifterRef)) : forall heap,
  fold_left assignPlace (map (fun e => (fst e, unplacedRef (snd e))) acts) heap
  = fold_left assignPlace acts heap.
Proof.
  induction acts as [|[index [i l]] acts IH]; intro heap; [reflexivity|].
  cbn [map fold_left]. rewrite IH. reflexivity.
Qed.

(** Objects that are all assigned to end up the same whatever they were. *)
Lemma assign_indep (acts : list (nat * lifterRef)) : forall h h',
  List.length h = List.length h' ->
  (forall i, ~ In i (touched acts) -> nth_error h i = nth_error h' i) ->
  fold_left assignPlace acts h = fold_left assignPlace acts h'.
Proof.
  induction acts as [|[index [j l]] acts IH]; intros h h' Hlen Hun.
  - cbn. apply nth_error_ext. intro i. apply Hun. intros [].
  - cbn [fold_left]. apply IH.
    + rewrite !assignPlace_eq, !set_nth_length. exact Hlen.
    + intros i Hi. rewrite !assignPlace_eq.
      destruct (Nat.eq_dec j i) as [-> | Hne].
      * destruct (Nat.lt_ge_cases i (List.length h)) as [Hlt | Hge].
        -- rewrite !nth_error_set_nth_same by lia. reflexivity.
        -- assert (E1 : nth_error (set_nth i (placed index l) h) i = None)
             by (apply nth_error_None; rewrite set_nth_length; lia).
           assert (E2 : nth_error (set_nth i (placed index l) h') i = None)
             by (apply nth_error_None; rewrite set_nth_length; lia).
           congruence.
      * rewrite !nth_error_set_nth_other by assumption.
        apply Hun. cbn. tauto.
Qed.

(** [calculatePlacings] does not read the places it finds. *)
Lemma calculatePlacings_unplaced (lifters : obj Lifter.t) :
  calculatePlacings (unplacedAll lifters) = calculatePlacings lifters.
Proof.
  unfold calculatePlacings.
  assert (Hk : obj_keys (unplacedAll lifters) = obj_keys lifters).
  { unfold obj_keys, unplacedAll. rewrite map_map. reflexivity. }
  assert (Hv : obj_values (unplacedAll lifters)
               = map unplaced (obj_values lifters)).
  { unfold obj_values, unplacedAll. rewrite !map_map. reflexivity. }
  rewrite Hk, Hv. f_equal.
  fold (groupsOf (map unplaced (obj_values lifters))).
  fold (groupsOf (obj_values lifters)).
  rewrite groupsOf_unplaced, !placeGroups_flat.
  assert (Hg : obj_values (unplacedGroups (groupsOf (obj_values lifters)))
               = map (map unplacedRef)
                     (obj_values (groupsOf (obj_values lifters)))).
  { unfold obj_values, unplacedGroups. rewrite !map_map. reflexivity. }
  rewrite Hg, placements_unplaced, assign_unplaced.
  apply assign_indep.
  - apply length_map.
  - intros i Hi.
    assert (Hge : (List.length (obj_values lifters) <= i)%nat).
    { destruct (Nat.lt_ge_cases i (List.length (obj_values lifters)))
        as [Hlt | Hge]; [|exact Hge].
      exfalso. apply Hi.
      apply (Permutation_in _ (Permutation_sym (touched_groupsOf _))).
      apply in_seq. lia. }
    assert (E1 : nth_error (map unplaced (obj_values lifters)) i = None)
      by (apply nth_error_None; rewrite length_map; lia).
    assert (E2 : nth_error (obj_values lifters) i = None)
      by (apply nth_error_None; lia).
    congruence.
Qed.

(** [calculatePlacings] changes nothing but places. *)
Lemma unplaced_calculatePlacings (lifters : obj Lifter.t) :
  unplacedAll (calculatePlacings lifters) = unplacedAll lifters.
Proof.
  apply nth_error_ext. intro i. unfold unplacedAll. rewrite !nth_error_map.
  destruct (nth_error (calculatePlacings lifters) i) as [[k l']|] eqn:E.
  - apply calculatePlacings_nth in E.
    destruct E as (l & g & index & H1 & _ & _ & ->).
    rewrite H1. reflexivity.
  - apply nth_error_None in E. rewrite calculatePlacings_length in E.
    apply nth_error_None in E. now rewrite E.
Qed.

Lemma scoreLifter_placed index l :
  scoreLifter (placed index (scoreLifter l)) = placed index (scoreLifter l).
Proof. reflexivity. Qed.

(** Deriving the bests again after a scoring pass changes nothing. *)
Lemma calculateBestLifts_score (lifters : obj Lifter.t) :
  calculateBestLifts (score lifters) = score lifters.
Proof.
  apply nth_error_ext. intro i. unfold calculateBestLifts at 1.
  rewrite nth_error_map.
  destruct (nth_error (score lifters) i) as [[k l]|] eqn:E; [|reflexivity].
  apply score_nth in E. destruct E as (l0 & g & index & _ & _ & _ & ->).
  cbn. now rewrite scoreLifter_placed.
Qed.

(** A scoring pass over the lifters it has scored leaves them as they are. *)
Lemma score_idempotent (lifters : obj Lifter.t) :
  score (score lifters) = score lifters.
Proof.
  unfold score at 1. rewrite calculateBestLifts_score.
  rewrite <- calculatePlacings_unplaced. unfold score.
  rewrite unplaced_calculatePlacings. apply calculatePlacings_unplaced.
Qed.

(** The bodyweight [processLifters] stores is a number, unless the
    document's [bodyWeight] is the boolean [true] (which is positive as a
    number and no number to [parseFloat]). *)
Lemma positive_string_parses (s : string) :
  num_gt (toNumber_string s) zero = true -> isNaN (parseFloat_string s) = false.
Proof.
  unfold toNumber_string, parseFloat_string.
  destruct (skip_spaces s) as [|c t] eqn:E; [discriminate|].
  destruct (read_decimal (String c t)) as [[q rest]|]; [reflexivity|].
  discriminate.
Qed.

Lemma stored_bodyweight_number (v : value) :
  v <> VBool true ->
  isNaN (if num_gt (toNumber v) zero then parseFloat v else zero) = false.
Proof.
  intro H.
  destruct (num_gt (toNumber v) zero) eqn:E; [|reflexivity].
  destruct v as [| |b|q|s|l|fs]; try discriminate E; try reflexivity.
  - destruct b; [congruence | discriminate E].
  - now apply positive_string_parses.
  - now apply positive_string_parses.
Qed.

Lemma lifterOf_bodyweight getWeightClass divisions doc lifter :
  lifterOf getWeightClass divisions doc = Ok lifter ->
  getv doc "bodyWeight" <> VBool true ->
  isNaN (Lifter.bodyweight lifter) = false.
Proof.
  unfold lifterOf. intros H Hbw.
  destruct (getWeightClass _ _); [|discriminate].
  cbn [bind] in H. inversion H. cbn [Lifter.bodyweight].
  now apply stored_bodyweight_number.
Qed.




(* ================================================================== *)
(** ** Linking attempts *)
(* ================================================================== *)

Lemma lookup_obj_set_same {A : Type} (k : string) (x : A) (o : obj A) :
  lookup k (obj_set k x o) = Some x.
Proof.
  induction o as [|[k0 y] o IH]; cbn.
  - now rewrite String.eqb_refl.
  - destruct (k0 =? k)%string eqn:E; cbn.
    + now rewrite String.eqb_refl.
    + now rewrite E.
Qed.

Lemma slot_set_slot (n : nat) (w : num) (l : Lift.t) :
  (1 <= n <= 3)%nat -> Lift.slot n (Lift.set_slot n w l) = w.
Proof.
  intro H. destruct n as [|[|[|[|n]]]]; try lia; reflexivity.
Qed.

Lemma lift_set_lift (d : discipline) (x : Lift.t) (l : Lifter.t) :
  Lifter.lift d (Lifter.set_lift d x l) = x.
Proof. destruct d; reflexivity. Qed.

Lemma slotIndex_of_nat (n : nat) :
  slotIndex (Num (inject_Z (Z.of_nat n))) = n.
Proof.
  unfold slotIndex, inject_Z. cbn [Qnum Qden].
  rewrite Z.div_1_r. apply Nat2Z.id.
Qed.

Lemma inRange_of_nat (n : nat) :
  (1 <= n <= 3)%nat ->
  num_ge (Num (inject_Z (Z.of_nat n))) (Num 1)
  && num_le (Num (inject_Z (Z.of_nat n))) (Num 3) = true.
Proof.
  intro H. destruct n as [|[|[|[|n]]]]; try lia; reflexivity.
Qed.

(** A good result encodes as the declared weight. *)
Lemma encode_good (doc : value) (r : string) :
  getv doc "result" = VStr r -> toLowerCase r = "good" ->
  encodeAttempt doc = Ok (declaredWeight doc).
Proof.
  intros Hr Hlow. unfold encodeAttempt. rewrite Hr. cbn. now rewrite Hlow.
Qed.

(** Any other result string encodes as the negated magnitude. *)
Lemma encode_failed (doc : value) (r : string) :
  getv doc "result" = VStr r -> toLowerCase r <> "good" ->
  encodeAttempt doc = Ok (num_neg (num_abs (declaredWeight doc))).
Proof.
  intros Hr Hlow. unfold encodeAttempt. rewrite Hr. cbn.
  destruct (toLowerCase r =? "good")%string eqn:E; [|reflexivity].
  apply String.eqb_eq in E. contradiction.
Qed.

(** No result encodes as [0]. *)
Lemma encode_pending (doc : value) :
  nullish (getv doc "result") = true -> encodeAttempt doc = Ok zero.
Proof.
  intros Hr. unfold encodeAttempt. rewrite Hr. reflexivity.
Qed.

(** A linked attempt writes its encoding into the slot it names. *)
Lemma attemptRow_linked attempts lifters row doc lifter d n w :
  linkedAttempt lifters row doc lifter d n ->
  encodeAttempt doc = Ok w ->
  writtenSlot attempts lifters row doc d n = Some w.
Proof.
  intros (Hdoc & (id & Hid & Ha) & HlId & Hl & (nm & Hnm & Hd) & Hnum & Hint & Hn)
         Henc.
  unfold writtenSlot, attemptRow. rewrite Hdoc. cbn [bind].
  assert (Hnn : nullish doc = false).
  { destruct doc; try reflexivity; cbn in Hid; discriminate. }
  unfold prop. rewrite Hnn, Hid. cbn [bind truthy call_startsWith].
  assert (Hne : negb (id =? "")%string = true).
  { destruct id; [discriminate Ha | reflexivity]. }
  rewrite Hne. cbn [bind]. rewrite Ha. cbn [truthy].
  rewrite HlId, Hnum, Hnm.
  assert (Hnmne : truthy (VStr nm) = true).
  { destruct nm; [cbn in Hd; discriminate | reflexivity]. }
  rewrite Hnmne. cbn [andb]. rewrite Hl.
  unfold linkAttempt. rewrite Hnm, Hint. cbn [call_toLowerCase bind].
  rewrite Hd, (inRange_of_nat n Hn), Henc. cbn [bind].
  unfold obj_get. rewrite lookup_obj_set_same. cbn [option_map].
  rewrite lift_set_lift, slotIndex_of_nat. now rewrite slot_set_slot.
Qed.









(* ================================================================== *)
(** ** Weight classes *)
(* ================================================================== *)

(** The thresholds of a sex are numbers in ascending order. *)
Lemma parseClasses_sorted (classes : obj string) :
  StronglySorted numLe (parseClasses classes)
  /\ Forall isNumber (parseClasses classes).
Proof.
  unfold parseClasses.
  set (l := filter (fun v => negb (isNaN v))
                   (map parseFloat_string
                        (map remove_first_plus (obj_values classes)))).
  assert (Hl : Forall isNumber l).
  { apply Forall_forall. intros x Hx. apply filter_In in Hx.
    destruct Hx as [_ Hx]. unfold isNumber. now destruct (isNaN x). }
  split.
  - apply (sort_sorted ascending isNumber numLe); [| | |exact Hl];
      unfold ascending, numLe, isNumber.
    + intros [|x] [|y]; try discriminate. intros _ _ H. cbn in *.
      apply Qltb_lt in H. apply Qle_bool_iff. lra.
    + intros [|x] [|y]; try discriminate. intros _ _ H. cbn in *.
      apply Qltb_ge in H. apply Qle_bool_iff. lra.
    + intros [|x] [|y] [|z]; try discriminate. intros _ _ _. cbn.
      rewrite !Qle_bool_iff. lra.
  - apply Forall_forall. intros x Hx.
    apply (Permutation_in _ (Permutation_sym (sort_perm ascending l))) in Hx.
    rewrite Forall_forall in Hl. auto.
Qed.

Lemma lastThreshold_max (upper : list num) :
  StronglySorted numLe upper -> Forall isNumber upper -> upper <> [] ->
  In (lastThreshold upper) upper
  /\ forall w, In w upper -> num_le w (lastThreshold upper) = true.
Proof.
  induction upper as [|x l IH]; intros Hs Hn Hne; [congruence|].
  inversion Hs as [|? ? Hsl Hx]; subst. inversion Hn as [|? ? Hnx Hnl]; subst.
  destruct l as [|y l'].
  - cbn. split; [now left|]. intros w [<- | []].
    destruct x; [discriminate|]. apply Qle_bool_iff. lra.
  - destruct (IH Hsl Hnl) as [Hin Hmax]; [discriminate|].
    change (lastThreshold (x :: y :: l')) with (lastThreshold (y :: l')).
    split; [now right|]. intros w [<- | Hw]; [|auto].
    rewrite Forall_forall in Hx. now apply Hx.
Qed.

(** The search of [getWeightClass] over ascending thresholds: the first
    threshold that is not below the bodyweight is the smallest such. *)
Lemma find_smallest (upper : list num) (bw : num) :
  StronglySorted numLe upper -> Forall isNumber upper ->
  match find (fun w => num_le bw w) upper with
  | Some w0 =>
      In w0 upper /\ num_le bw w0 = true
      /\ forall w, In w upper -> num_le bw w = true -> num_le w0 w = true
  | None => forall w, In w upper -> num_le bw w = false
  end.
Proof.
  induction upper as [|x l IH]; intros Hs Hn; cbn; [intros ? []|].
  inversion Hs as [|? ? Hsl Hx]; subst. inversion Hn as [|? ? Hnx Hnl]; subst.
  destruct (num_le bw x) eqn:E.
  - split; [now left|]. split; [exact E|].
    intros w [<- | Hw] _.
    + destruct x; [discriminate|]. apply Qle_bool_iff. lra.
    + rewrite Forall_forall in Hx. now apply Hx.
  - specialize (IH Hsl Hnl).
    destruct (find (fun w => num_le bw w) l) as [w0|].
    + destruct IH as [Hin [Hle Hmin]]. split; [now right|]. split; [exact Hle|].
      intros w [<- | Hw] Hbw; [congruence | auto].
    + intros w [<- | Hw]; auto.
Qed.

Lemma buildThresholds_shape cfgs federation thresholds :
  buildThresholds cfgs federation = Ok thresholds ->
  exists male female,
    thresholds = [("MALE", parseClasses male); ("FEMALE", parseClasses female)].
Proof.
  unfold buildThresholds.
  destruct (match obj_get (to_string federation) cfgs with
            | Some c => Some c
            | None => obj_get "IPF" cfgs
            end) as [config|]; [|discriminate].
  cbn. intro H. inversion H. eauto.
Qed.

Lemma tableOf_sorted cfgs federation thresholds s :
  buildThresholds cfgs federation = Ok thresholds ->
  StronglySorted numLe (tableOf thresholds s)
  /\ Forall isNumber (tableOf thresholds s).
Proof.
  intro H. apply buildThresholds_shape in H. destruct H as [m [f ->]].
  unfold tableOf, maleTable, femaleTable. cbn.
  destruct (toUpperCase s =? "FEMALE")%string; apply parseClasses_sorted.
Qed.

(** The table [getWeightClass] searches. *)
Lemma getWeightClass_table cfgs federation thresholds s bw :
  buildThresholds cfgs federation = Ok thresholds ->
  s <> "" -> num_truthy bw = true ->
  getWeightClass thresholds (VStr s) bw
  = match tableOf thresholds s with
    | [] => Ok "0"
    | _ :: _ =>
        match find (fun w => num_le bw w) (tableOf thresholds s) with
        | Some w => Ok (num_to_string w)
        | None =>
            Ok (num_to_string (lastThreshold (tableOf thresholds s)) ++ "+")%string
        end
    end.
Proof.
  intros H Hs Hbw. apply buildThresholds_shape in H. destruct H as [m [f ->]].
  unfold getWeightClass. rewrite Hbw.
  assert (Ht : truthy (VStr s) = true) by (destruct s; [contradiction | reflexivity]).
  rewrite Ht. cbn [negb orb call_toUpperCase bind].
  unfold tableOf, maleTable, femaleTable, obj_get. cbn [lookup].
  rewrite (String.eqb_sym "MALE"), (String.eqb_sym "FEMALE").
  destruct (toUpperCase s =? "MALE")%string eqn:EM.
  - apply String.eqb_eq in EM. rewrite EM. cbn. reflexivity.
  - destruct (toUpperCase s =? "FEMALE")%string; reflexivity.
Qed.

(** C4, as stated, fails where it has the male table stand in for a sex
    without boundaries: with male classes only, a female lifter of 60 kg
    is given ["0"], not the male class ["66"]. *)
Lemma unconfigured_sex_counterexample :
  let thresholds :=
    [("MALE", [Num 59; Num 66; Num 74; Num 74]); ("FEMALE", [])] in
  buildThresholds maleOnly (VStr "IPF") = Ok thresholds
  /\ femaleTable thresholds = []
  /\ getWeightClass thresholds (VStr "FEMALE") (Num 60) = Ok "0"
  /\ getWeightClass thresholds (VStr "MALE") (Num 60) = Ok "66"
  /\ getWeightClass thresholds (VStr "FEMALE") (Num 60)
     <> getWeightClass thresholds (VStr "MALE") (Num 60).
Proof.
  cbv zeta. repeat split; try (vm_compute; reflexivity).
  vm_compute. discriminate.
Qed.

(** C4, amended.  [getWeightClass] returns ["0"] when the bodyweight or
    the sex is absent (falsy).  Otherwise, for a sex that is a string, it
    searches the table of the requested sex, which is the male table when
    the sex is neither MALE nor FEMALE: it returns ["0"] when that table
    has no boundary, the label of the smallest boundary that is not below
    the bodyweight when there is one, and the label of the top boundary
    followed by ["+"] when the bodyweight exceeds every boundary.  A sex
    that is present and not a string is not resolved: with a bodyweight
    that is present the call throws a TypeError. *)
Theorem weight_class_resolution cfgs federation thresholds :
  buildThresholds cfgs federation = Ok thresholds ->
  (forall sex bw,
      num_truthy bw = false \/ truthy sex = false ->
      getWeightClass thresholds sex bw = Ok "0")
  /\ (forall s bw,
         s <> "" -> num_truthy bw = true ->
         (tableOf thresholds s = [] ->
          getWeightClass thresholds (VStr s) bw = Ok "0")
         /\ (forall w,
                In w (tableOf thresholds s) -> num_le bw w = true ->
                exists w0,
                  In w0 (tableOf thresholds s) /\ num_le bw w0 = true
                  /\ (forall w', In w' (tableOf thresholds s) ->
                                 num_le bw w' = true -> num_le w0 w' = true)
                  /\ getWeightClass thresholds (VStr s) bw
                     = Ok (num_to_string w0))
         /\ (tableOf thresholds s <> [] ->
             (forall w, In w (tableOf thresholds s) -> num_le bw w = false) ->
             exists top,
               In top (tableOf thresholds s)
               /\ (forall w, In w (tableOf thresholds s) ->
                             num_le w top = true)
               /\ getWeightClass thresholds (VStr s) bw
                  = Ok (num_to_string top ++ "+")%string))
  /\ (forall s bw,
         s <> "" -> toUpperCase s <> "MALE" -> toUpperCase s <> "FEMALE" ->
         getWeightClass thresholds (VStr s) bw
         = getWeightClass thresholds (VStr "MALE") bw)
  /\ (forall sex bw,
         truthy sex = true -> (forall s, sex <> VStr s) ->
         num_truthy bw = true ->
         getWeightClass thresholds sex bw = Throw TypeError).
Proof.
  intro Hth. split; [|split; [|split]].
  - intros sex bw H. unfold getWeightClass.
    destruct H as [-> | ->]; [reflexivity|].
    now rewrite orb_true_r.
  - intros s bw Hs Hbw.
    rewrite (getWeightClass_table _ _ _ _ _ Hth Hs Hbw).
    destruct (tableOf_sorted _ _ _ s Hth) as [Hsorted Hnum].
    pose proof (find_smallest (tableOf thresholds s) bw Hsorted Hnum) as Hfind.
    split; [|split].
    + intros ->. reflexivity.
    + intros w Hw Hle.
      destruct (tableOf thresholds s) as [|x l] eqn:E; [contradiction|].
      destruct (find (fun w => num_le bw w) (x :: l)) as [w0|].
      * exists w0. tauto.
      * specialize (Hfind w Hw). congruence.
    + intros Hne Hall.
      destruct (tableOf thresholds s) as [|x l] eqn:E; [congruence|].
      destruct (find (fun w => num_le bw w) (x :: l)) as [w0|] eqn:F.
      * destruct Hfind as [Hin [Hle _]]. specialize (Hall w0 Hin). congruence.
      * destruct (lastThreshold_max (x :: l) Hsorted Hnum Hne) as [Hin Hmax].
        exists (lastThreshold (x :: l)). auto.
  - intros s bw Hs HM HF.
    destruct (num_truthy bw) eqn:Hbw.
    + rewrite (getWeightClass_table _ _ _ s bw Hth Hs Hbw).
      rewrite (getWeightClass_table _ _ _ "MALE" bw Hth) by (auto; discriminate).
      assert (E : tableOf thresholds s = tableOf thresholds "MALE").
      { unfold tableOf. apply String.eqb_neq in HF. rewrite HF. reflexivity. }
      now rewrite E.
    + unfold getWeightClass. rewrite Hbw. reflexivity.
  - intros sex bw Ht Hns Hbw. unfold getWeightClass. rewrite Ht, Hbw.
    cbn [negb orb].
    destruct sex; try reflexivity. exfalso. now apply (Hns s).
Qed.

Lemma weight_class_resolution_witness :
  let thresholds :=
    [("MALE", [Num 59; Num 66; Num 120; Num 120]);
     ("FEMALE", [Num 47; Num 52; Num 84; Num 84])] in
  buildThresholds bothSexes (VStr "IPF") = Ok thresholds
  /\ getWeightClass thresholds VNull (Num 60) = Ok "0"
  /\ getWeightClass thresholds (VStr "open") (Num 60)
     = getWeightClass thresholds (VStr "MALE") (Num 60)
  /\ (exists w0,
        In w0 (tableOf thresholds "female") /\ num_le (Num 50) w0 = true
        /\ (forall w', In w' (tableOf thresholds "female") ->
                       num_le (Num 50) w' = true -> num_le w0 w' = true)
        /\ getWeightClass thresholds (VStr "female") (Num 50)
           = Ok (num_to_string w0))
  /\ getWeightClass thresholds (VNum 1) (Num 60) = Throw TypeError.
Proof.
  intro thresholds.
  assert (Hth : buildThresholds bothSexes (VStr "IPF") = Ok thresholds)
    by (vm_compute; reflexivity).
  destruct (weight_class_resolution bothSexes (VStr "IPF") thresholds Hth)
    as [Habsent [Hsearch [Hother Hnostring]]].
  split; [exact Hth|]. split; [|split; [|split]].
  - apply Habsent. right. reflexivity.
  - apply Hother; discriminate.
  - assert (Hs : "female" <> "") by discriminate.
    destruct (Hsearch "female" (Num 50) Hs eq_refl) as [_ [Hfound _]].
    apply (Hfound (Num 52)).
    + vm_compute. right. left. reflexivity.
    + reflexivity.
  - apply Hnostring; [reflexivity | discriminate | reflexivity].
Defined.

(* ================================================================== *)
(** ** Referee lights *)
(* ================================================================== *)

(** A comparison that does not throw on the elements at hand sorts as its
    boolean counterpart does. *)
Lemma insertM_pure {A : Type} (ltM : A -> A -> res bool) (lt : A -> A -> bool)
      (P : A -> Prop) (x : A) (l : list A) :
  (forall a b, P a -> P b -> ltM a b = Ok (lt a b)) ->
  P x -> Forall P l -> insertM ltM x l = Ok (insert lt x l).
Proof.
  intros H Hx. induction l as [|y l IH]; intro Hl; cbn; [reflexivity|].
  inversion Hl as [|? ? Hy Hl']; subst.
  rewrite (H y x Hy Hx). cbn. destruct (lt y x); [|reflexivity].
  now rewrite (IH Hl').
Qed.

Lemma sortM_pure {A : Type} (ltM : A -> A -> res bool) (lt : A -> A -> bool)
      (P : A -> Prop) (l : list A) :
  (forall a b, P a -> P b -> ltM a b = Ok (lt a b)) ->
  Forall P l -> sortM ltM l = Ok (sort lt l).
Proof.
  intros H. induction l as [|x l IH]; intro Hl; cbn; [reflexivity|].
  inversion Hl as [|? ? Hx Hl']; subst.
  rewrite (IH Hl'). cbn. apply (insertM_pure ltM lt P); auto.
  apply Forall_forall. intros z Hz.
  apply (Permutation_in _ (Permutation_sym (sort_perm lt l))) in Hz.
  rewrite Forall_forall in Hl'. auto.
Qed.

Lemma is_string_iff (v : value) (s : string) :
  is_string v s = true <-> v = VStr s.
Proof.
  destruct v; cbn; try (split; [discriminate | intro H; discriminate H]).
  rewrite String.eqb_eq. split; [intros -> | intro H; inversion H]; reflexivity.
Qed.

Section LightOrder.

Variable localeCompare : string -> string -> comparison.

(** The comparison of the runtime is an order on labels. *)
Hypothesis localeCompare_antisym :
  forall a b, localeCompare b a = CompOpp (localeCompare a b).
Hypothesis localeCompare_trans :
  forall a b c, localeCompare a b <> Gt -> localeCompare b c <> Gt ->
                localeCompare a c <> Gt.

Lemma positionBefore_labelBefore (a b : Referee.t) :
  hasLabel a -> hasLabel b ->
  positionBefore localeCompare a b = Ok (labelBefore localeCompare a b).
Proof.
  intros [sa Ha] [sb Hb]. unfold positionBefore, labelBefore, positionLabel.
  rewrite Ha. reflexivity.
Qed.

Lemma sort_by_label (l : list Referee.t) :
  StronglySorted
    (fun a b => localeCompare (positionLabel a) (positionLabel b) <> Gt)
    (sort (labelBefore localeCompare) l).
Proof.
  apply (sort_sorted (labelBefore localeCompare) (fun _ => True)
           (fun a b => localeCompare (positionLabel a) (positionLabel b) <> Gt)).
  - intros x y _ _. unfold labelBefore.
    destruct (localeCompare (positionLabel y) (positionLabel x));
      congruence.
  - intros x y _ _. unfold labelBefore.
    rewrite (localeCompare_antisym (positionLabel y) (positionLabel x)).
    destruct (localeCompare (positionLabel y) (positionLabel x));
      cbn; congruence.
  - intros x y z _ _ _. apply localeCompare_trans.
  - apply Forall_forall. auto.
Qed.

Lemma sort_by_seat_label (l : list (nat * Referee.t)) :
  StronglySorted
    (fun a b => localeCompare (positionLabel (snd a))
                              (positionLabel (snd b)) <> Gt)
    (sort (seatBefore localeCompare) l).
Proof.
  apply (sort_sorted (seatBefore localeCompare) (fun _ => True)
           (fun a b => localeCompare (positionLabel (snd a))
                                     (positionLabel (snd b)) <> Gt)).
  - intros x y _ _. unfold seatBefore, labelBefore.
    destruct (localeCompare (positionLabel (snd y)) (positionLabel (snd x)));
      congruence.
  - intros x y _ _. unfold seatBefore, labelBefore.
    rewrite (localeCompare_antisym (positionLabel (snd y))
                                   (positionLabel (snd x))).
    destruct (localeCompare (positionLabel (snd y)) (positionLabel (snd x)));
      cbn; congruence.
  - intros x y z _ _ _. apply localeCompare_trans.
  - apply Forall_forall. auto.
Qed.

(** The referees [processRefereeLights] filters for a platform are the
    entries of the table seated at it, in the order of the table. *)
Lemma refereesOf_seats (referees : obj Referee.t) (platform : Platform.t) :
  exists seats : list (nat * Referee.t),
    refereesOf referees platform = map snd seats
    /\ NoDup (map fst seats)
    /\ forall i r, In (i, r) seats <-> seatedAt referees platform i r.
Proof.
  exists (filter (fun seat => is_string (Referee.platformId (snd seat))
                                        (Platform.id platform))
                 (indexed (obj_values referees))).
  split; [|split].
  - unfold refereesOf.
    rewrite <- (map_snd_indexed (obj_values referees)) at 1.
    induction (indexed (obj_values referees)) as [|[i r] l IH]; cbn;
      [reflexivity|].
    destruct (is_string (Referee.platformId r) (Platform.id platform)); cbn;
      now rewrite IH.
  - assert (H : NoDup (map fst (indexed (obj_values referees))))
      by (rewrite indexed_refs; apply seq_NoDup).
    induction (indexed (obj_values referees)) as [|[i r] l IH]; cbn;
      [constructor|].
    cbn in H. inversion H as [|? ? Hnin Hnd]; subst.
    destruct (is_string (Referee.platformId r) (Platform.id platform)); cbn;
      [|auto].
    constructor; [|auto]. intro Hin. apply Hnin.
    apply in_map_iff in Hin. destruct Hin as [x [Hx Hin]].
    apply filter_In in Hin. apply in_map_iff. exists x. tauto.
  - intros i r. rewrite filter_In, In_indexed. cbn [snd].
    rewrite is_string_iff. unfold seatedAt, obj_values.
    rewrite nth_error_map.
    destruct (nth_error referees i) as [[k r']|]; cbn.
    + split.
      * intros [H Hp]. inversion H; subst. split; [eauto | exact Hp].
      * intros [[k' H] Hp]. inversion H; subst. split; [reflexivity | exact Hp].
    + split; [intros [H _]; discriminate | intros [[k' H] _]; discriminate].
Qed.

(** The lights of one platform whose referees carry string labels. *)
Lemma platformLights_spec (referees : obj Referee.t) (platform : Platform.t) :
  (forall kr r, In (kr, r) referees ->
                Referee.platformId r = VStr (Platform.id platform) ->
                hasLabel r) ->
  exists lights,
    platformLights localeCompare referees platform = Ok lights
    /\ lightsOf localeCompare referees platform lights.
Proof.
  intro Hlab. unfold platformLights.
  assert (HP : Forall hasLabel (refereesOf referees platform)).
  { apply Forall_forall. intros r Hr. unfold refereesOf in Hr.
    apply filter_In in Hr. destruct Hr as [Hr Hp].
    apply is_string_iff in Hp.
    unfold obj_values in Hr. apply in_map_iff in Hr.
    destruct Hr as [[k r'] [<- Hin]]. eauto. }
  rewrite (sortM_pure _ (labelBefore localeCompare) hasLabel _
             positionBefore_labelBefore HP).
  cbn [bind]. eexists. split; [reflexivity|].
  destruct (refereesOf_seats referees platform) as [seats [E [Hnd Hseats]]].
  rewrite E.
  rewrite (sort_map (seatBefore localeCompare) (labelBefore localeCompare) snd)
    by reflexivity.
  pose proof (sort_perm (seatBefore localeCompare) seats) as Hperm.
  exists (sort (seatBefore localeCompare) seats).
  split; [|split; [|split; [|split]]].
  - apply (Permutation_NoDup (Permutation_map fst Hperm) Hnd).
  - intros i r. rewrite <- Hseats. split; apply Permutation_in;
      [symmetry; exact Hperm | exact Hperm].
  - apply sort_by_seat_label.
  - generalize (sort (seatBefore localeCompare) seats) as l.
    induction l as [|seat l IH]; cbn; [constructor|].
    constructor; [apply is_string_iff | exact IH].
  - now rewrite !length_map.
Qed.

Lemma processRefereeLights_spec (referees : obj Referee.t) :
  forall platforms,
  (forall k p kr r, In (k, p) platforms -> In (kr, r) referees ->
                    Referee.platformId r = VStr (Platform.id p) ->
                    hasLabel r) ->
  exists platforms',
    processRefereeLights localeCompare platforms referees = (platforms', Ok tt)
    /\ Forall2 (fun kp kp' =>
                  fst kp' = fst kp
                  /\ exists lights,
                       snd kp' = Platform.set_lights lights (snd kp)
                       /\ lightsOf localeCompare referees (snd kp) lights)
               platforms platforms'.
Proof.
  intros platforms. induction platforms as [|[k p] rest IH]; intro Hlab; cbn.
  - exists []. split; [reflexivity | constructor].
  - destruct (platformLights_spec referees p) as [lights [E Hl]].
    { intros kr r. apply (Hlab k p). now left. }
    rewrite E. destruct IH as [rest' [Er Hr]].
    { intros k0 p0 kr r Hin. apply (Hlab k0 p0). now right. }
    rewrite Er. eexists. split; [reflexivity|].
    constructor; [|exact Hr]. cbn. split; [reflexivity|]. eauto.
Qed.

End LightOrder.

(** C7, as stated, fails where positions are not strings.
    [processReferees] accepts any position that is truthy; with two
    referees seated at one platform at the positions 1 and 2 the sort calls
    [localeCompare] on a number, light aggregation throws a TypeError for
    any locale, and the platform is left with the empty vector, which is
    not the light vector of a platform with two referees. *)
Lemma numbered_positions_counterexample :
  exists platform platforms referees,
    processPlatforms numberedRows = Ok platforms
    /\ processReferees numberedRows = Ok referees
    /\ platforms = [("p1", platform)]
    /\ map (fun kr => (Referee.platformId (snd kr), Referee.position (snd kr)))
           referees
       = [(VStr "p1", VNum 1); (VStr "p1", VNum 2)]
    /\ forall localeCompare,
         processRefereeLights localeCompare platforms referees
         = (platforms, Throw TypeError)
         /\ Platform.lights platform = []
         /\ ~ lightsOf localeCompare referees platform
                       (Platform.lights platform).
Proof.
  eexists. eexists. eexists.
  split; [reflexivity|]. split; [reflexivity|]. split; [reflexivity|].
  split; [reflexivity|]. intro localeCompare.
  split; [reflexivity|]. split; [reflexivity|].
  intros (seats & _ & Hseats & _ & Hlights & _).
  cbn in Hlights. inversion Hlights; subst.
  apply (Hseats 0%nat (Referee.mk "r1" (VStr "p1") (VNum 1) (VStr "good") VUndef)).
  split; [exists "r1"|]; reflexivity.
Qed.

(** C7, amended.  When every referee seated at one of the platforms has
    a position label that is a string, light aggregation completes, and
    every platform then carries a light vector that lists the referees
    seated at it, every one and each once, in the order of their position
    labels, has as many elements as there are such referees, and holds
    [true] exactly for those whose decision is ["good"].  The order of the
    labels is the runtime's [localeCompare], an order on strings. *)
Theorem referee_lights (localeCompare : string -> string -> comparison)
        (platforms : obj Platform.t) (referees : obj Referee.t) :
  (forall a b, localeCompare b a = CompOpp (localeCompare a b)) ->
  (forall a b c, localeCompare a b <> Gt -> localeCompare b c <> Gt ->
                 localeCompare a c <> Gt) ->
  (forall k p kr r, In (k, p) platforms -> In (kr, r) referees ->
                    Referee.platformId r = VStr (Platform.id p) ->
                    exists s, Referee.position r = VStr s) ->
  exists platforms',
    processRefereeLights localeCompare platforms referees = (platforms', Ok tt)
    /\ Forall2 (fun kp kp' =>
                  fst kp' = fst kp
                  /\ exists lights,
                       snd kp' = Platform.set_lights lights (snd kp)
                       /\ lightsOf localeCompare referees (snd kp) lights)
               platforms platforms'.
Proof.
  intros Hanti Htrans Hlab.
  now apply processRefereeLights_spec.
Qed.

(** The byte order of strings is such an order: the one the
    specification calls the lexicographic ordering of the labels. *)
Lemma String_compare_trans (a b c : string) :
  String.compare a b <> Gt -> String.compare b c <> Gt ->
  String.compare a c <> Gt.
Proof.
  revert b c. induction a as [|x a IH]; intros [|y b] [|z c];
    cbn [String.compare]; try congruence.
  unfold Ascii.compare.
  destruct (N.compare_spec (N_of_ascii x) (N_of_ascii y)) as [E1|E1|E1];
  destruct (N.compare_spec (N_of_ascii y) (N_of_ascii z)) as [E2|E2|E2];
  destruct (N.compare_spec (N_of_ascii x) (N_of_ascii z)) as [E3|E3|E3];
  try congruence; try lia.
  apply IH.
Qed.

Lemma referee_lights_witness :
  let platform :=
    Platform.mk "p1" (VStr "Platform 1") (Num 60) VUndef VUndef VUndef [] in
  let referees :=
    [("r1", Referee.mk "r1" (VStr "p1") (VStr "R") (VStr "bad") VUndef);
     ("r2", Referee.mk "r2" (VStr "p2") (VNum 2) VNull VUndef);
     ("r3", Referee.mk "r3" (VStr "p1") (VStr "L") (VStr "good") VUndef)] in
  processRefereeLights String.compare [("p1", platform)] referees
  = ([("p1", Platform.set_lights [true; false] platform)], Ok tt)
  /\ lightsOf String.compare referees platform [true; false].
Proof.
  intros platform referees.
  assert (Hlab : forall k p kr r,
             In (k, p) [("p1", platform)] -> In (kr, r) referees ->
             Referee.platformId r = VStr (Platform.id p) ->
             exists s, Referee.position r = VStr s).
  { intros k p kr r [Hp | []] [H | [H | [H | []]]] Hid;
      inversion Hp; subst; inversion H; subst;
      try discriminate Hid; eexists; reflexivity. }
  destruct (referee_lights String.compare [("p1", platform)] referees
              (fun a b => String.compare_antisym b a)
              String_compare_trans Hlab) as [platforms' [E HF]].
  assert (E' : processRefereeLights String.compare [("p1", platform)] referees
               = ([("p1", Platform.set_lights [true; false] platform)], Ok tt))
    by reflexivity.
  split; [exact E'|].
  rewrite E' in E. inversion E; subst platforms'.
  inversion HF as [|? ? ? ? [_ [lights [Hl Hlights]]] _]; subst.
  cbn in Hl. inversion Hl; subst lights. exact Hlights.
Defined.

(** The specification's example: decisions good at ["L"] and bad at ["R"]
    light up as [true, false]. *)
Example lights_left_right :
  processRefereeLights String.compare examplePlatforms exampleReferees
  = ([("p1", Platform.mk "p1" (VStr "Platform 1") (Num 60) VUndef VUndef
                         VUndef [true; false])],
     Ok tt).
Proof. reflexivity. Qed.

(* ================================================================== *)
(** ** The update cycle *)
(* ================================================================== *)

(** C8.  When the fetch of a cycle fails (the request fails, the status is
    not a success, the body is not JSON, or the payload has no rows) the
    cycle returns with [meetData] exactly as it was, every field of it,
    and broadcasts nothing. *)
Theorem failed_fetch_keeps_snapshot (federationConfigs : obj FedConfig.t)
        (localeCompare : string -> string -> comparison)
        (st : MeetData.t) (r : response) (now : string) :
  fetchFailed r ->
  updateMeetData federationConfigs localeCompare st r now = Returned st None.
Proof.
  intro H. unfold updateMeetData.
  destruct (truthy (MeetData.meetId st)); [|reflexivity]. cbn [negb].
  destruct H as [-> | [[body ->] | [-> | [data [-> Hrows]]]]];
    try reflexivity.
  unfold fetchData. cbn [negb]. unfold inspectData, prop.
  unfold oprop in Hrows.
  destruct (nullish data) eqn:Hn; cbn [bind]; [reflexivity|].
  unfold countRows.
  destruct (nullish (getv data "rows")) eqn:Hr; cbn [bind].
  - rewrite Hrows. now rewrite orb_true_r.
  - assert (E : items (getv data "rows") = Throw TypeError).
    { destruct (getv data "rows"); try reflexivity; discriminate. }
    rewrite E. reflexivity.
Qed.

Lemma failed_fetch_keeps_snapshot_witness :
  fetchFailed (Response false None)
  /\ updateMeetData bothSexes String.compare exampleState
       (Response false None) "2025-10-05T12:00:15.000Z"
     = Returned exampleState None.
Proof.
  assert (H : fetchFailed (Response false None))
    by (right; left; eexists; reflexivity).
  split; [exact H|].
  exact (failed_fetch_keeps_snapshot bothSexes String.compare exampleState
           (Response false None) "2025-10-05T12:00:15.000Z" H).
Defined.

(** The projection steps of [processDivisions], [processPlatforms],
    [processReferees] and [processLifters] pass over a row whose document
    is absent. *)
Lemma siblings_skip_absent_document (federationConfigs : obj FedConfig.t)
      (federation : value) (thresholds : obj (list num)) (row : value) :
  prop row "doc" = Ok VNull \/ prop row "doc" = Ok VUndef ->
  buildThresholds federationConfigs federation = Ok thresholds ->
  processDivisions [row] = Ok []
  /\ processPlatforms [row] = Ok []
  /\ processReferees [row] = Ok []
  /\ processLifters federationConfigs [row] federation [] = Ok []
  /\ processMeetInfo [row] = Ok (VObj []).
Proof.
  intros H Hth.
  unfold processDivisions, processPlatforms, processReferees, processLifters,
    processMeetInfo, mapWeightClasses.
  rewrite Hth. cbn [bind forEach findM filterM].
  destruct H as [-> | ->]; repeat split; reflexivity.
Qed.

(** [processAttempts] does not: it reads [doc._id] unguarded, and the
    TypeError ends the loop at that row. *)
Lemma processAttempts_absent_document (row : value) (rows : list value)
      (attempts : obj Attempt.t) (lifters : obj Lifter.t) :
  prop row "doc" = Ok VNull \/ prop row "doc" = Ok VUndef ->
  linkRows (row :: rows) attempts lifters = (lifters, Throw TypeError).
Proof.
  intro H. cbn [linkRows]. unfold attemptRow.
  destruct H as [-> | ->]; reflexivity.
Qed.

Lemma linkRows_app (before rest : list value) : forall attempts lifters attempts' lifters',
  linkRows before attempts lifters = (lifters', Ok attempts') ->
  linkRows (before ++ rest) attempts lifters = linkRows rest attempts' lifters'.
Proof.
  induction before as [|row before IH]; intros attempts lifters attempts' lifters' H.
  - cbn in H. inversion H. reflexivity.
  - cbn [linkRows app] in *.
    destruct (attemptRow (attempts, lifters) row) as [[a l]|e];
      [now apply IH | discriminate].
Qed.

(** Wherever the row stands in the feed, the rows after it are not
    processed. *)
Lemma processAttempts_stops_at_absent_document
      (before after : list value) (row : value)
      (lifters lifters' : obj Lifter.t) (attempts' : obj Attempt.t) :
  prop row "doc" = Ok VNull \/ prop row "doc" = Ok VUndef ->
  processAttempts before lifters = (lifters', Ok attempts') ->
  processAttempts (before ++ row :: after) lifters = (lifters', Throw TypeError).
Proof.
  unfold processAttempts. intros Hrow H.
  rewrite (linkRows_app _ _ _ _ _ _ H).
  now apply processAttempts_absent_document.
Qed.

(** C9, at a failing input.  A feed in which one row has no document: the
    cycle is cut short by a TypeError in [processAttempts], after the
    lifters and the other projections of the new feed have replaced the
    old ones, with the attempts and the timestamp of the cycle before. *)
Theorem absent_document_aborts_cycle :
  exists st,
    updateMeetData bothSexes String.compare exampleState
      (payloadOf [rowOf (lifterDoc "l2" "Bea" "FEMALE" 60); emptyRow])
      "2025-10-05T12:00:15.000Z"
    = Aborted st TypeError
    /\ obj_keys (MeetData.lifters st) = ["l2"]
    /\ obj_keys (MeetData.lifters exampleState) = ["l1"]
    /\ MeetData.attempts st = MeetData.attempts exampleState
    /\ obj_keys (MeetData.attempts st) = ["a1"; "a2"]
    /\ MeetData.lastUpdate st = MeetData.lastUpdate exampleState.
Proof.
  eexists. split; [vm_compute; reflexivity|].
  repeat apply conj; vm_compute; reflexivity.
Qed.

(* ================================================================== *)
(** ** The messages *)
(* ================================================================== *)

(** A cycle that completes broadcasts the update message of the state it
    leaves. *)
Lemma broadcast_is_updateMessage (federationConfigs : obj FedConfig.t)
      (localeCompare : string -> string -> comparison)
      (st st' : MeetData.t) (r : response) (now : string) (msg : Message.t) :
  updateMeetData federationConfigs localeCompare st r now
  = Returned st' (Some msg) ->
  msg = updateMessage st'.
Proof.
  unfold updateMeetData.
  destruct (negb (truthy (MeetData.meetId st))); [discriminate|].
  destruct (negb (truthy (fetchData r))
            || negb (truthy (getv (fetchData r) "rows"))); [discriminate|].
  unfold processRows, orAbort.
  repeat match goal with
         | |- match ?m with Ok _ => _ | Throw _ => _ end = _ -> _ =>
             destruct m; [|discriminate]
         end.
  intro H. inversion H. reflexivity.
Qed.

(** C3, as stated, fails: after the cycle over the small feed, the update
    message that was broadcast carries the two attempts, and the initial
    message a viewer then receives on joining has no attempts at all, nor
    divisions, platforms, referees or meet info. *)
Lemma initial_message_counterexample :
  updateMeetData bothSexes String.compare configuredState
    (payloadOf exampleRows) "2025-10-05T12:00:00.000Z"
  = Returned exampleState (Some (updateMessage exampleState))
  /\ obj_keys (Message.data (updateMessage exampleState))
     = ["lifters"; "attempts"; "divisions"; "platforms"; "referees";
        "meetInfo"; "federation"; "lastUpdate"]
  /\ obj_keys (Message.data (initialMessage bothSexes exampleState))
     = ["lifters"; "lastUpdate"; "federation"; "federations"]
  /\ lookup "attempts" (Message.data (updateMessage exampleState))
     = Some (FAttempts (MeetData.attempts exampleState))
  /\ obj_keys (MeetData.attempts exampleState) = ["a1"; "a2"]
  /\ lookup "attempts" (Message.data (initialMessage bothSexes exampleState))
     = None
  /\ Message.data (initialMessage bothSexes exampleState)
     <> Message.data (updateMessage exampleState).
Proof.
  repeat apply conj.
  1-6: vm_compute; reflexivity.
  intro H. apply (f_equal obj_keys) in H. vm_compute in H. discriminate.
Qed.

(** C3, amended.  The update message carries the lifters, attempts,
    divisions, platforms, referees, meet info, federation code and
    last-update timestamp of the state; the initial message carries the
    lifters, the last-update timestamp and the federation code, and the
    list of configurable federations.  So the lifters, federation code and
    timestamp a viewer receives on joining are those of the update message
    of the same state: those last broadcast, when the state is the one a
    completed cycle left. *)
Theorem initial_message_fields (federationConfigs : obj FedConfig.t)
        (localeCompare : string -> string -> comparison)
        (st st' : MeetData.t) (r : response) (now : string) (msg : Message.t) :
  updateMeetData federationConfigs localeCompare st r now
  = Returned st' (Some msg) ->
  obj_keys (Message.data msg)
  = ["lifters"; "attempts"; "divisions"; "platforms"; "referees";
     "meetInfo"; "federation"; "lastUpdate"]
  /\ obj_keys (Message.data (initialMessage federationConfigs st'))
     = ["lifters"; "lastUpdate"; "federation"; "federations"]
  /\ (forall k, In k ["lifters"; "lastUpdate"; "federation"] ->
                lookup k (Message.data (initialMessage federationConfigs st'))
                = lookup k (Message.data msg))
  /\ lookup "federations"
            (Message.data (initialMessage federationConfigs st'))
     = Some (FKeys (obj_keys federationConfigs)).
Proof.
  intro H. apply broadcast_is_updateMessage in H. subst msg.
  repeat apply conj; try reflexivity.
  intros k [<- | [<- | [<- | []]]]; reflexivity.
Qed.

Lemma initial_message_fields_witness :
  updateMeetData bothSexes String.compare configuredState
    (payloadOf exampleRows) "2025-10-05T12:00:00.000Z"
  = Returned exampleState (Some (updateMessage exampleState))
  /\ lookup "lifters" (Message.data (initialMessage bothSexes exampleState))
     = lookup "lifters" (Message.data (updateMessage exampleState)).
Proof.
  assert (H : updateMeetData bothSexes String.compare configuredState
                (payloadOf exampleRows) "2025-10-05T12:00:00.000Z"
              = Returned exampleState (Some (updateMessage exampleState)))
    by (vm_compute; reflexivity).
  split; [exact H|].
  destruct (initial_message_fields _ _ _ _ _ _ _ H) as [_ [_ [Hsame _]]].
  apply Hsame. left. reflexivity.
Defined.

(* ================================================================== *)
(** ** What the fetch lets through *)
(* ================================================================== *)

Lemma filterM_ok {A : Type} (p : A -> res bool) (l : list A) r :
  filterM p l = Ok r -> Forall (fun x => exists b, p x = Ok b) l.
Proof.
  revert r. induction l as [|x l IH]; intros r H; [constructor|].
  cbn in H. destruct (p x) as [b|] eqn:E; [|discriminate]. cbn in H.
  destruct (filterM p l) as [r'|]; [|discriminate].
  constructor; eauto.
Qed.

Lemma filterM_total {A : Type} (p : A -> res bool) (l : list A) :
  Forall (fun x => exists b, p x = Ok b) l -> exists r, filterM p l = Ok r.
Proof.
  induction 1 as [|x l [b Hb] _ [r Hr]]; cbn; [eauto|].
  rewrite Hb, Hr. cbn. eauto.
Qed.

Lemma findM_total {A : Type} (p : A -> res bool) (l : list A) :
  Forall (fun x => exists b, p x = Ok b) l -> exists r, findM p l = Ok r.
Proof.
  induction 1 as [|x l [b Hb] _ [r Hr]]; cbn; [eauto|].
  rewrite Hb. cbn. destruct b; eauto.
Qed.

Lemma forEach_total {A S : Type} (f : S -> A -> res S) (l : list A) :
  Forall (fun x => forall acc, exists acc', f acc x = Ok acc') l ->
  forall acc, exists r, forEach f l acc = Ok r.
Proof.
  induction 1 as [|x l Hx _ IH]; intro acc; cbn; [eauto|].
  destruct (Hx acc) as [acc' E]. rewrite E. cbn. apply IH.
Qed.

Lemma isLifterRow_wellFormed (row : value) (b : bool) :
  isLifterRow row = Ok b -> wellFormedRow row.
Proof.
  unfold isLifterRow, prop, wellFormedRow.
  destruct (nullish row) eqn:Hn; [discriminate|]. cbn [bind].
  unfold opt_startsWith.
  destruct (nullish (oprop (getv row "doc") "_id")) eqn:Hi; [auto|].
  intro H. split; [reflexivity|]. right.
  destruct (oprop (getv row "doc") "_id"); try discriminate. eauto.
Qed.

(** A row that is well formed passes every identifier test. *)
Lemma wellFormed_startsWith (row : value) (p : string) :
  wellFormedRow row ->
  prop row "doc" = Ok (getv row "doc")
  /\ exists b, opt_startsWith (oprop (getv row "doc") "_id") p = Ok b.
Proof.
  intros [Hn Hid]. unfold prop. rewrite Hn. split; [reflexivity|].
  unfold opt_startsWith. destruct Hid as [-> | [s Hs]]; [eauto|].
  rewrite Hs. cbn. eauto.
Qed.

(** What [fetchData] hands on with rows is the body of a successful
    response, whose rows are an array of well-formed rows. *)
Lemma fetchData_accepts (r : response) :
  truthy (fetchData r) = true ->
  truthy (getv (fetchData r) "rows") = true ->
  r = Response true (Some (fetchData r))
  /\ exists rows,
       getv (fetchData r) "rows" = VArr rows /\ Forall wellFormedRow rows.
Proof.
  destruct r as [|ok body]; [discriminate|].
  unfold fetchData. destruct ok; [|discriminate]. cbn [negb].
  destruct body as [data|]; [|discriminate].
  destruct (inspectData data) as [d|] eqn:E; [|discriminate].
  unfold inspectData, prop in E.
  destruct (nullish data); [discriminate|]. cbn [bind] in E.
  unfold countRows in E.
  destruct (nullish (getv data "rows")) eqn:Hn.
  - cbn [bind] in E. inversion E; subst d. intros _ H.
    destruct (getv data "rows"); discriminate.
  - destruct (items (getv data "rows")) as [l|] eqn:Hl; [|discriminate].
    cbn [bind] in E.
    destruct (filterM isLifterRow l) as [r1|] eqn:F1; [|discriminate].
    cbn [bind] in E.
    destruct (filterM isAttemptRow l) as [r2|] eqn:F2; [|discriminate].
    cbn [bind] in E. inversion E; subst d. intros _ _.
    split; [reflexivity|]. exists l. split.
    + destruct (getv data "rows"); try discriminate. now inversion Hl.
    + apply filterM_ok in F1. rewrite Forall_forall in *.
      intros row Hrow. destruct (F1 row Hrow) as [b Hb].
      eapply isLifterRow_wellFormed; eauto.
Qed.

Lemma projections_total (rows : list value) :
  Forall wellFormedRow rows ->
  (exists d, processDivisions rows = Ok d)
  /\ (exists m, processMeetInfo rows = Ok m)
  /\ (exists p, processPlatforms rows = Ok p)
  /\ (exists x, processReferees rows = Ok x).
Proof.
  intro H. split; [|split; [|split]].
  - apply forEach_total. eapply Forall_impl; [|exact H].
    intros row Hrow acc.
    destruct (wellFormed_startsWith row "d" Hrow) as [E1 [b E2]].
    cbv beta. rewrite E1. cbn [bind]. rewrite E2. cbn [bind].
    destruct (truthy b && truthy (getv (getv row "doc") "name")); eauto.
  - unfold processMeetInfo.
    destruct (findM_total
                (fun row =>
                   doc <- prop row "doc" ;;
                   b <- opt_startsWith (oprop doc "_id") "m" ;; Ok (truthy b))
                rows) as [found ->].
    { eapply Forall_impl; [|exact H]. intros row Hrow.
      destruct (wellFormed_startsWith row "m" Hrow) as [E1 [b E2]].
      cbv beta. rewrite E1. cbn [bind]. rewrite E2. cbn [bind]. eauto. }
    cbn [bind].
    destruct (filterM_total
                (fun row =>
                   doc <- prop row "doc" ;;
                   if truthy doc
                   then b <- opt_startsWith (getv doc "_id") "e" ;;
                        Ok (truthy b)
                   else Ok false)
                rows) as [extra ->].
    { eapply Forall_impl; [|exact H]. intros row Hrow.
      destruct (wellFormed_startsWith row "e" Hrow) as [E1 [b Hb]].
      cbv beta. rewrite E1. cbn [bind]. destruct (truthy (getv row "doc")) eqn:Ht; [|eauto].
      assert (Hnn : nullish (getv row "doc") = false)
        by (destruct (getv row "doc"); try reflexivity; discriminate).
      unfold oprop in Hb. rewrite Hnn in Hb. rewrite Hb. cbn. eauto. }
    cbn [bind]. eauto.
  - apply forEach_total. eapply Forall_impl; [|exact H].
    intros row Hrow acc.
    destruct (wellFormed_startsWith row "p" Hrow) as [E1 [b E2]].
    cbv beta. rewrite E1. cbn [bind]. rewrite E2. cbn [bind].
    destruct (truthy b && truthy (getv (getv row "doc") "name")
              && not_undefined (getv (getv row "doc") "clockState")); eauto.
  - apply forEach_total. eapply Forall_impl; [|exact H].
    intros row Hrow acc.
    destruct (wellFormed_startsWith row "r" Hrow) as [E1 [b E2]].
    cbv beta. rewrite E1. cbn [bind]. rewrite E2. cbn [bind].
    destruct (truthy b && truthy (getv (getv row "doc") "platformId")
              && truthy (getv (getv row "doc") "position")); eauto.
Qed.

(** X1.  Whatever [fetchData] hands on with rows has an array of rows,
    none of them [null] and each with a document identifier that is a
    string or absent, so that [processDivisions], [processMeetInfo],
    [processPlatforms] and [processReferees] run over it without throwing:
    a payload on which they would throw is turned into [null] by
    [fetchData] before the cycle starts. *)
Theorem fetched_rows_project (r : response) :
  truthy (fetchData r) = true ->
  truthy (getv (fetchData r) "rows") = true ->
  exists rows,
    getv (fetchData r) "rows" = VArr rows
    /\ Forall wellFormedRow rows
    /\ (exists d, processDivisions rows = Ok d)
    /\ (exists m, processMeetInfo rows = Ok m)
    /\ (exists p, processPlatforms rows = Ok p)
    /\ (exists x, processReferees rows = Ok x).
Proof.
  intros H1 H2. destruct (fetchData_accepts r H1 H2) as [_ [rows [E Hw]]].
  exists rows. split; [exact E|]. split; [exact Hw|].
  now apply projections_total.
Qed.

Lemma fetched_rows_project_witness :
  exists rows,
    getv (fetchData (payloadOf exampleRows)) "rows" = VArr rows
    /\ Forall wellFormedRow rows
    /\ (exists d, processDivisions rows = Ok d)
    /\ (exists m, processMeetInfo rows = Ok m)
    /\ (exists p, processPlatforms rows = Ok p)
    /\ (exists x, processReferees rows = Ok x).
Proof.
  apply fetched_rows_project; reflexivity.
Defined.

(* ================================================================== *)
(** ** Projecting lifters *)
(* ================================================================== *)

Lemma forEach_inv {A S : Type} (f : S -> A -> res S) (P : S -> Prop)
      (l : list A) :
  (forall acc x acc', In x l -> P acc -> f acc x = Ok acc' -> P acc') ->
  forall acc r, P acc -> forEach f l acc = Ok r -> P r.
Proof.
  induction l as [|x l IH]; intros Hstep acc r HP H; cbn in H.
  - inversion H; subst; assumption.
  - destruct (f acc x) as [acc'|] eqn:E; [|discriminate]. cbn in H.
    apply (IH (fun a y a' Hy => Hstep a y a' (or_intror Hy)) acc' r); auto.
    apply (Hstep acc x acc'); auto. now left.
Qed.

Lemma forEach_throws {A S : Type} (f : S -> A -> res S) (l : list A) (x : A) :
  In x l -> (forall acc, f acc x = Throw TypeError) ->
  forall acc, forEach f l acc = Throw TypeError.
Proof.
  induction l as [|y l IH]; intros Hin Hx acc; [contradiction|]. cbn.
  destruct Hin as [-> | Hin].
  - now rewrite Hx.
  - destruct (f acc y) as [acc'|[]]; cbn; [now apply IH | reflexivity].
Qed.

Lemma opt_startsWith_true (v : value) (p : string) (b : value) :
  opt_startsWith v p = Ok b -> truthy b = true ->
  exists s, v = VStr s /\ startsWith s p = true.
Proof.
  unfold opt_startsWith. destruct v; cbn; intros H Hb;
    inversion H; subst; try discriminate.
  eauto.
Qed.

Lemma oprop_string (doc : value) (k s : string) :
  oprop doc k = VStr s -> nullish doc = false /\ getv doc k = VStr s.
Proof.
  unfold oprop. destruct (nullish doc); [discriminate | auto].
Qed.

(** The fields of the lifter [lifterOf] builds. *)
Lemma lifterOf_fields getWeightClass divisions doc lifter :
  lifterOf getWeightClass divisions doc = Ok lifter ->
  Lifter.id lifter = to_string (getv doc "_id")
  /\ Lifter.name lifter = getv doc "name"
  /\ Lifter.sex lifter = getv doc "gender"
  /\ Lifter.squat lifter = Lift.empty
  /\ Lifter.bench lifter = Lift.empty
  /\ Lifter.deadlift lifter = Lift.empty
  /\ Lifter.total lifter = zero
  /\ Lifter.place lifter = None.
Proof.
  unfold lifterOf. destruct (getWeightClass _ _); [|discriminate].
  cbn [bind]. intro H. inversion H. cbn. repeat apply conj; reflexivity.
Qed.

(** X2.  Every lifter [processLifters] returns sits under its own
    identifier, which starts with ["l"], was made from a document of the
    feed with that identifier, and starts the cycle with empty slots, no
    total and no place; no identifier occurs twice. *)
Theorem processLifters_fresh (federationConfigs : obj FedConfig.t)
        (rows : list value) (federation : value) (divisions : obj value)
        (lifters : obj Lifter.t) :
  processLifters federationConfigs rows federation divisions = Ok lifters ->
  NoDup (obj_keys lifters)
  /\ forall k l, In (k, l) lifters -> freshLifter rows k l.
Proof.
  unfold processLifters.
  destruct (mapWeightClasses federationConfigs federation) as [gwc|];
    [|discriminate].
  cbn [bind].
  apply (forEach_inv _
           (fun ls => NoDup (obj_keys ls)
                      /\ forall k l, In (k, l) ls -> freshLifter rows k l)).
  - intros acc row acc' Hrow [Hnd Hfresh] H.
    destruct (prop row "doc") as [doc|] eqn:Hdoc; [|discriminate].
    cbn [bind] in H.
    destruct (opt_startsWith (oprop doc "_id") "l") as [b|] eqn:Hb;
      [|discriminate].
    cbn [bind] in H.
    destruct (truthy b) eqn:Htb; cbn [andb] in H;
      [|inversion H; subst; auto].
    destruct (truthy (getv doc "name") && truthy (getv doc "birthDate")
              && truthy (getv doc "gender"));
      [|inversion H; subst; auto].
    destruct (lifterOf gwc divisions doc) as [lifter|] eqn:Hl; [|discriminate].
    cbn [bind] in H. inversion H; subst acc'. clear H.
    split; [now apply obj_set_keys_NoDup|].
    intros k l Hin. apply obj_set_In in Hin.
    destruct Hin as [[-> ->] | Hin]; [|auto].
    destruct (opt_startsWith_true _ _ _ Hb Htb) as [s [Hs Hstart]].
    apply oprop_string in Hs. destruct Hs as [_ Hid].
    destruct (lifterOf_fields _ _ _ _ Hl)
      as (Eid & Ename & Esex & Esq & Ebe & Ede & Etot & Epl).
    rewrite Hid in Eid. cbn in Eid.
    unfold freshLifter. rewrite Eid.
    repeat apply conj; auto.
    exists row, doc. repeat apply conj; auto.
  - split; [constructor | intros k l []].
Qed.

Lemma processLifters_fresh_witness :
  exists lifters,
    processLifters bothSexes exampleRows (VStr "IPF") [] = Ok lifters
    /\ NoDup (obj_keys lifters)
    /\ forall k l, In (k, l) lifters -> freshLifter exampleRows k l.
Proof.
  eexists. split; [vm_compute; reflexivity|].
  apply (processLifters_fresh bothSexes exampleRows (VStr "IPF") []).
  vm_compute. reflexivity.
Defined.




(** The step of [processLifters] on a lifter document whose gender is not
    a string and whose bodyweight is positive. *)
Lemma getWeightClass_not_string thresholds (sex : value) (bodyweight : num) :
  truthy sex = true -> (forall s, sex <> VStr s) ->
  getWeightClass thresholds sex bodyweight
  = if num_truthy bodyweight then Throw TypeError else Ok "0".
Proof.
  intros Ht Hs. unfold getWeightClass. rewrite Ht.
  destruct (num_truthy bodyweight); [|reflexivity]. cbn.
  destruct sex; try reflexivity. exfalso. now apply (Hs s).
Qed.

(** X4.  A lifter document whose gender is present but not a string is
    accepted, with weight class ["0"], as long as it has no bodyweight;
    with a positive bodyweight it makes [processLifters] throw, and with it
    the whole feed is lost, wherever the document stands. *)
Theorem gender_not_a_string (federationConfigs : obj FedConfig.t)
        (federation : value) (thresholds : obj (list num))
        (divisions : obj value) (rows : list value) (row doc : value) :
  buildThresholds federationConfigs federation = Ok thresholds ->
  In row rows -> prop row "doc" = Ok doc -> lifterDocument doc ->
  (forall s, getv doc "gender" <> VStr s) ->
  (getv doc "bodyWeight" = VUndef ->
   exists lifter,
     lifterOf (getWeightClass thresholds) divisions doc = Ok lifter
     /\ Lifter.weightClass lifter = "0"
     /\ Lifter.bodyweight lifter = zero)
  /\ (forall q, getv doc "bodyWeight" = VNum q -> (0 < q)%Q ->
      processLifters federationConfigs rows federation divisions
      = Throw TypeError).
Proof.
  intros Hth Hrow Hdoc [[id [Hid Hstart]] [Hname [Hbirth Hgender]]] Hns.
  split.
  - intro Hbw. unfold lifterOf. rewrite Hbw. cbn [toNumber num_gt num_lt].
    rewrite (getWeightClass_not_string _ _ _ Hgender Hns). cbn.
    eexists. repeat apply conj; reflexivity.
  - intros q Hq Hpos. unfold processLifters, mapWeightClasses.
    rewrite Hth. cbn [bind].
    apply (forEach_throws _ rows row Hrow). intro acc.
    rewrite Hdoc. cbn [bind].
    assert (Hnn : nullish doc = false)
      by (destruct doc; try reflexivity; discriminate).
    unfold oprop. rewrite Hnn, Hid. cbn [opt_startsWith nullish call_startsWith bind].
    rewrite Hstart. cbn [truthy]. rewrite Hname, Hbirth, Hgender. cbn [andb].
    unfold lifterOf. rewrite Hq. cbn [toNumber parseFloat].
    assert (Hgt : num_gt (Num q) zero = true) by (apply num_gt_zero; eauto).
    rewrite Hgt.
    rewrite (getWeightClass_not_string _ _ _ Hgender Hns).
    assert (Htr : num_truthy (Num q) = true).
    { cbn. destruct (Qeq_bool q 0) eqn:E; [|reflexivity].
      apply Qeq_bool_eq in E. lra. }
    rewrite Htr. reflexivity.
Qed.

Lemma gender_not_a_string_witness :
  processLifters bothSexes
    (exampleRows ++ [rowOf (numericGenderDoc (VNum 80))]) (VStr "IPF") []
  = Throw TypeError.
Proof.
  assert (Hth : exists th, buildThresholds bothSexes (VStr "IPF") = Ok th)
    by (eexists; vm_compute; reflexivity).
  destruct Hth as [th Hth].
  refine (proj2 (gender_not_a_string bothSexes (VStr "IPF") th []
                   (exampleRows ++ [rowOf (numericGenderDoc (VNum 80))])
                   (rowOf (numericGenderDoc (VNum 80)))
                   (numericGenderDoc (VNum 80)) Hth _ eq_refl _ _)
                80 eq_refl _).
  - apply in_or_app. right. left. reflexivity.
  - repeat split; try reflexivity. eexists. split; reflexivity.
  - intros s H. discriminate H.
  - reflexivity.
Defined.

(* ================================================================== *)
(** ** More on weight classes *)
(* ================================================================== *)

Lemma upper_char_idem (c : ascii) : upper_char (upper_char c) = upper_char c.
Proof. destruct c as [[] [] [] [] [] [] [] []]; reflexivity. Qed.

Lemma upper_lower_char (c : ascii) : upper_char (lower_char c) = upper_char c.
Proof. destruct c as [[] [] [] [] [] [] [] []]; reflexivity. Qed.

Lemma toUpperCase_idem (s : string) :
  toUpperCase (toUpperCase s) = toUpperCase s.
Proof.
  induction s as [|c s IH]; cbn; [reflexivity|].
  f_equal; [apply upper_char_idem | exact IH].
Qed.

Lemma toUpperCase_toLowerCase (s : string) :
  toUpperCase (toLowerCase s) = toUpperCase s.
Proof.
  induction s as [|c s IH]; cbn; [reflexivity|].
  f_equal; [apply upper_lower_char | exact IH].
Qed.

Lemma getWeightClass_by_upper thresholds (s1 s2 : string) (bw : num) :
  toUpperCase s1 = toUpperCase s2 ->
  getWeightClass thresholds (VStr s1) bw
  = getWeightClass thresholds (VStr s2) bw.
Proof.
  intro H. unfold getWeightClass.
  assert (Ht : truthy (VStr s1) = truthy (VStr s2)).
  { destruct s1, s2; try reflexivity; discriminate H. }
  rewrite Ht. cbn [call_toUpperCase bind]. now rewrite H.
Qed.

(** X5.  [getWeightClass] does not tell the letter case of the sex: a sex
    code resolves as its upper-case and its lower-case forms do. *)
Theorem sex_case_insensitive thresholds (s : string) (bw : num) :
  getWeightClass thresholds (VStr (toUpperCase s)) bw
  = getWeightClass thresholds (VStr s) bw
  /\ getWeightClass thresholds (VStr (toLowerCase s)) bw
     = getWeightClass thresholds (VStr s) bw.
Proof.
  split; apply getWeightClass_by_upper.
  - apply toUpperCase_idem.
  - apply toUpperCase_toLowerCase.
Qed.

Lemma num_truthy_positive (q : Q) : (0 < q)%Q -> num_truthy (Num q) = true.
Proof.
  intro H. cbn. destruct (Qeq_bool q 0) eqn:E; [|reflexivity].
  apply Qeq_bool_eq in E. lra.
Qed.

(** X6.  Weight classes follow the bodyweight: of two bodyweights resolved
    against the same table, the heavier is never given a lower boundary,
    and once a bodyweight exceeds every boundary so does every heavier
    one, with the same result. *)
Theorem weight_class_monotone cfgs federation thresholds (s : string)
        (q1 q2 : Q) :
  buildThresholds cfgs federation = Ok thresholds ->
  s <> "" -> (0 < q1)%Q -> (q1 <= q2)%Q ->
  (forall w, In w (tableOf thresholds s) -> num_le (Num q2) w = true ->
     exists w1 w2,
       In w1 (tableOf thresholds s) /\ In w2 (tableOf thresholds s)
       /\ getWeightClass thresholds (VStr s) (Num q1) = Ok (num_to_string w1)
       /\ getWeightClass thresholds (VStr s) (Num q2) = Ok (num_to_string w2)
       /\ num_le w1 w2 = true)
  /\ ((forall w, In w (tableOf thresholds s) -> num_le (Num q1) w = false) ->
      getWeightClass thresholds (VStr s) (Num q2)
      = getWeightClass thresholds (VStr s) (Num q1)).
Proof.
  intros Hth Hs H1 H12.
  assert (H2 : (0 < q2)%Q) by lra.
  rewrite (getWeightClass_table _ _ _ s (Num q1) Hth Hs (num_truthy_positive _ H1)).
  rewrite (getWeightClass_table _ _ _ s (Num q2) Hth Hs (num_truthy_positive _ H2)).
  destruct (tableOf_sorted _ _ _ s Hth) as [Hsorted Hnum].
  pose proof (find_smallest (tableOf thresholds s) (Num q1) Hsorted Hnum) as F1.
  pose proof (find_smallest (tableOf thresholds s) (Num q2) Hsorted Hnum) as F2.
  split.
  - intros w Hw Hle.
    destruct (tableOf thresholds s) as [|x l] eqn:E; [contradiction|].
    destruct (find (fun w => num_le (Num q2) w) (x :: l)) as [w2|];
      [|specialize (F2 w Hw); congruence].
    destruct F2 as [Hin2 [Hle2 _]].
    assert (Hq1w2 : num_le (Num q1) w2 = true).
    { destruct w2 as [|y]; [discriminate|]. cbn in *.
      apply Qle_bool_iff in Hle2. apply Qle_bool_iff. lra. }
    destruct (find (fun w => num_le (Num q1) w) (x :: l)) as [w1|];
      [|specialize (F1 w2 Hin2); congruence].
    destruct F1 as [Hin1 [Hle1 Hmin]].
    exists w1, w2. repeat apply conj; auto.
  - intro Hall.
    destruct (tableOf thresholds s) as [|x l] eqn:E; [reflexivity|].
    destruct (find (fun w => num_le (Num q1) w) (x :: l)) as [w1|].
    { destruct F1 as [Hin1 [Hle1 _]]. specialize (Hall w1 Hin1). congruence. }
    destruct (find (fun w => num_le (Num q2) w) (x :: l)) as [w2|];
      [|reflexivity].
    destruct F2 as [Hin2 [Hle2 _]]. specialize (Hall w2 Hin2).
    destruct w2 as [|y]; [discriminate|]. cbn in *.
    apply Qle_bool_iff in Hle2.
    destruct (Qle_bool q1 y) eqn:C; [discriminate|].
    assert (Qle_bool q1 y = true) by (apply Qle_bool_iff; lra). congruence.
Qed.

Lemma weight_class_monotone_witness :
  exists thresholds w1 w2,
    buildThresholds bothSexes (VStr "IPF") = Ok thresholds
    /\ getWeightClass thresholds (VStr "Female") (Num 50) = Ok (num_to_string w1)
    /\ getWeightClass thresholds (VStr "Female") (Num 60) = Ok (num_to_string w2)
    /\ num_le w1 w2 = true.
Proof.
  assert (Hth : exists th, buildThresholds bothSexes (VStr "IPF") = Ok th)
    by (eexists; vm_compute; reflexivity).
  destruct Hth as [th Hth]. exists th.
  assert (Hs : "Female" <> "") by discriminate.
  assert (H1 : (0 < 50)%Q) by reflexivity.
  assert (H2 : (50 <= 60)%Q) by discriminate.
  destruct (proj1 (weight_class_monotone bothSexes (VStr "IPF") th "Female"
                     50 60 Hth Hs H1 H2) (Num 84))
    as (w1 & w2 & _ & _ & E1 & E2 & Hle).
  - vm_compute in Hth. inversion Hth. vm_compute. right. right. left.
    reflexivity.
  - reflexivity.
  - exists w1, w2. auto.
Defined.

(* ================================================================== *)
(** ** More on linking attempts *)
(* ================================================================== *)







Lemma encodeAttempt_typed (doc : value) :
  nullish (getv doc "result") = true \/ (exists r, getv doc "result" = VStr r) ->
  exists w, encodeAttempt doc = Ok w.
Proof.
  unfold encodeAttempt. intros [H | [r H]]; rewrite H; cbn; eauto.
Qed.

Lemma attemptRow_typed (row : value) :
  typedAttemptRow row ->
  forall acc, exists acc', attemptRow acc row = Ok acc'.
Proof.
  intros (doc & Hdoc & Hnn & Hid & Hname & Hres) [attempts lifters].
  unfold attemptRow. rewrite Hdoc. cbn [bind]. unfold prop. rewrite Hnn.
  cbn [bind].
  assert (Hb : exists b, (if truthy (getv doc "_id")
                          then call_startsWith (getv doc "_id") "a"
                          else Ok (getv doc "_id")) = Ok b
                         /\ (truthy (getv doc "_id") = false ->
                             truthy b = false)).
  { destruct Hid as [H | [s H]]; rewrite H.
    - destruct (getv doc "_id"); try discriminate; cbn; eauto.
    - cbn [truthy]. destruct (negb (s =? "")%string) eqn:E.
      + cbn. eexists. split; [reflexivity|]. discriminate.
      + eexists. split; [reflexivity|]. auto. }
  destruct Hb as [b [-> _]]. cbn [bind].
  destruct (truthy b && truthy (getv doc "lifterId")
            && truthy (getv doc "liftName")
            && truthy (getv doc "attemptNumber")) eqn:C; [|eauto].
  destruct (obj_get (to_string (getv doc "lifterId")) lifters) as [lifter|];
    [|eauto].
  assert (Hl : exists lifter', linkAttempt doc lifter = Ok lifter').
  { apply andb_prop in C. destruct C as [C _].
    apply andb_prop in C. destruct C as [_ Ht].
    destruct Hname as [H | (nm & d & H & Hd)]; [congruence|].
    unfold linkAttempt. rewrite H. cbn [call_toLowerCase bind].
    fold (liftTypeOf nm). rewrite Hd.
    destruct (num_ge _ _ && num_le _ _); [|eauto].
    destruct (encodeAttempt_typed doc Hres) as [w ->]. cbn [bind]. eauto. }
  destruct Hl as [lifter' ->]. cbn [bind]. eauto.
Qed.

Lemma linkRows_typed (rows : list value) :
  Forall typedAttemptRow rows ->
  forall attempts lifters,
  exists attempts', snd (linkRows rows attempts lifters) = Ok attempts'.
Proof.
  induction 1 as [|row rows Hrow _ IH]; intros attempts lifters; cbn [linkRows].
  - cbn. eauto.
  - destruct (attemptRow_typed row Hrow (attempts, lifters)) as [[a l] ->].
    apply IH.
Qed.

(** X8.  Over rows whose documents are present and typed as the feed
    types them (string identifiers, lift names that name a discipline,
    results that are strings or absent), [processAttempts] does not throw,
    whatever lifters it is given. *)
Theorem processAttempts_typed (rows : list value) (lifters : obj Lifter.t) :
  Forall typedAttemptRow rows ->
  exists attempts, snd (processAttempts rows lifters) = Ok attempts.
Proof. intro H. now apply linkRows_typed. Qed.

Lemma processAttempts_typed_witness :
  exists attempts,
    snd (processAttempts exampleRows
           [("l1", lifterWith "l1" 50 Lift.empty Lift.empty Lift.empty)])
    = Ok attempts.
Proof.
  apply processAttempts_typed.
  repeat constructor;
    (eexists; split; [reflexivity|]; split; [reflexivity|];
     split; [first [left; reflexivity | right; eexists; reflexivity]|];
     split; [first [left; reflexivity
                   | right; eexists; eexists; split; reflexivity]|];
     first [left; reflexivity | right; eexists; reflexivity]).
Defined.

Lemma declaredWeight_num (doc : value) : exists q, declaredWeight doc = Num q.
Proof.
  unfold declaredWeight, num_or0.
  destruct (parseFloat (getv doc "weight")) as [|q]; cbn;
    [exists 0%Q; reflexivity|].
  destruct (negb (Qeq_bool q 0)); [eauto | exists 0%Q; reflexivity].
Qed.

(** The class of a slot value, by its sign. *)
Lemma getAttemptClass_sign (q : Q) :
  ((q == 0)%Q -> getAttemptClass (Num q) = "attempt-pending")
  /\ ((0 < q)%Q -> getAttemptClass (Num q) = "attempt-good")
  /\ ((q < 0)%Q -> getAttemptClass (Num q) = "attempt-bad").
Proof.
  unfold getAttemptClass. cbn [num_eq num_gt num_lt zero].
  repeat apply conj; intro H.
  - now rewrite (Qeq_eq_bool _ _ H).
  - destruct (Qeq_bool q 0) eqn:E; [apply Qeq_bool_eq in E; lra|].
    assert (L : Qltb 0 q = true) by (now apply Qltb_lt). now rewrite L.
  - destruct (Qeq_bool q 0) eqn:E; [apply Qeq_bool_eq in E; lra|].
    assert (L : Qltb 0 q = false) by (apply Qltb_ge; lra). now rewrite L.
Qed.

Lemma neg_abs_sign (q : Q) :
  ((q == 0)%Q -> (- Qabs q == 0)%Q) /\ (~ (q == 0)%Q -> (- Qabs q < 0)%Q).
Proof.
  destruct (Qlt_le_dec q 0) as [C | C].
  - assert (A : (Qabs q == - q)%Q) by (apply Qabs_neg; lra).
    split; intro H; lra.
  - pose proof (Qabs_pos q C) as A. split; intro H; lra.
Qed.

(** What the client shows for a typed document, by result and weight. *)
Lemma shownClass_value (doc : value) (q : Q) :
  declaredWeight doc = Num q ->
  (nullish (getv doc "result") = true ->
   shownClass doc = Some "attempt-pending")
  /\ (forall r, getv doc "result" = VStr r -> toLowerCase r = "good" ->
      shownClass doc = Some (getAttemptClass (Num q)))
  /\ (forall r, getv doc "result" = VStr r -> toLowerCase r <> "good" ->
      shownClass doc = Some (getAttemptClass (Num (- Qabs q)))).
Proof.
  intro Hq. unfold shownClass. repeat apply conj.
  - intro H. now rewrite (encode_pending doc H).
  - intros r H G. rewrite (encode_good doc r H G). now rewrite Hq.
  - intros r H G. rewrite (encode_failed doc r H G). now rewrite Hq.
Qed.

(** X9.  From the document to the table cell.  With a result that is a
    string or absent, the client shows an attempt as pending exactly when
    the document has no result or declares no weight other than [0] (an
    unreadable weight counts as [0]); as good exactly when the result is
    good and the declared weight is positive; and as bad otherwise, so
    also for a good result with a negative weight. *)
Theorem shown_class (doc : value) :
  nullish (getv doc "result") = true \/ (exists r, getv doc "result" = VStr r) ->
  (shownClass doc = Some "attempt-pending"
   <-> nullish (getv doc "result") = true
       \/ num_eq (declaredWeight doc) zero = true)
  /\ (shownClass doc = Some "attempt-good"
      <-> goodResult doc /\ num_gt (declaredWeight doc) zero = true)
  /\ (shownClass doc = Some "attempt-bad"
      <-> nullish (getv doc "result") = false
          /\ num_eq (declaredWeight doc) zero = false
          /\ (goodResult doc -> num_gt (declaredWeight doc) zero = false)).
Proof.
  intro H. destruct (declaredWeight_num doc) as [q Hq].
  destruct (shownClass_value doc q Hq) as [Vp [Vg Vb]].
  destruct (getAttemptClass_sign q) as [Cz [Cp Cn]].
  destruct (getAttemptClass_sign (- Qabs q)) as [Az [_ An]].
  destruct (neg_abs_sign q) as [Nz Nn].
  rewrite Hq. unfold goodResult. cbn [num_eq num_gt num_lt zero].
  destruct H as [H | [r H]].
  - rewrite (Vp H), H.
    assert (NG : ~ (exists r0, getv doc "result" = VStr r0
                               /\ toLowerCase r0 = "good")).
    { intros [r0 [E _]]. rewrite E in H. discriminate H. }
    repeat apply conj; intro X; try discriminate X; auto.
    + destruct X as [X _]. contradiction.
    + destruct X as [X _]. discriminate X.
  - assert (Hn : nullish (getv doc "result") = false) by (now rewrite H).
    rewrite Hn.
    destruct (string_dec (toLowerCase r) "good") as [G | G].
    + rewrite (Vg r H G).
      assert (IG : exists r0, getv doc "result" = VStr r0
                              /\ toLowerCase r0 = "good") by eauto.
      destruct (Qlt_le_dec 0 q) as [P | P].
      * rewrite (Cp P).
        assert (E0 : Qeq_bool q 0 = false)
          by (destruct (Qeq_bool q 0) eqn:E;
              [apply Qeq_bool_eq in E; lra | reflexivity]).
        assert (L : Qltb 0 q = true) by (now apply Qltb_lt).
        rewrite E0, L.
        repeat apply conj; intro X; try discriminate X; auto.
        -- destruct X as [X | X]; discriminate X.
        -- destruct X as [_ [_ X]]. specialize (X IG). discriminate X.
      * assert (L : Qltb 0 q = false) by (now apply Qltb_ge).
        rewrite L.
        destruct (Qeq_dec q 0) as [E | E].
        -- rewrite (Cz E). rewrite (Qeq_eq_bool _ _ E).
           repeat apply conj; intro X; try discriminate X; auto.
           ++ destruct X as [_ X]. discriminate X.
           ++ destruct X as [_ [X _]]. discriminate X.
        -- rewrite (Cn ltac:(lra)).
           assert (E0 : Qeq_bool q 0 = false)
             by (destruct (Qeq_bool q 0) eqn:E';
                 [apply Qeq_bool_eq in E'; contradiction | reflexivity]).
           rewrite E0.
           repeat apply conj; intro X; try discriminate X; auto.
           ++ destruct X as [X | X]; discriminate X.
           ++ destruct X as [_ X]. discriminate X.
    + rewrite (Vb r H G).
      assert (NG : ~ (exists r0, getv doc "result" = VStr r0
                                 /\ toLowerCase r0 = "good")).
      { intros [r0 [E C]]. rewrite H in E. inversion E; subst. contradiction. }
      destruct (Qeq_dec q 0) as [E | E].
      * rewrite (Az (Nz E)). rewrite (Qeq_eq_bool _ _ E).
        repeat apply conj; intro X; try discriminate X; auto.
        -- destruct X as [X _]. contradiction.
        -- destruct X as [_ [X _]]. discriminate X.
      * rewrite (An (Nn E)).
        assert (E0 : Qeq_bool q 0 = false)
          by (destruct (Qeq_bool q 0) eqn:E';
              [apply Qeq_bool_eq in E'; contradiction | reflexivity]).
        rewrite E0.
        repeat apply conj; intro X; try discriminate X; auto.
        -- destruct X as [X | X]; discriminate X.
        -- destruct X as [X _]. contradiction.
        -- repeat split; auto. intro C. contradiction.
Qed.

Lemma shown_class_witness :
  shownClass (attemptDoc "a1" "l1" "squat" "1" 0 (VStr "bad"))
  = Some "attempt-pending".
Proof.
  apply (shown_class (attemptDoc "a1" "l1" "squat" "1" 0 (VStr "bad"))).
  - right. eexists. reflexivity.
  - right. reflexivity.
Defined.





(** X11.  Of two linked attempts for the same slot of the same lifter,
    the one that comes later in the feed stands: the slot holds its
    encoding. *)
Theorem later_attempt_stands attempts lifters row1 doc1 row2 doc2 lifter d n
        (w1 w2 : num) :
  linkedAttempt lifters row1 doc1 lifter d n ->
  linkedAttempt lifters row2 doc2 lifter d n ->
  to_string (getv doc1 "lifterId") = to_string (getv doc2 "lifterId") ->
  encodeAttempt doc1 = Ok w1 -> encodeAttempt doc2 = Ok w2 ->
  option_map (fun l => Lift.slot n (Lifter.lift d l))
    (obj_get (to_string (getv doc2 "lifterId"))
       (fst (linkRows [row1; row2] attempts lifters)))
  = Some w2.
Proof.
  intros L1 L2 Hkey E1 E2.
  pose proof (attemptRow_linked attempts lifters row1 doc1 lifter d n w1 L1 E1)
    as W1.
  unfold writtenSlot in W1. cbn [linkRows].
  destruct (attemptRow (attempts, lifters) row1) as [[a1 l1]|]; [|discriminate].
  rewrite Hkey in W1.
  destruct (obj_get (to_string (getv doc2 "lifterId")) l1) as [lifter1|] eqn:G;
    [|discriminate].
  assert (L2' : linkedAttempt l1 row2 doc2 lifter1 d n).
  { destruct L2 as (A & B & C & _ & D). repeat split; try tauto. }
  pose proof (attemptRow_linked a1 l1 row2 doc2 lifter1 d n w2 L2' E2) as W2.
  unfold writtenSlot in W2.
  destruct (attemptRow (a1, l1) row2) as [[a2 l2]|]; [|discriminate].
  exact W2.
Qed.

Lemma later_attempt_stands_witness :
  let lifter := lifterWith "l1" 80 Lift.empty Lift.empty Lift.empty in
  let first := attemptDoc "a1" "l1" "squat" "1" 100 (VStr "good") in
  let second := attemptDoc "a1b" "l1" "Squat" "1" 100 (VStr "bad") in
  option_map (fun l => Lift.slot 1 (Lifter.lift Squat l))
    (obj_get "l1" (fst (linkRows [rowOf first; rowOf second] []
                          [("l1", lifter)])))
  = Some (Num (-100)).
Proof.
  intros lifter first second.
  assert (L1 : linkedAttempt [("l1", lifter)] (rowOf first) first lifter
                 Squat 1%nat).
  { repeat split; try reflexivity; try lia; eexists; split; reflexivity. }
  assert (L2 : linkedAttempt [("l1", lifter)] (rowOf second) second lifter
                 Squat 1%nat).
  { repeat split; try reflexivity; try lia; eexists; split; reflexivity. }
  exact (later_attempt_stands [] [("l1", lifter)] _ _ _ _ lifter Squat 1%nat
           (Num 100) (Num (-100)) L1 L2 eq_refl eq_refl eq_refl).
Defined.

(* ================================================================== *)
(** ** What scoring leaves alone, and the places of a group *)
(* ================================================================== *)

Lemma withoutBests_scoreLifter (l : Lifter.t) :
  withoutBests (scoreLifter l) = withoutBests l.
Proof. destruct l. reflexivity. Qed.

Lemma place_scoreLifter (l : Lifter.t) :
  Lifter.place (scoreLifter l) = Lifter.place l.
Proof. destruct l. reflexivity. Qed.

Lemma calculatePlacings_keys (lifters : obj Lifter.t) :
  obj_keys (calculatePlacings lifters) = obj_keys lifters.
Proof.
  pose proof (unplaced_calculatePlacings lifters) as H.
  apply (f_equal obj_keys) in H. unfold unplacedAll, obj_keys in H.
  rewrite !map_map in H. exact H.
Qed.

(** X12.  Scoring keeps the lifters, their keys and their order:
    [calculateBestLifts] changes nothing of a lifter but the bests and the
    total, [calculatePlacings] nothing but the place. *)
Theorem scoring_frame (lifters : obj Lifter.t) :
  withoutBestsAll (calculateBestLifts lifters) = withoutBestsAll lifters
  /\ map (fun kl => Lifter.place (snd kl)) (calculateBestLifts lifters)
     = map (fun kl => Lifter.place (snd kl)) lifters
  /\ unplacedAll (calculatePlacings lifters) = unplacedAll lifters
  /\ obj_keys (score lifters) = obj_keys lifters.
Proof.
  repeat apply conj.
  - unfold withoutBestsAll, calculateBestLifts. rewrite map_map.
    apply map_ext. intros [k l]. cbn [fst snd].
    now rewrite withoutBests_scoreLifter.
  - unfold calculateBestLifts. rewrite map_map.
    apply map_ext. intros [k l]. cbn [fst snd]. apply place_scoreLifter.
  - apply unplaced_calculatePlacings.
  - unfold score. rewrite calculatePlacings_keys.
    unfold calculateBestLifts, obj_keys. rewrite map_map. reflexivity.
Qed.

Lemma map_fst_indexed {A : Type} (l : list A) :
  map fst (indexed l) = seq 0 (List.length l).
Proof.
  unfold indexed. generalize 0%nat.
  induction l as [|x l IH]; intro s; cbn; [reflexivity|].
  now rewrite IH.
Qed.

Lemma indexed_NoDup {A : Type} (l : list A) : NoDup (indexed l).
Proof.
  apply (NoDup_map_inv fst). rewrite map_fst_indexed. apply seq_NoDup.
Qed.

Lemma NoDup_concat_In {A : Type} (gs : list (list A)) (g : list A) :
  NoDup (List.concat gs) -> In g gs -> NoDup g.
Proof.
  induction gs as [|g0 gs IH]; cbn; [intros _ []|].
  intros H [-> | Hin].
  - now apply NoDup_app_remove_r in H.
  - apply IH; [|exact Hin]. now apply NoDup_app_remove_l in H.
Qed.

Lemma group_NoDup (arr : list Lifter.t) k g :
  In (k, g) (groupsOf arr) -> NoDup g.
Proof.
  intro Hin. destruct (groupsOf_grouped arr) as [_ [_ Hperm]].
  apply (NoDup_concat_In (obj_values (groupsOf arr))).
  - apply (Permutation_NoDup (Permutation_sym Hperm)). apply indexed_NoDup.
  - unfold obj_values. apply in_map_iff. now exists (k, g).
Qed.

(** A lifter sits at one index of its sorted group. *)
Lemma sorted_group_index (arr : list Lifter.t) k g p q r :
  In (k, g) (groupsOf arr) ->
  nth_error (sort rankedBefore g) p = Some r ->
  nth_error (sort rankedBefore g) q = Some r ->
  p = q.
Proof.
  intros Hin Hp Hq.
  assert (Hnd : NoDup (sort rankedBefore g)).
  { apply (Permutation_NoDup (sort_perm rankedBefore g)).
    now apply (group_NoDup arr k). }
  rewrite NoDup_nth_error in Hnd. apply Hnd.
  - apply nth_error_Some. congruence.
  - congruence.
Qed.

Lemma groupKey_placed index l : groupKey (placed index l) = groupKey l.
Proof. reflexivity. Qed.

(** The lifter at an index of a sorted group of the scored lifters is, in
    the result, that lifter with the place of the index. *)
Lemma score_position (lifters : obj Lifter.t) k g index j b0 :
  In (k, g) (groupsOf (obj_values (calculateBestLifts lifters))) ->
  nth_error (sort rankedBefore g) index = Some (j, b0) ->
  groupKey b0 = k
  /\ exists kb, nth_error (score lifters) j = Some (kb, placed index b0).
Proof.
  intros Hg Hn.
  assert (Hin : In (j, b0) g).
  { apply nth_error_In in Hn.
    exact (Permutation_in _ (Permutation_sym (sort_perm _ g)) Hn). }
  pose proof (groupsOf_members _ _ _ _ Hg Hin) as Harr. cbn [fst snd] in Harr.
  destruct (groupsOf_grouped (obj_values (calculateBestLifts lifters)))
    as [Hnd [Hkey _]].
  pose proof (Hkey _ _ Hg) as Hk. rewrite Forall_forall in Hk.
  specialize (Hk _ Hin). cbn [snd] in Hk. split; [exact Hk|].
  assert (Hlt : (j < List.length (score lifters))%nat).
  { unfold score. rewrite calculatePlacings_length.
    assert (H : (j < List.length (obj_values (calculateBestLifts lifters)))%nat)
      by (apply nth_error_Some; congruence).
    unfold obj_values in H. now rewrite length_map in H. }
  destruct (nth_error (score lifters) j) as [[kb b']|] eqn:E;
    [|apply nth_error_None in E; lia].
  destruct (score_nth _ _ _ _ E) as (l0 & g' & index' & Hl0 & Hg' & Hn' & ->).
  assert (Hin' : In (j, scoreLifter l0) g').
  { apply nth_error_In in Hn'.
    exact (Permutation_in _ (Permutation_sym (sort_perm _ g')) Hn'). }
  pose proof (groupsOf_members _ _ _ _ Hg' Hin') as Harr'.
  cbn [fst snd] in Harr'. rewrite Harr in Harr'. inversion Harr'; subst b0.
  rewrite <- Hk in Hg.
  pose proof (NoDup_keys_functional _ _ _ _ Hnd Hg Hg'). subst g'.
  assert (index = index')
    by (eapply sorted_group_index; [exact Hg | exact Hn | exact Hn']).
  subst index'. eauto.
Qed.

(** X13.  After a scoring pass the places of a group are 1, 2, ... without
    a repeat or a gap: a place is at least 1, no two lifters of a group hold
    the same place, and below the place of a lifter every place is held by a
    lifter of its group. *)
Theorem places_consecutive (lifters : obj Lifter.t) i ka a p :
  nth_error (score lifters) i = Some (ka, a) ->
  Lifter.place a = Some p ->
  (1 <= p)%nat
  /\ (forall j kb b,
        nth_error (score lifters) j = Some (kb, b) ->
        groupKey b = groupKey a -> Lifter.place b = Some p -> j = i)
  /\ (forall q, (1 <= q < p)%nat ->
        exists j kb b,
          nth_error (score lifters) j = Some (kb, b)
          /\ groupKey b = groupKey a /\ Lifter.place b = Some q).
Proof.
  intros Hi Hp.
  destruct (score_nth _ _ _ _ Hi) as (la & g & ia & _ & Hg & Hia & ->).
  apply placed_place in Hp. destruct Hp as [-> Hpos].
  rewrite groupKey_placed.
  destruct (groupsOf_grouped (obj_values (calculateBestLifts lifters)))
    as [Hnd _].
  repeat apply conj.
  - lia.
  - intros j kb b Hj Hk Hpb.
    destruct (score_nth _ _ _ _ Hj) as (lb & gb & ib & _ & Hgb & Hib & ->).
    apply placed_place in Hpb. destruct Hpb as [Hib' _].
    rewrite groupKey_placed in Hk. rewrite Hk in Hgb.
    pose proof (NoDup_keys_functional _ _ _ _ Hnd Hg Hgb). subst gb.
    assert (ib = ia) by lia. subst ib. congruence.
  - intros q Hq.
    assert (Hlen : (q - 1 < List.length (sort rankedBefore g))%nat).
    { assert (ia < List.length (sort rankedBefore g))%nat
        by (apply nth_error_Some; congruence).
      lia. }
    destruct (nth_error (sort rankedBefore g) (q - 1)) as [[j b0]|] eqn:E;
      [|apply nth_error_None in E; lia].
    destruct (score_position _ _ _ _ _ _ Hg E) as [Hk [kb Hj]].
    exists j, kb, (placed (q - 1) b0). repeat apply conj.
    + exact Hj.
    + now rewrite groupKey_placed.
    + assert (HP : Forall hasTotal g).
      { apply Forall_forall. intros r Hr.
        destruct (scored_members _ _ _ _ Hg Hr) as [k0 [l0 [_ E0]]].
        unfold hasTotal. rewrite E0.
        destruct (scoreLifter_total_num l0) as [t [Ht _]]. eauto. }
      pose proof (sorted_by_total g HP) as Hs.
      assert (Hlt : (q - 1 < ia)%nat) by lia.
      pose proof (StronglySorted_nth _ _ Hs (q - 1)%nat ia _ _ Hlt E Hia) as Hle.
      unfold totalNotBelow, num_ge, num_le in Hle. cbn [snd] in Hle.
      unfold placed.
      assert (Hb : num_gt (Lifter.total b0) zero = true).
      { unfold num_gt, num_lt, zero in *.
        destruct (Lifter.total (scoreLifter la)); [discriminate|].
        destruct (Lifter.total b0); [discriminate|].
        apply Qltb_lt in Hpos. apply Qle_bool_iff in Hle. apply Qltb_lt. lra. }
      rewrite Hb. cbn. f_equal. lia.
Qed.

Lemma places_consecutive_witness :
  exists a,
    nth_error (score exampleGroup) 2 = Some ("l3", a)
    /\ Lifter.place a = Some 1%nat
    /\ forall j kb b,
         nth_error (score exampleGroup) j = Some (kb, b) ->
         groupKey b = groupKey a -> Lifter.place b = Some 1%nat -> j = 2%nat.
Proof.
  eexists. split; [reflexivity|]. split; [reflexivity|].
  exact (proj1 (proj2 (places_consecutive exampleGroup 2 "l3" _ 1
                         eq_refl eq_refl))).
Defined.

(* ================================================================== *)
(** ** Ties in a group *)
(* ================================================================== *)

Lemma StronglySorted_snoc {A : Type} (R : A -> A -> Prop) (l : list A) (x : A) :
  StronglySorted R l -> Forall (fun a => R a x) l ->
  StronglySorted R (l ++ [x]).
Proof.
  induction 1 as [|y l Hs IH Hy]; intro Hx; cbn.
  - repeat constructor.
  - inversion Hx; subst. constructor; [auto|].
    apply Forall_app. split; [exact Hy|]. now repeat constructor.
Qed.

(** Grouping appends: a group lists its members in the order of the
    feed. *)
Lemma addToGroup_earlier (groups : obj (list lifterRef)) (s : nat) (x : Lifter.t) :
  (forall k g, In (k, g) groups ->
     StronglySorted earlier g /\ Forall (fun r => (fst r < s)%nat) g) ->
  forall k g, In (k, g) (addToGroup groups (s, x)) ->
    StronglySorted earlier g /\ Forall (fun r => (fst r < S s)%nat) g.
Proof.
  intros Inv k g Hin. unfold addToGroup in Hin. cbn [snd] in Hin.
  apply obj_set_In in Hin. destruct Hin as [[-> ->] | Hin].
  - assert (H : StronglySorted earlier
                  (match obj_get (groupKey x) groups with
                   | Some g => g | None => [] end)
                /\ Forall (fun r => (fst r < s)%nat)
                     (match obj_get (groupKey x) groups with
                      | Some g => g | None => [] end)).
    { unfold obj_get. destruct (lookup (groupKey x) groups) as [g|] eqn:E.
      - apply lookup_In in E. eauto.
      - split; constructor. }
    destruct H as [Hs Hb]. split.
    + apply StronglySorted_snoc; [exact Hs|]. exact Hb.
    + apply Forall_app. split.
      * eapply Forall_impl; [|exact Hb]. cbn. intros; lia.
      * constructor; [cbn; lia | constructor].
  - destruct (Inv _ _ Hin) as [Hs Hb]. split; [exact Hs|].
    eapply Forall_impl; [|exact Hb]. cbn. intros; lia.
Qed.

Lemma fold_addToGroup_earlier (l : list Lifter.t) : forall s groups,
  (forall k g, In (k, g) groups ->
     StronglySorted earlier g /\ Forall (fun r => (fst r < s)%nat) g) ->
  forall k g,
    In (k, g) (fold_left addToGroup (combine (seq s (List.length l)) l) groups) ->
    StronglySorted earlier g.
Proof.
  induction l as [|x l IH]; intros s groups Inv k g Hin; cbn in Hin.
  - now apply (Inv k g).
  - apply (IH (S s) (addToGroup groups (s, x))
              (addToGroup_earlier groups s x Inv) k g Hin).
Qed.

Lemma group_earlier (arr : list Lifter.t) k g :
  In (k, g) (groupsOf arr) -> StronglySorted earlier g.
Proof.
  apply (fold_addToGroup_earlier arr 0 []). intros ? ? [].
Qed.

(** With numeric totals and bodyweights the comparison is an order: what
    is not ranked after is transitive. *)
Lemma notAfter_trans (x y z : lifterRef) :
  hasWeights x -> hasWeights y -> hasWeights z ->
  notAfter x y -> notAfter y z -> notAfter x z.
Proof.
  unfold notAfter.
  intros [[tx Hx] [wx Hwx]] [[ty Hy] [wy Hwy]] [[tz Hz] [wz Hwz]] H1 H2.
  destruct (rankedBefore z x) eqn:E; [|reflexivity].
  apply (rankedBefore_spec z x tz tx wz wx Hz Hx Hwz Hwx) in E.
  assert (N1 : ~ (tx < ty \/ (ty == tx /\ wy < wx))%Q).
  { intro C. apply (rankedBefore_spec y x ty tx wy wx Hy Hx Hwy Hwx) in C.
    congruence. }
  assert (N2 : ~ (ty < tz \/ (tz == ty /\ wz < wy))%Q).
  { intro C. apply (rankedBefore_spec z y tz ty wz wy Hz Hy Hwz Hwy) in C.
    congruence. }
  exfalso.
  destruct (Qlt_le_dec tx ty); [apply N1; now left|].
  destruct (Qlt_le_dec ty tz); [apply N2; now left|].
  destruct (Qlt_le_dec wy wx).
  - destruct (Qeq_dec ty tx); [apply N1; right; lra|].
    destruct E as [E | E]; lra.
  - destruct (Qlt_le_dec wz wy).
    + destruct (Qeq_dec tz ty); [apply N2; right; lra|].
      destruct E as [E | E]; lra.
    + destruct E as [E | E]; lra.
Qed.

Lemma rankedBefore_asym (x y : lifterRef) :
  hasWeights x -> hasWeights y ->
  rankedBefore y x = true -> rankedBefore x y = false.
Proof.
  intros [[tx Hx] [wx Hwx]] [[ty Hy] [wy Hwy]] H.
  apply (rankedBefore_spec y x ty tx wy wx Hy Hx Hwy Hwx) in H.
  destruct (rankedBefore x y) eqn:E; [|reflexivity].
  apply (rankedBefore_spec x y tx ty wx wy Hx Hy Hwx Hwy) in E. lra.
Qed.

(** The sort is stable: inserting a lifter that comes earlier in the feed
    than all of a sorted group puts it ahead of those it ties with. *)
Lemma insert_feedOrder (x : lifterRef) (s : list lifterRef) :
  hasWeights x -> Forall hasWeights s -> Forall (earlier x) s ->
  StronglySorted feedOrder s ->
  StronglySorted feedOrder (insert rankedBefore x s).
Proof.
  intros Hx. induction s as [|y s IH]; intros HP He Hs; cbn.
  - repeat constructor.
  - inversion HP as [|? ? Hy HP']; subst.
    inversion He as [|? ? Hey He']; subst.
    inversion Hs as [|? ? Hs' Hys]; subst.
    destruct (rankedBefore y x) eqn:E.
    + constructor; [auto|].
      apply Forall_forall. intros z Hz.
      apply (Permutation_in _ (Permutation_sym (insert_perm rankedBefore x s)))
        in Hz.
      destruct Hz as [<- | Hz].
      * split; [now apply rankedBefore_asym | congruence].
      * rewrite Forall_forall in Hys. auto.
    + constructor; [exact Hs|].
      constructor.
      * split; [exact E | intros _; exact Hey].
      * apply Forall_forall. intros z Hz.
        rewrite Forall_forall in Hys, He', HP'. split.
        -- apply (notAfter_trans x y z Hx Hy (HP' z Hz) E).
           exact (proj1 (Hys z Hz)).
        -- intros _. exact (He' z Hz).
Qed.

Lemma sort_feedOrder (g : list lifterRef) :
  Forall hasWeights g -> StronglySorted earlier g ->
  StronglySorted feedOrder (sort rankedBefore g).
Proof.
  induction g as [|x g IH]; intros HP Hs; cbn; [constructor|].
  inversion HP; subst. inversion Hs; subst.
  apply insert_feedOrder; auto.
  - apply Forall_forall. intros z Hz.
    apply (Permutation_in _ (Permutation_sym (sort_perm rankedBefore g))) in Hz.
    rewrite Forall_forall in H2. auto.
  - apply Forall_forall. intros z Hz.
    apply (Permutation_in _ (Permutation_sym (sort_perm rankedBefore g))) in Hz.
    rewrite Forall_forall in H4. auto.
Qed.

(** X14.  Ties keep the order of the feed: of two placed lifters of one
    group with the same total and the same bodyweight, the one that comes
    first in the feed holds the smaller place, when the bodyweights of the
    lifters of that group are numbers. *)
Theorem ties_keep_feed_order (lifters : obj Lifter.t) i j ka kb a b pa pb :
  (forall k l, In (k, l) lifters -> groupKey l = groupKey a ->
               isNaN (Lifter.bodyweight l) = false) ->
  nth_error (score lifters) i = Some (ka, a) ->
  nth_error (score lifters) j = Some (kb, b) ->
  groupKey a = groupKey b ->
  Lifter.place a = Some pa -> Lifter.place b = Some pb ->
  num_eq (Lifter.total a) (Lifter.total b) = true ->
  num_eq (Lifter.bodyweight a) (Lifter.bodyweight b) = true ->
  (i < j)%nat ->
  (pa < pb)%nat.
Proof.
  intros Hbw Hi Hj Hk Hpa Hpb Ht Hw Hij.
  destruct (score_nth _ _ _ _ Hi) as (la & ga & ia & _ & Hga & Hia & ->).
  destruct (score_nth _ _ _ _ Hj) as (lb & gb & ib & _ & Hgb & Hib & ->).
  apply placed_place in Hpa. destruct Hpa as [-> _].
  apply placed_place in Hpb. destruct Hpb as [-> _].
  rewrite !groupKey_placed in Hk. rewrite Hk in Hga.
  destruct (groupsOf_grouped (obj_values (calculateBestLifts lifters)))
    as [Hnd [Hkey _]].
  pose proof (Hkey _ _ Hga) as Hmem. rewrite Forall_forall in Hmem.
  pose proof (NoDup_keys_functional _ _ _ _ Hnd Hga Hgb). subst gb.
  change (num_eq (Lifter.total (scoreLifter la)) (Lifter.total (scoreLifter lb))
          = true) in Ht.
  change (num_eq (Lifter.bodyweight (scoreLifter la))
                 (Lifter.bodyweight (scoreLifter lb)) = true) in Hw.
  assert (HP : Forall hasWeights ga).
  { apply Forall_forall. intros r Hr.
    destruct (scored_members _ _ _ _ Hga Hr) as [k0 [l0 [Hin E]]].
    pose proof (Hmem r Hr) as Hm. rewrite E in Hm.
    change (groupKey (scoreLifter l0)) with (groupKey l0) in Hm.
    unfold hasWeights. rewrite E. split.
    - destruct (scoreLifter_total_num l0) as [q [Hq _]]. eauto.
    - change (Lifter.bodyweight (scoreLifter l0)) with (Lifter.bodyweight l0).
      assert (Hg : groupKey l0 = groupKey (placed ia (scoreLifter la)))
        by (rewrite groupKey_placed, Hk; exact Hm).
      specialize (Hbw _ _ Hin Hg).
      destruct (Lifter.bodyweight l0); [discriminate|]. eauto. }
  pose proof (sort_feedOrder ga HP (group_earlier _ _ _ Hga)) as Hs.
  assert (Htie : rankedBefore (j, scoreLifter lb) (i, scoreLifter la) = false).
  { unfold rankedBefore, compareLifters. cbn [snd].
    unfold num_eq in Ht, Hw |- *.
    destruct (Lifter.total (scoreLifter la)) as [|ta],
             (Lifter.total (scoreLifter lb)) as [|tb]; try discriminate.
    destruct (Lifter.bodyweight (scoreLifter la)) as [|wa],
             (Lifter.bodyweight (scoreLifter lb)) as [|wb]; try discriminate.
    rewrite Ht. cbn. apply Qeq_bool_eq in Hw. apply Qltb_ge. lra. }
  destruct (Nat.lt_trichotomy ia ib) as [H | [H | H]]; [lia | |].
  - exfalso. subst ib. rewrite Hia in Hib. inversion Hib. lia.
  - exfalso.
    pose proof (StronglySorted_nth _ _ Hs ib ia _ _ H Hib Hia) as [_ Hord].
    specialize (Hord Htie). cbn [fst] in Hord. lia.
Qed.

Lemma ties_keep_feed_order_witness :
  let first := lifterWith "l7" 80 (slotsOf 100 0 0) (slotsOf 0 0 0)
                 (slotsOf 0 0 0) in
  let second := lifterWith "l4" 80 (slotsOf 0 0 0) (slotsOf 100 0 0)
                  (slotsOf 0 0 0) in
  let twins := [("l7", first); ("l4", second)] in
  nth_error (score twins) 0 = Some ("l7", placed 0 (scoreLifter first))
  /\ nth_error (score twins) 1 = Some ("l4", placed 1 (scoreLifter second))
  /\ Lifter.place (placed 0 (scoreLifter first)) = Some 1%nat
  /\ Lifter.place (placed 1 (scoreLifter second)) = Some 2%nat
  /\ (1 < 2)%nat.
Proof.
  intros first second twins.
  repeat apply conj; [reflexivity | reflexivity | reflexivity | reflexivity |].
  apply (ties_keep_feed_order twins 0 1 "l7" "l4"
           (placed 0 (scoreLifter first)) (placed 1 (scoreLifter second)) 1 2).
  - intros k l [H | [H | []]] _; inversion H; reflexivity.
  - reflexivity.
  - reflexivity.
  - reflexivity.
  - reflexivity.
  - reflexivity.
  - reflexivity.
  - reflexivity.
  - lia.
Defined.

(* ================================================================== *)
(** ** Lights, platform by platform *)
(* ================================================================== *)

Lemma platformLights_own (localeCompare : string -> string -> comparison)
      (referees : obj Referee.t) (platform : Platform.t) :
  (forall i r, seatedAt referees platform i r -> hasLabel r)
  \/ (forall i r i' r', seatedAt referees platform i r ->
                        seatedAt referees platform i' r' -> i = i') ->
  exists seats : list (nat * Referee.t),
    NoDup (map fst seats)
    /\ (forall i r, In (i, r) seats <-> seatedAt referees platform i r)
    /\ platformLights localeCompare referees platform
       = Ok (seatedLights (map snd seats)).
Proof.
  destruct (refereesOf_seats referees platform) as [seats [E [Hnd Hseats]]].
  unfold platformLights. rewrite E. intros [Hlab | Hone].
  - assert (HP : Forall hasLabel (map snd seats)).
    { apply Forall_forall. intros r Hr. apply in_map_iff in Hr.
      destruct Hr as [[i r'] [<- Hin]]. apply (Hlab i). now apply Hseats. }
    rewrite (sortM_pure _ (labelBefore localeCompare) hasLabel _
               (positionBefore_labelBefore localeCompare) HP).
    rewrite (sort_map (seatBefore localeCompare) (labelBefore localeCompare)
               snd) by reflexivity.
    pose proof (sort_perm (seatBefore localeCompare) seats) as Hperm.
    cbn [bind]. exists (sort (seatBefore localeCompare) seats).
    split; [|split; [|reflexivity]].
    + apply (Permutation_NoDup (Permutation_map fst Hperm) Hnd).
    + intros i r. rewrite <- Hseats. split; apply Permutation_in;
        [symmetry; exact Hperm | exact Hperm].
  - destruct seats as [|[i r] [|[i' r'] rest]].
    + exists []. split; [constructor|]. split; [exact Hseats | reflexivity].
    + exists [(i, r)]. split; [exact Hnd|]. split; [exact Hseats | reflexivity].
    + exfalso. cbn in Hnd. inversion Hnd as [|? ? Hnin _]; subst.
      apply Hnin. left. symmetry.
      apply (Hone i r i' r'); apply Hseats; cbn; auto.
Qed.

(** X15.  The lights of a platform depend on the referees seated at it
    only.  Whatever the locale's comparison is, [processRefereeLights]
    completes when at every platform either all the referees seated there
    have a string position or at most one referee is seated; each platform
    keeps its key and its other fields, and its lights are the
    [decision === "good"] flags of the referees seated at it, every one and
    each once.  Referees of no platform are never looked at. *)
Theorem lights_of_own_referees (localeCompare : string -> string -> comparison)
        (platforms : obj Platform.t) (referees : obj Referee.t) :
  (forall k p, In (k, p) platforms ->
     (forall i r, seatedAt referees p i r -> hasLabel r)
     \/ (forall i r i' r', seatedAt referees p i r ->
                           seatedAt referees p i' r' -> i = i')) ->
  exists platforms',
    processRefereeLights localeCompare platforms referees = (platforms', Ok tt)
    /\ Forall2 (fun kp kp' =>
                  fst kp' = fst kp
                  /\ exists seats : list (nat * Referee.t),
                       NoDup (map fst seats)
                       /\ (forall i r, In (i, r) seats
                                       <-> seatedAt referees (snd kp) i r)
                       /\ snd kp'
                          = Platform.set_lights (seatedLights (map snd seats))
                                                (snd kp))
               platforms platforms'.
Proof.
  induction platforms as [|[k p] rest IH]; intro H; cbn.
  - exists []. split; [reflexivity | constructor].
  - destruct (platformLights_own localeCompare referees p
                (H k p (or_introl eq_refl)))
      as [seats [Hnd [Hseats E]]].
    rewrite E.
    destruct IH as [rest' [Er Hr]]; [intros; apply (H k0); now right|].
    rewrite Er. eexists. split; [reflexivity|].
    constructor; [|exact Hr]. cbn. split; [reflexivity|]. eauto.
Qed.

Lemma lights_of_own_referees_witness :
  let platform := Platform.mk "p1" (VStr "A") zero VUndef VUndef VUndef [] in
  let referees :=
    [("r1", Referee.mk "r1" (VStr "p1") (VNum 2) (VStr "good") VUndef);
     ("r2", Referee.mk "r2" (VStr "p9") VNull (VStr "bad") VUndef);
     ("r3", Referee.mk "r3" (VStr "p9") VNull (VStr "good") VUndef)] in
  processRefereeLights String.compare [("p1", platform)] referees
  = ([("p1", Platform.set_lights [true] platform)], Ok tt)
  /\ exists platforms',
       processRefereeLights String.compare [("p1", platform)] referees
       = (platforms', Ok tt)
       /\ Forall2 (fun kp kp' =>
                     fst kp' = fst kp
                     /\ exists seats : list (nat * Referee.t),
                          NoDup (map fst seats)
                          /\ (forall i r, In (i, r) seats
                                          <-> seatedAt referees (snd kp) i r)
                          /\ snd kp'
                             = Platform.set_lights
                                 (seatedLights (map snd seats)) (snd kp))
                  [("p1", platform)] platforms'.
Proof.
  intros platform referees. split; [reflexivity|].
  apply (lights_of_own_referees String.compare [("p1", platform)] referees).
  intros k p [H | []]. inversion H; subst. right.
  assert (Hfirst : forall i r, seatedAt referees platform i r -> i = 0%nat).
  { intros i r [[k1 H1] P1].
    destruct i as [|[|[|i]]]; cbn in H1;
      [reflexivity
      | inversion H1; subst; discriminate P1
      | inversion H1; subst; discriminate P1
      | destruct i; discriminate H1]. }
  intros i r i' r' S1 S2.
  now rewrite (Hfirst i r S1), (Hfirst i' r' S2).
Defined.

(* ================================================================== *)
(** ** A completed cycle *)
(* ================================================================== *)

Ltac simpl_state :=
  cbn [setDivisions setMeetInfo setPlatforms setReferees setLifters
       setAttempts setLastUpdate MeetData.lifters MeetData.attempts
       MeetData.divisions MeetData.platforms MeetData.referees
       MeetData.meetInfo MeetData.federation MeetData.meetId
       MeetData.lastUpdate].

(** What a cycle that completes has built. *)
Lemma processRows_returned (federationConfigs : obj FedConfig.t)
      (localeCompare : string -> string -> comparison)
      (st st' : MeetData.t) (rows : value) (now : string)
      (sent : option Message.t) :
  processRows federationConfigs localeCompare st rows now = Returned st' sent ->
  exists its divisions meetInfo platforms referees lifters attempts,
    items rows = Ok its
    /\ processDivisions its = Ok divisions
    /\ processMeetInfo its = Ok meetInfo
    /\ processPlatforms its = Ok platforms
    /\ processReferees its = Ok referees
    /\ processLifters federationConfigs its (MeetData.federation st) divisions
       = Ok lifters
    /\ snd (processAttempts its lifters) = Ok attempts
    /\ snd (processRefereeLights localeCompare platforms referees) = Ok tt
    /\ st' = MeetData.mk
               (score (fst (processAttempts its lifters))) attempts divisions
               (fst (processRefereeLights localeCompare platforms referees))
               referees meetInfo (MeetData.federation st) (MeetData.meetId st)
               (VStr now)
    /\ sent = Some (updateMessage st').
Proof.
  unfold processRows, orAbort.
  destruct (items rows) as [its|] eqn:E1; [|discriminate].
  destruct (processDivisions its) as [divisions|] eqn:E2; [|discriminate].
  destruct (processMeetInfo its) as [meetInfo|] eqn:E3; [|discriminate].
  destruct (processPlatforms its) as [platforms|] eqn:E4; [|discriminate].
  destruct (processReferees its) as [referees|] eqn:E5; [|discriminate].
  cbv zeta. simpl_state.
  destruct (processLifters federationConfigs its (MeetData.federation st)
              divisions) as [lifters|] eqn:E6; [|discriminate].
  simpl_state.
  destruct (processAttempts its lifters) as [linked [attempts|]] eqn:E7;
    cbn [fst snd]; [|discriminate].
  simpl_state.
  destruct (processRefereeLights localeCompare platforms referees)
    as [lit [[]|]] eqn:E8; cbn [fst snd]; simpl_state; [|discriminate].
  intro H. inversion H; subst.
  exists its, divisions, meetInfo, platforms, referees, lifters, attempts.
  rewrite E7, E8. repeat apply conj; auto.
Qed.

(** The cycle reads nothing of the previous snapshot but the identity. *)
Lemma processRows_identity (federationConfigs : obj FedConfig.t)
      (localeCompare : string -> string -> comparison)
      (st st2 : MeetData.t) (rows : value) (now : string) :
  MeetData.meetId st2 = MeetData.meetId st ->
  MeetData.federation st2 = MeetData.federation st ->
  forall st' sent,
    processRows federationConfigs localeCompare st rows now = Returned st' sent ->
    processRows federationConfigs localeCompare st2 rows now = Returned st' sent.
Proof.
  intros Hid Hfed st' sent.
  destruct st as [l a d p r m fed id u], st2 as [l2 a2 d2 p2 r2 m2 fed2 id2 u2].
  cbn in Hid, Hfed. subst fed2 id2.
  unfold processRows, orAbort.
  destruct (items rows) as [its|]; [|discriminate].
  destruct (processDivisions its) as [divisions|]; [|discriminate].
  destruct (processMeetInfo its) as [meetInfo|]; [|discriminate].
  destruct (processPlatforms its) as [platforms|]; [|discriminate].
  destruct (processReferees its) as [referees|]; [|discriminate].
  cbv zeta. simpl_state.
  destruct (processLifters federationConfigs its fed divisions)
    as [lifters|]; [|discriminate].
  simpl_state.
  destruct (processAttempts its lifters) as [linked [attempts|]];
    cbn [fst snd]; [|discriminate].
  simpl_state.
  destruct (processRefereeLights localeCompare platforms referees)
    as [lit [[]|]]; cbn [fst snd]; simpl_state; [|discriminate].
  auto.
Qed.

(** X16.  A cycle that completes builds the snapshot from the feed alone.
    It keeps the meet id and the federation, stamps the time, broadcasts
    the update message of the new snapshot, and leaves lifters that a
    further scoring pass would not change; and from any other snapshot with
    the same meet id and federation the same response gives the same
    snapshot and message, so nothing of an earlier feed survives. *)
Theorem completed_cycle_from_feed (federationConfigs : obj FedConfig.t)
        (localeCompare : string -> string -> comparison)
        (st st' : MeetData.t) (r : response) (now : string) (msg : Message.t) :
  updateMeetData federationConfigs localeCompare st r now
  = Returned st' (Some msg) ->
  MeetData.meetId st' = MeetData.meetId st
  /\ MeetData.federation st' = MeetData.federation st
  /\ MeetData.lastUpdate st' = VStr now
  /\ msg = updateMessage st'
  /\ score (MeetData.lifters st') = MeetData.lifters st'
  /\ forall st2,
       MeetData.meetId st2 = MeetData.meetId st ->
       MeetData.federation st2 = MeetData.federation st ->
       updateMeetData federationConfigs localeCompare st2 r now
       = Returned st' (Some msg).
Proof.
  unfold updateMeetData.
  destruct (negb (truthy (MeetData.meetId st))) eqn:Hid; [discriminate|].
  cbv zeta.
  destruct (negb (truthy (fetchData r))
            || negb (truthy (getv (fetchData r) "rows"))) eqn:Hdata;
    [discriminate|].
  intro H.
  destruct (processRows_returned _ _ _ _ _ _ _ H)
    as (its & divisions & meetInfo & platforms & referees & lifters & attempts
        & _ & _ & _ & _ & _ & _ & _ & _ & Hst & Hmsg).
  repeat apply conj.
  - now rewrite Hst.
  - now rewrite Hst.
  - now rewrite Hst.
  - congruence.
  - rewrite Hst. cbn [MeetData.lifters]. apply score_idempotent.
  - intros st2 E1 E2. rewrite E1, Hid. cbv beta iota zeta.
    now apply (processRows_identity _ _ st st2).
Qed.

Lemma completed_cycle_from_feed_witness :
  let cycle st :=
    updateMeetData bothSexes String.compare st (payloadOf exampleRows)
      "2025-10-05T12:00:15.000Z" in
  exists st',
    cycle configuredState = Returned st' (Some (updateMessage st'))
    /\ cycle exampleState = Returned st' (Some (updateMessage st'))
    /\ MeetData.lastUpdate st' = VStr "2025-10-05T12:00:15.000Z".
Proof.
  intro cycle. exists (stateAfter (cycle configuredState)).
  assert (H : cycle configuredState
              = Returned (stateAfter (cycle configuredState))
                  (Some (updateMessage (stateAfter (cycle configuredState)))))
    by (vm_compute; reflexivity).
  split; [exact H|].
  destruct (completed_cycle_from_feed _ _ _ _ _ _ _ H)
    as (_ & _ & H3 & _ & _ & H6).
  split; [|exact H3].
  apply (H6 exampleState); reflexivity.
Defined.

(* ================================================================== *)
(** ** The handlers and the timer *)
(* ================================================================== *)





(** X18.  The registry of clients.  Closing a connection removes that
    client and no other, keeps the order of the rest and leaves [meetData]
    alone; closing twice is closing once.  Opening registers the client
    whether or not the initial message can be sent, sends nothing to anyone
    else, and opening then closing a client that was not connected gives the
    server back as it was. *)
Theorem client_registry (federationConfigs : obj FedConfig.t)
        (canSend : nat -> bool) (srv : Server.t) (ws : nat) :
  (forall c, In c (Server.connectedClients (wsClose srv ws))
             <-> In c (Server.connectedClients srv) /\ c <> ws)
  /\ Server.meetData (wsClose srv ws) = Server.meetData srv
  /\ wsClose (wsClose srv ws) ws = wsClose srv ws
  /\ (~ In ws (Server.connectedClients srv) -> wsClose srv ws = srv)
  /\ In ws (Server.connectedClients (fst (wsOpen federationConfigs canSend srv ws)))
  /\ Forall (fun m => fst m = ws)
            (snd (wsOpen federationConfigs canSend srv ws))
  /\ (~ In ws (Server.connectedClients srv) ->
      wsClose (fst (wsOpen federationConfigs canSend srv ws)) ws = srv).
Proof.
  destruct srv as [st clients].
  assert (Hno : forall l, ~ In ws l ->
                  filter (fun client => negb (client =? ws)%nat) l = l).
  { induction l as [|c l IH]; intro H; cbn; [reflexivity|].
    destruct (Nat.eqb_spec c ws) as [->|Hne]; cbn.
    - exfalso. apply H. now left.
    - rewrite IH; [reflexivity|]. intro. apply H. now right. }
  unfold wsClose, wsOpen. cbn [Server.connectedClients Server.meetData fst snd].
  repeat apply conj.
  - intro c. rewrite filter_In. rewrite negb_true_iff, Nat.eqb_neq. tauto.
  - reflexivity.
  - f_equal. apply Hno. intro H. apply filter_In in H.
    destruct H as [_ H]. now rewrite Nat.eqb_refl in H.
  - intro H. now rewrite Hno.
  - apply in_or_app. right. now left.
  - destruct (canSend ws); repeat constructor.
  - intro H. f_equal. rewrite filter_app, (Hno clients H). cbn.
    rewrite Nat.eqb_refl. cbn. apply app_nil_r.
Qed.

Lemma client_registry_witness :
  let srv := Server.mk configuredState [4; 7]%nat in
  wsClose (fst (wsOpen bothSexes (fun _ => false) srv 9)) 9 = srv.
Proof.
  intro srv.
  apply (client_registry bothSexes (fun _ => false) srv 9).
  cbn. lia.
Defined.

(** X19.  The [message] handler.  Whatever a client sends, the handler
    keeps the clients and every field of [meetData] but the meet id and the
    federation.  It starts a cycle exactly when the message parses to a
    value whose [type] is ["configure"]; otherwise the server is unchanged.
    A configure message sets the meet id to [msg.meetId], whatever that is,
    and the federation to [msg.federation] when that is truthy and to
    ["IPF"] otherwise, so the federation is truthy afterwards. *)
Theorem message_handler (srv : Server.t) (parsed : option value) :
  Server.connectedClients (fst (wsMessage srv parsed))
  = Server.connectedClients srv
  /\ Server.meetData (fst (wsMessage srv parsed))
     = setIdentity (MeetData.meetId (Server.meetData (fst (wsMessage srv parsed))))
                   (MeetData.federation
                      (Server.meetData (fst (wsMessage srv parsed))))
                   (Server.meetData srv)
  /\ (snd (wsMessage srv parsed) = true
      <-> exists msg, parsed = Some msg /\ getv msg "type" = VStr "configure")
  /\ (snd (wsMessage srv parsed) = false -> fst (wsMessage srv parsed) = srv)
  /\ (forall msg,
        parsed = Some msg -> getv msg "type" = VStr "configure" ->
        MeetData.meetId (Server.meetData (fst (wsMessage srv parsed)))
        = getv msg "meetId"
        /\ truthy (MeetData.federation
                     (Server.meetData (fst (wsMessage srv parsed)))) = true
        /\ MeetData.federation (Server.meetData (fst (wsMessage srv parsed)))
           = (if truthy (getv msg "federation") then getv msg "federation"
              else VStr "IPF")).
Proof.
  assert (Hnull : forall msg, nullish msg = true -> getv msg "type" = VUndef)
    by (intros [] H; try discriminate H; reflexivity).
  destruct srv as [st clients]. destruct st.
  unfold wsMessage. destruct parsed as [msg|].
  - unfold prop. destruct (nullish msg) eqn:Hn.
    + cbn. refine (conj _ (conj _ (conj _ (conj _ _)))); try reflexivity.
      * split; [discriminate|]. intros [m [H1 H2]]. inversion H1; subst m.
        rewrite (Hnull _ Hn) in H2. discriminate.
      * intros m H1 H2. inversion H1; subst m.
        rewrite (Hnull _ Hn) in H2. discriminate.
    + destruct (is_string (getv msg "type") "configure") eqn:Ht.
      * apply is_string_iff in Ht. cbn. refine (conj _ (conj _ (conj _ (conj _ _)))); try reflexivity.
        -- split; [eauto | reflexivity].
        -- discriminate.
        -- intros m H1 _. inversion H1; subst m.
           repeat apply conj; try reflexivity.
           unfold js_or. destruct (truthy (getv msg "federation")) eqn:Hf;
             [exact Hf | reflexivity].
      * cbn. refine (conj _ (conj _ (conj _ (conj _ _)))); try reflexivity.
        -- split; [discriminate|]. intros [m [H1 H2]]. inversion H1; subst m.
           apply is_string_iff in H2. congruence.
        -- intros m H1 H2. inversion H1; subst m.
           apply is_string_iff in H2. congruence.
  - cbn. refine (conj _ (conj _ (conj _ (conj _ _)))); try reflexivity.
    + split; [discriminate|]. intros [m [H1 _]]. discriminate.
    + intros m H1. discriminate.
Qed.

Lemma message_handler_witness :
  let srv := Server.mk (MeetData.mk [("l1", exampleLifter)] [] [] [] []
                          VNull (VStr "USAPL") (VStr "m1") VNull) [4]%nat in
  let msg := VObj [("type", VStr "configure"); ("meetId", VStr "m2")] in
  MeetData.meetId (Server.meetData (fst (wsMessage srv (Some msg)))) = VStr "m2"
  /\ truthy (MeetData.federation
               (Server.meetData (fst (wsMessage srv (Some msg))))) = true
  /\ MeetData.federation (Server.meetData (fst (wsMessage srv (Some msg))))
     = VStr "IPF".
Proof.
  intros srv msg.
  exact (proj2 (proj2 (proj2 (proj2 (message_handler srv (Some msg)))))
           msg eq_refl eq_refl).
Defined.

(** A cycle whose fetch fails returns with the state it started from. *)
Lemma fetch_failed_returns (federationConfigs : obj FedConfig.t)
      (localeCompare : string -> string -> comparison)
      (st : MeetData.t) (r : response) (now : string) :
  fetchFailed r ->
  updateMeetData federationConfigs localeCompare st r now = Returned st None.
Proof.
  intro H. unfold updateMeetData.
  destruct (truthy (MeetData.meetId st)); [|reflexivity]. cbn [negb].
  destruct H as [-> | [[body ->] | [-> | [data [-> Hrows]]]]];
    try reflexivity.
  unfold fetchData. cbn [negb]. unfold inspectData, prop.
  unfold oprop in Hrows.
  destruct (nullish data) eqn:Hn; cbn [bind]; [reflexivity|].
  unfold countRows.
  destruct (nullish (getv data "rows")) eqn:Hr; cbn [bind].
  - rewrite Hrows. now rewrite orb_true_r.
  - assert (E : items (getv data "rows") = Throw TypeError).
    { destruct (getv data "rows"); try reflexivity; discriminate. }
    rewrite E. reflexivity.
Qed.

(** X20.  Reconfiguring to a meet whose fetch fails.  After a configure
    message followed by a cycle whose fetch fails, nothing is broadcast and
    the server holds the new meet id and federation together with the
    lifters, the attempts and the time of the last update of the meet it
    showed before; a client that connects then is sent those lifters under
    the new federation. *)
Theorem reconfigure_failed_fetch (federationConfigs : obj FedConfig.t)
        (localeCompare : string -> string -> comparison)
        (canSend : nat -> bool) (srv : Server.t) (msg : value)
        (r : response) (now : string) (ws : nat) :
  getv msg "type" = VStr "configure" ->
  fetchFailed r ->
  canSend ws = true ->
  exists srv',
    runUpdate federationConfigs localeCompare canSend
      (fst (wsMessage srv (Some msg))) r now = (srv', [], None)
    /\ Server.meetData srv'
       = setIdentity (getv msg "meetId")
           (js_or (getv msg "federation") (VStr "IPF")) (Server.meetData srv)
    /\ snd (wsOpen federationConfigs canSend srv' ws)
       = [(ws, Message.mk "initial"
                 [("lifters", FLifters (MeetData.lifters (Server.meetData srv)));
                  ("lastUpdate",
                   FValue (MeetData.lastUpdate (Server.meetData srv)));
                  ("federation",
                   FValue (js_or (getv msg "federation") (VStr "IPF")));
                  ("federations", FKeys (obj_keys federationConfigs))])].
Proof.
  intros Ht Hr Hs.
  assert (Hn : nullish msg = false)
    by (destruct msg; try reflexivity; discriminate Ht).
  unfold wsMessage, prop. rewrite Hn, Ht. cbn [is_string].
  rewrite String.eqb_refl. cbn [fst].
  unfold runUpdate. cbn [Server.meetData Server.connectedClients].
  rewrite (fetch_failed_returns _ _ _ _ _ Hr).
  eexists. split; [reflexivity|]. split; [reflexivity|].
  unfold wsOpen. cbn [snd]. rewrite Hs. destruct srv as [st clients].
  destruct st. reflexivity.
Qed.

Lemma reconfigure_failed_fetch_witness :
  let shown := MeetData.mk [("l1", exampleLifter)] [] [] [] []
                 VNull (VStr "IPF") (VStr "m1") (VStr "2025-10-05T12:00:00.000Z")
  in
  let srv := Server.mk shown [4]%nat in
  let msg := VObj [("type", VStr "configure"); ("meetId", VStr "m2");
                   ("federation", VStr "USAPL")] in
  exists srv',
    runUpdate bothSexes String.compare (fun _ => true)
      (fst (wsMessage srv (Some msg))) NetworkError "2025-10-05T12:00:15.000Z"
    = (srv', [], None)
    /\ MeetData.lifters (Server.meetData srv') = [("l1", exampleLifter)]
    /\ MeetData.federation (Server.meetData srv') = VStr "USAPL".
Proof.
  intros shown srv msg.
  destruct (reconfigure_failed_fetch bothSexes String.compare (fun _ => true)
              srv msg NetworkError "2025-10-05T12:00:15.000Z" 5
              eq_refl (or_introl eq_refl) eq_refl) as [srv' [H1 [H2 _]]].
  exists srv'. split; [exact H1|]. rewrite H2. split; reflexivity.
Defined.
